(** * A multilayer perceptron trained by mini-batch gradient descent

    Shallow embedding of [src/mlp.py] (class [MLP]) and the properties of
    its forward pass, backpropagation and training loop.

    Layout of the development:
    - Python values: exceptions, outcomes, list indexing with negative
      indices;
    - the scalar arithmetic of the arrays, kept abstract ([Scalar]), with
      integers, exact rationals and binary64 floats as instances;
    - the part of numpy the class uses, on two-dimensional arrays, with
      broadcasting and the errors numpy raises on mismatched shapes;
    - the part of pandas the class uses (frames with index labels, sampling
      without replacement, dropping rows by label);
    - the object state and a state-and-exception monad in which the methods
      are written, statement by statement;
    - the recurrences of the written specification, and the theorems;
    - further properties of the methods: inputs and frames the network
      cannot take, the partition of a frame with distinct index labels,
      the end of the partition loop, what [train] prints and when it
      succeeds. *)

From Stdlib Require Import ZArith List Lia QArith Qcanon Ring PrimFloat.
From Stdlib Require Uint63 FloatAxioms SpecFloat.
From stdpp Require Import base list strings pretty.

Open Scope Z_scope.

(** ** Python outcomes *)

(** The exceptions that the modelled code can raise. *)
Inductive exn : Type :=
  | ValueError   (* numpy shape mismatch, pandas negative sample size *)
  | IndexError   (* list index out of range *)
  | KeyError.    (* pandas: missing column or index label *)

(** What running a piece of code yields: a value, a raised exception, or
    no answer within the allotted number of loop iterations. *)
Inductive outcome (A : Type) : Type :=
  | Ok (a : A)
  | Raise (e : exn)
  | OutOfFuel.
Arguments Ok {A} a.
Arguments Raise {A} e.
Arguments OutOfFuel {A}.

#[global] Instance exn_eq_dec : EqDecision exn.
Proof. solve_decision. Defined.

#[global] Instance outcome_ret : MRet outcome := λ A a, Ok a.
#[global] Instance outcome_bind : MBind outcome := λ A B f r,
  match r with
  | Ok a => f a
  | Raise e => Raise e
  | OutOfFuel => OutOfFuel
  end.
#[global] Instance outcome_fmap : FMap outcome := λ A B f r,
  match r with
  | Ok a => Ok (f a)
  | Raise e => Raise e
  | OutOfFuel => OutOfFuel
  end.

Definition is_ok {A} (r : outcome A) : bool :=
  match r with Ok _ => true | _ => false end.

(** ** Python lists *)

(** [l[i]] for a Python int [i]: negative indices count from the end, and
    an index outside the list raises [IndexError]. *)
Definition py_pos {A} (l : list A) (i : Z) : option nat :=
  let n := Z.of_nat (length l) in
  let j := if decide (i < 0) then i + n else i in
  if decide (0 ≤ j < n) then Some (Z.to_nat j) else None.

Definition getitem {A} (l : list A) (i : Z) : outcome A :=
  match py_pos l i with
  | Some j => match l !! j with Some x => Ok x | None => Raise IndexError end
  | None => Raise IndexError
  end.

(** [l[i] = x] *)
Definition setitem {A} (l : list A) (i : Z) (x : A) : outcome (list A) :=
  match py_pos l i with
  | Some j => Ok (<[j:=x]> l)
  | None => Raise IndexError
  end.

(** [l[:-1]] *)
Definition slice_init {A} (l : list A) : list A := take (length l - 1)%nat l.

(** [range(n)] and [range(start, stop, -1)] *)
Definition range (n : Z) : list Z := seqZ 0 n.
Definition range_down (start stop : Z) : list Z :=
  (λ k : nat, start - Z.of_nat k) <$> seq 0 (Z.to_nat (start - stop)).

(** ** Scalars *)

(** The element type of the arrays with the arithmetic the class uses.
    [s_of_int] is the conversion numpy applies to the Python int
    [len(inputs)] when an array is divided by it. *)
Class Scalar (F : Type) : Type := {
  s_zero : F;
  s_add : F → F → F;
  s_sub : F → F → F;
  s_mul : F → F → F;
  s_div : F → F → F;
  s_of_int : Z → F;
}.

(** Integers, with floor division for [/]. This is not the arithmetic of
    numpy, whose [/] is true division into [float64] and whose [int64]
    wraps around; the instance only serves to run small examples of
    statements that hold for every scalar type. *)
#[global] Instance Z_scalar : Scalar Z := {|
  s_zero := 0; s_add := Z.add; s_sub := Z.sub; s_mul := Z.mul;
  s_div := Z.div; s_of_int := λ n, n |}.

(** Exact rationals: a field. *)
#[global] Instance Qc_scalar : Scalar Qc := {|
  s_zero := 0%Qc; s_add := Qcplus; s_sub := Qcminus; s_mul := Qcmult;
  s_div := Qcdiv; s_of_int := λ n, Q2Qc (inject_Z n) |}.

(** IEEE 754 binary64 with round-to-nearest-even, the arithmetic of numpy's
    [float64] arrays. The conversion is the exact one for the integers a
    length can be (below [2^53] in absolute value). *)
Definition float_of_int (n : Z) : float :=
  if n <? 0 then (- of_uint63 (Uint63.of_Z (- n)))%float
  else of_uint63 (Uint63.of_Z n).

#[global] Instance float64_scalar : Scalar float := {|
  s_zero := 0%float; s_add := PrimFloat.add; s_sub := PrimFloat.sub;
  s_mul := PrimFloat.mul; s_div := PrimFloat.div; s_of_int := float_of_int |}.

(** ** numpy: two-dimensional arrays *)

Section Numpy.
Context {F : Type} `{Scalar F}.

(** An array carries its shape and its rows. Every operation below builds
    its result with [build], so results always have as many rows and
    columns as their shape says. *)
Record ndarray : Type := NdArray {
  shape : nat * nat;
  rows : list (list F);
}.

Definition nrows (a : ndarray) : nat := (shape a).1.
Definition ncols (a : ndarray) : nat := (shape a).2.

Definition build (r c : nat) (f : nat → nat → F) : ndarray :=
  NdArray (r, c) ((λ i, (λ j, f i j) <$> seq 0 c) <$> seq 0 r).

(** [a[i, j]] for indices inside the shape. *)
Definition item (a : ndarray) (i j : nat) : F :=
  default s_zero (rows a !! i ≫= λ row, row !! j).

(** [np.zeros(shape)] *)
Definition np_zeros (s : nat * nat) : ndarray :=
  build s.1 s.2 (λ _ _, s_zero).

(** [a.reshape(a.shape[0], 1)] for a one-dimensional [a] *)
Definition reshape_column (a : list F) : ndarray :=
  build (length a) 1 (λ i _, default s_zero (a !! i)).

(** [a.transpose()] *)
Definition np_transpose (a : ndarray) : ndarray :=
  build (ncols a) (nrows a) (λ i j, item a j i).

(** [np.dot(a, b)] for two-dimensional arrays: the matrix product;
    [ValueError] when the inner dimensions differ. *)
Definition np_dot (a b : ndarray) : outcome ndarray :=
  if decide (ncols a = nrows b) then
    Ok (build (nrows a) (ncols b) (λ i j,
          foldl (λ acc k, s_add acc (s_mul (item a i k) (item b k j)))
                s_zero (seq 0 (ncols a))))
  else Raise ValueError.

(** Broadcasting of one dimension: equal sizes, or one of them is 1. *)
Definition broadcast_dim (m n : nat) : option nat :=
  if decide (m = n) then Some m
  else if decide (m = 1%nat) then Some n
  else if decide (n = 1%nat) then Some m
  else None.

(** The index read in a dimension of size [m] for the result index [i]. *)
Definition broadcast_idx (m i : nat) : nat :=
  if decide (m = 1%nat) then 0%nat else i.

(** An elementwise binary operator ([+], [-], [*]) with broadcasting;
    [ValueError] when the shapes cannot be broadcast together. *)
Definition broadcast (op : F → F → F) (a b : ndarray) : outcome ndarray :=
  match broadcast_dim (nrows a) (nrows b),
        broadcast_dim (ncols a) (ncols b) with
  | Some r, Some c =>
      Ok (build r c (λ i j,
            op (item a (broadcast_idx (nrows a) i) (broadcast_idx (ncols a) j))
               (item b (broadcast_idx (nrows b) i) (broadcast_idx (ncols b) j))))
  | _, _ => Raise ValueError
  end.

Definition np_add : ndarray → ndarray → outcome ndarray := broadcast s_add.
Definition np_sub : ndarray → ndarray → outcome ndarray := broadcast s_sub.
Definition np_mul : ndarray → ndarray → outcome ndarray := broadcast s_mul.

(** [x * a] for a Python float [x] *)
Definition np_scale (x : F) (a : ndarray) : ndarray :=
  build (nrows a) (ncols a) (λ i j, s_mul x (item a i j)).

(** [a / n] for a Python int [n] *)
Definition np_div_int (a : ndarray) (n : Z) : ndarray :=
  build (nrows a) (ncols a) (λ i j, s_div (item a i j) (s_of_int n)).

End Numpy.
Arguments ndarray F : clear implicits.

(** ** pandas: data frames *)

Section Pandas.
Context {F : Type} `{Scalar F}.

(** A frame has column names and rows; a row is its index label and one
    cell per column. Cells are scalars. Column names are taken to be
    pairwise distinct; index labels need not be. *)
Record DataFrame : Type := {
  columns : list string;
  frame_rows : list (Z * list F);
}.

(** [df.index], [df.to_numpy()], [len(df)] *)
Definition index (df : DataFrame) : list Z := (frame_rows df).*1.
Definition to_numpy (df : DataFrame) : list (list F) := (frame_rows df).*2.
Definition df_len (df : DataFrame) : Z := Z.of_nat (length (frame_rows df)).

(** [df.empty]: true when any axis has length 0. *)
Definition df_empty (df : DataFrame) : bool :=
  bool_decide (length (frame_rows df) = 0%nat ∨ length (columns df) = 0%nat).

(** Position of a column name. *)
Definition column_pos (c : string) (df : DataFrame) : option nat :=
  fst <$> list_find (λ x, x = c) (columns df).

(** [df[c].to_numpy()]; [KeyError] when there is no such column. *)
Definition df_getitem (df : DataFrame) (c : string) : outcome (list F) :=
  match column_pos c df with
  | Some p => Ok ((λ r : Z * list F, default s_zero (r.2 !! p)) <$> frame_rows df)
  | None => Raise KeyError
  end.

(** [df.drop(columns=[c])]; [KeyError] when there is no such column. *)
Definition df_drop_columns (df : DataFrame) (c : string) : outcome DataFrame :=
  match column_pos c df with
  | Some _ =>
      Ok {| columns := filter (λ x, x ≠ c) (columns df);
            frame_rows :=
              (λ r : Z * list F,
                 (r.1, (filter (λ p : string * F, p.1 ≠ c) (zip (columns df) r.2)).*2))
              <$> frame_rows df |}
  | None => Raise KeyError
  end.

(** [df.drop(labels)]: removes every row whose index label is among
    [labels]; [KeyError] when a label is not in the index. *)
Definition df_drop (df : DataFrame) (labels : list Z) : outcome DataFrame :=
  if decide (Forall (λ l, l ∈ index df) labels) then
    Ok {| columns := columns df;
          frame_rows := filter (λ r : Z * list F, r.1 ∉ labels) (frame_rows df) |}
  else Raise KeyError.

(** Sampling without replacement draws row positions one at a time from
    the positions that remain; each draw is decided by the next number of
    the random stream (0 once the stream is used up). Any selection of [k]
    distinct positions, in any order, is obtained from some stream. *)
Fixpoint choose_positions (g : list nat) (k : nat) (pool : list nat)
  : list nat * list nat :=
  match k with
  | O => ([], g)
  | S k' =>
      match pool with
      | [] => ([], g)
      | _ :: _ =>
          let i := (hd 0%nat g `mod` length pool)%nat in
          let '(ps, g') := choose_positions (tl g) k' (delete i pool) in
          (default 0%nat (pool !! i) :: ps, g')
      end
  end.

(** The rows of [df] at the given positions, in that order. *)
Definition take_rows (df : DataFrame) (ps : list nat) : DataFrame :=
  {| columns := columns df;
     frame_rows := omap (λ p, frame_rows df !! p) ps |}.

End Pandas.
Arguments DataFrame F : clear implicits.

(** ** The object and its world *)

Section Model.
Context {F : Type} `{Scalar F}.

(** The attributes set by [MLP.__init__]. The elementwise functions are
    total functions on arrays. The two initialisers receive the layer sizes
    as they are given, and may reject them. *)
Record MLP : Type := {
  activation : ndarray F → ndarray F;
  loss_derv : ndarray F → ndarray F → ndarray F;
  activation_derv : ndarray F → ndarray F;
  output_activ : ndarray F → ndarray F;
  output_derv : ndarray F → ndarray F;
  target_fit : F → ndarray F;
  weight_init : Z → Z → outcome (ndarray F);
  bias_init : Z → outcome (ndarray F);
  weights : list (ndarray F);
  biases : list (ndarray F);
}.

Definition set_weights (ws : list (ndarray F)) (m : MLP) : MLP :=
  {| activation := activation m; loss_derv := loss_derv m;
     activation_derv := activation_derv m; output_activ := output_activ m;
     output_derv := output_derv m; target_fit := target_fit m;
     weight_init := weight_init m; bias_init := bias_init m;
     weights := ws; biases := biases m |}.

Definition set_biases (bs : list (ndarray F)) (m : MLP) : MLP :=
  {| activation := activation m; loss_derv := loss_derv m;
     activation_derv := activation_derv m; output_activ := output_activ m;
     output_derv := output_derv m; target_fit := target_fit m;
     weight_init := weight_init m; bias_init := bias_init m;
     weights := weights m; biases := bs |}.

(** What a method call can read and change: the object, the lines printed
    so far, and the stream of random draws used by [DataFrame.sample]. *)
Record world : Type := World {
  self : MLP;
  stdout : list string;
  random_state : list nat;
}.

(** Methods are state transformers that end in an [outcome]. *)
Definition M (A : Type) : Type := world → world * outcome A.

#[global] Instance M_ret : MRet M := λ A a s, (s, Ok a).
#[global] Instance M_bind : MBind M := λ A B f m s,
  match m s with
  | (s', Ok a) => f a s'
  | (s', Raise e) => (s', Raise e)
  | (s', OutOfFuel) => (s', OutOfFuel)
  end.

(** [self.x] *)
Definition attr {T} (f : MLP → T) : M T := λ s, (s, Ok (f (self s))).
(** An expression that may raise. *)
Definition try {A} (r : outcome A) : M A := λ s, (s, r).
Definition out_of_fuel {A} : M A := λ s, (s, OutOfFuel).
(** [self.weights = ws], [self.biases = bs] *)
Definition assign_weights (ws : list (ndarray F)) : M unit :=
  λ s, (World (set_weights ws (self s)) (stdout s) (random_state s), Ok ()).
Definition assign_biases (bs : list (ndarray F)) : M unit :=
  λ s, (World (set_biases bs (self s)) (stdout s) (random_state s), Ok ()).
(** [print(line)] *)
Definition print (line : string) : M unit :=
  λ s, (World (self s) (stdout s ++ [line]) (random_state s), Ok ()).

(** [for x in l: st = body(x, st)] *)
Fixpoint for_each {A S} (l : list A) (body : A → S → M S) (st : S) : M S :=
  match l with
  | [] => mret st
  | x :: l' => st' ← body x st; for_each l' body st'
  end.

(** [df.sample(n=n)]: [n] rows of [df] chosen without replacement;
    [ValueError] for a negative [n] or one larger than the frame. *)
Definition df_sample (df : DataFrame F) (n : Z) : M (DataFrame F) := λ s,
  if decide (n < 0) then (s, Raise ValueError)
  else if decide (df_len df < n) then (s, Raise ValueError)
  else
    let '(ps, g) := choose_positions (random_state s) (Z.to_nat n)
                      (seq 0 (length (frame_rows df))) in
    (World (self s) (stdout s) g, Ok (take_rows df ps)).

(** ** The methods of [MLP] *)

Definition __init_weights (w_init : Z → Z → outcome (ndarray F))
    (lsizes : list Z) : outcome (list (ndarray F)) :=
  mapM (λ p : Z * Z, w_init p.1 p.2) (zip (drop 1 lsizes) (slice_init lsizes)).

Definition __init_biases (b_init : Z → outcome (ndarray F))
    (lsizes : list Z) : outcome (list (ndarray F)) :=
  mapM b_init (drop 1 lsizes).

Definition __init__ (layers_sizes : list Z)
    (activation_func : ndarray F → ndarray F)
    (loss_derv : ndarray F → ndarray F → ndarray F)
    (activation_derv output_func output_derv : ndarray F → ndarray F)
    (target_fit : F → ndarray F)
    (weight_init : Z → Z → outcome (ndarray F))
    (bias_init : Z → outcome (ndarray F)) : outcome MLP :=
  ws ← __init_weights weight_init layers_sizes;
  bs ← __init_biases bias_init layers_sizes;
  mret {| activation := activation_func; loss_derv := loss_derv;
          activation_derv := activation_derv; output_activ := output_func;
          output_derv := output_derv; target_fit := target_fit;
          weight_init := weight_init; bias_init := bias_init;
          weights := ws; biases := bs |}.

(** [z = np.dot(w, a) + b] *)
Definition affine (w a b : ndarray F) : outcome (ndarray F) :=
  d ← np_dot w a; np_add d b.

Definition feed_forward (a : list F) : M (ndarray F) :=
  let a := reshape_column a in
  ws ← attr weights;
  bs ← attr biases;
  a ← for_each (zip (slice_init ws) (slice_init bs))
        (λ '(w, b) a,
           z ← try (affine w a b);
           act ← attr activation;
           mret (act z)) a;
  ws ← attr weights;
  w ← try (getitem ws (-1));
  d ← try (np_dot w a);
  bs ← attr biases;
  b ← try (getitem bs (-1));
  z ← try (np_add d b);
  out ← attr output_activ;
  mret (out z).

Definition get_activations_and_zs (a : list F)
  : M (list (ndarray F) * list (ndarray F)) :=
  let a := reshape_column a in
  let activs := [a] in
  let zs := [] in
  ws ← attr weights;
  bs ← attr biases;
  '(a, activs, zs) ← for_each (zip (slice_init ws) (slice_init bs))
        (λ '(w, b) '(a, activs, zs),
           z ← try (affine w a b);
           let zs := zs ++ [z] in
           act ← attr activation;
           let a := act z in
           let activs := activs ++ [a] in
           mret (a, activs, zs)) (a, activs, zs);
  ws ← attr weights;
  w ← try (getitem ws (-1));
  d ← try (np_dot w a);
  bs ← attr biases;
  b ← try (getitem bs (-1));
  z ← try (np_add d b);
  let zs := zs ++ [z] in
  out ← attr output_activ;
  let a := out z in
  let activs := activs ++ [a] in
  mret (activs, zs).

Definition backward (a : list F) (targets : ndarray F)
  : M (list (ndarray F) * list (ndarray F)) :=
  ws ← attr weights;
  let weight_dervs := (λ w, np_zeros (shape w)) <$> ws in
  bs ← attr biases;
  let bias_dervs := (λ b, np_zeros (shape b)) <$> bs in
  '(activs, zs) ← get_activations_and_zs a;
  ld ← attr loss_derv;
  a_last ← try (getitem activs (-1));
  od ← attr output_derv;
  z_last ← try (getitem zs (-1));
  loss_derv ← try (np_mul (ld a_last targets) (od z_last));
  bias_dervs ← try (setitem bias_dervs (-1) loss_derv);
  a_prev ← try (getitem activs (-2));
  wd ← try (np_dot loss_derv (np_transpose a_prev));
  weight_dervs ← try (setitem weight_dervs (-1) wd);
  ws ← attr weights;
  '(loss_derv, bias_dervs, weight_dervs) ←
    for_each (range_down (Z.of_nat (length ws) - 2) (-1))
      (λ i '(loss_derv, bias_dervs, weight_dervs),
         ws ← attr weights;
         w_next ← try (getitem ws (i + 1));
         p ← try (np_dot (np_transpose w_next) loss_derv);
         ad ← attr activation_derv;
         z ← try (getitem zs i);
         loss_derv ← try (np_mul p (ad z));
         bias_dervs ← try (setitem bias_dervs i loss_derv);
         a_i ← try (getitem activs i);
         wd ← try (np_dot loss_derv (np_transpose a_i));
         weight_dervs ← try (setitem weight_dervs i wd);
         mret (loss_derv, bias_dervs, weight_dervs))
      (loss_derv, bias_dervs, weight_dervs);
  mret (weight_dervs, bias_dervs).

(** [[x + y for x, y in zip(xs, ys)]] *)
Definition add_layers (xs ys : list (ndarray F)) : outcome (list (ndarray F)) :=
  mapM (λ p : ndarray F * ndarray F, np_add p.1 p.2) (zip xs ys).

(** [[p - learning_rate * g / n for p, g in zip(params, grads)]] *)
Definition descend (learning_rate : F) (n : Z) (params grads : list (ndarray F))
  : outcome (list (ndarray F)) :=
  mapM (λ p : ndarray F * ndarray F,
          np_sub p.1 (np_div_int (np_scale learning_rate p.2) n))
       (zip params grads).

Definition process_batch (batch : DataFrame F) (class_column : string)
    (learning_rate : F) : M unit :=
  ws ← attr weights;
  let weight_gradient := (λ w, np_zeros (shape w)) <$> ws in
  bs ← attr biases;
  let bias_gradient := (λ b, np_zeros (shape b)) <$> bs in
  classes ← try (df_getitem batch class_column);
  tf ← attr target_fit;
  let classes := tf <$> classes in
  inputs ← try (to_numpy <$> df_drop_columns batch class_column);
  '(weight_gradient, bias_gradient) ←
    for_each (range (Z.of_nat (length classes)))
      (λ i '(weight_gradient, bias_gradient),
         x ← try (getitem inputs i);
         t ← try (getitem classes i);
         '(weights_dervs, biases_dervs) ← backward x t;
         weight_gradient ← try (add_layers weight_gradient weights_dervs);
         bias_gradient ← try (add_layers bias_gradient biases_dervs);
         mret (weight_gradient, bias_gradient))
      (weight_gradient, bias_gradient);
  ws ← attr weights;
  ws' ← try (descend learning_rate (Z.of_nat (length inputs)) ws weight_gradient);
  assign_weights ws';;
  bs ← attr biases;
  bs' ← try (descend learning_rate (Z.of_nat (length inputs)) bs bias_gradient);
  assign_biases bs'.

(** The [while] loop of [initialize_mini_batches]; [fuel] bounds the
    number of iterations. *)
Fixpoint initialize_mini_batches_loop (fuel : nat) (t_data : DataFrame F)
    (mini_batch_size : Z) (mini_batches : list (DataFrame F))
  : M (list (DataFrame F)) :=
  if df_empty t_data then mret mini_batches
  else
    match fuel with
    | O => out_of_fuel
    | S fuel' =>
        mini_batch ← df_sample t_data (Z.min mini_batch_size (df_len t_data));
        let mini_batches := mini_batches ++ [mini_batch] in
        t_data ← try (df_drop t_data (index mini_batch));
        initialize_mini_batches_loop fuel' t_data mini_batch_size mini_batches
    end.

Definition initialize_mini_batches (fuel : nat) (t_data : DataFrame F)
    (mini_batch_size : Z) : M (list (DataFrame F)) :=
  let mini_batches := [] in
  initialize_mini_batches_loop fuel t_data mini_batch_size mini_batches.

(** [fuel] bounds the iterations of each partition of the data. *)
Definition train (fuel : nat) (training_data : DataFrame F) (epochs : Z)
    (mini_batch_size : Z) (learning_rate : F) (class_column : string)
  : M unit :=
  for_each (range epochs)
    (λ epoch _,
       mini_batches ← initialize_mini_batches fuel training_data mini_batch_size;
       for_each mini_batches
         (λ batch _, process_batch batch class_column learning_rate) ();;
       print ("Epoch " +:+ pretty (epoch + 1) +:+ " completed."))
    ().

Definition predict (X : DataFrame F) : M (list (ndarray F)) :=
  let predictions := [] in
  for_each (to_numpy X)
    (λ row predictions,
       prediction ← feed_forward row;
       mret (predictions ++ [prediction]))
    predictions.

End Model.
Arguments MLP F : clear implicits.
Arguments world F : clear implicits.

(** * Properties *)

(** ** Running monadic code *)

Section Monad.
Context {F : Type} `{Scalar F}.

Lemma bind_run {A B} (m : M A) (f : A → M B) (s : world F) :
  (m ≫= f) s =
  match m s with
  | (s', Ok a) => f a s'
  | (s', Raise e) => (s', Raise e)
  | (s', OutOfFuel) => (s', OutOfFuel)
  end.
Proof. reflexivity. Qed.

Lemma bind_attr {T B} (g : MLP F → T) (f : T → M B) (s : world F) :
  (attr g ≫= f) s = f (g (self s)) s.
Proof. reflexivity. Qed.

Lemma bind_try {A B} (r : outcome A) (f : A → M B) (s : world F) :
  (try r ≫= f) s =
  match r with
  | Ok a => f a s
  | Raise e => (s, Raise e)
  | OutOfFuel => (s, OutOfFuel)
  end.
Proof. by destruct r. Qed.

Lemma bind_ret {A B} (a : A) (f : A → M B) (s : world F) :
  (mret a ≫= f) s = f a s.
Proof. reflexivity. Qed.

(** A computation is read-only when it hands back the world it was given,
    whatever its outcome. *)
Definition read_only {A} (m : M A) : Prop := ∀ s : world F, (m s).1 = s.

Lemma read_only_ret {A} (a : A) : read_only (mret a : M A).
Proof. by intros s. Qed.

Lemma read_only_attr {T} (g : MLP F → T) : read_only (attr g).
Proof. by intros s. Qed.

Lemma read_only_try {A} (r : outcome A) : read_only (try r : M A).
Proof. by intros s. Qed.

Lemma read_only_bind {A B} (m : M A) (f : A → M B) :
  read_only m → (∀ a, read_only (f a)) → read_only (m ≫= f).
Proof.
  intros Hm Hf s. rewrite bind_run. specialize (Hm s).
  destruct (m s) as [s' [a| |]]; simpl in *; subst; auto.
  apply Hf.
Qed.

Lemma read_only_for_each {A S} (l : list A) (body : A → S → M S) (st : S) :
  (∀ x st', read_only (body x st')) → read_only (for_each l body st).
Proof.
  intros Hbody. revert st. induction l as [|x l IH]; intros st; simpl.
  - apply read_only_ret.
  - apply read_only_bind; auto.
Qed.

Lemma read_only_run {A} (m : M A) (s : world F) :
  read_only m → m s = (s, (m s).2).
Proof. intros Hm. rewrite <- (Hm s) at 2. by destruct (m s). Qed.

End Monad.

(** Splits a read-only goal along the binds of the code. *)
Ltac read_only_step :=
  first
    [ apply read_only_ret | apply read_only_attr | apply read_only_try
    | apply read_only_for_each; intros
    | apply read_only_bind; [|intros] ].
Ltac solve_read_only :=
  repeat (read_only_step ||
          match goal with
          | |- context [match ?p with (_, _) => _ end] => is_var p; destruct p
          end).

(** ** The methods that only read *)

Section ReadOnly.
Context {F : Type} `{Scalar F}.

Lemma feed_forward_read_only (a : list F) : read_only (feed_forward a).
Proof. unfold feed_forward. solve_read_only. Qed.

Lemma get_activations_and_zs_read_only (a : list F) :
  read_only (get_activations_and_zs a).
Proof. unfold get_activations_and_zs. solve_read_only. Qed.

Lemma backward_read_only (a : list F) (t : ndarray F) :
  read_only (backward a t).
Proof.
  unfold backward. solve_read_only.
  all: try apply get_activations_and_zs_read_only.
  all: solve_read_only.
Qed.

Lemma predict_read_only (X : DataFrame F) : read_only (predict X).
Proof.
  unfold predict. solve_read_only.
  all: try apply feed_forward_read_only.
  all: solve_read_only.
Qed.

End ReadOnly.

(** ** Outcomes and Python lists: basic facts *)

Section Basics.
Context {A : Type}.
Implicit Types (l : list A) (r : outcome A).

(** The value of an outcome known to be [Ok]. *)
Definition get_ok (d : A) (r : outcome A) : A :=
  match r with Ok a => a | _ => d end.

Lemma is_ok_get_ok d r : is_ok r → r = Ok (get_ok d r).
Proof. by destruct r. Qed.

Lemma is_ok_Ok (a : A) : is_ok (Ok a).
Proof. done. Qed.

Lemma outcome_bind_ok {B} (a : A) (f : A → outcome B) : Ok a ≫= f = f a.
Proof. reflexivity. Qed.

Lemma py_pos_nat l (i : nat) :
  (i < length l)%nat → py_pos l (Z.of_nat i) = Some i.
Proof.
  intros Hi. unfold py_pos.
  destruct (decide (Z.of_nat i < 0)); [lia|].
  destruct (decide (0 ≤ Z.of_nat i < Z.of_nat (length l))); [|lia].
  by rewrite Nat2Z.id.
Qed.

Lemma py_pos_neg l (k : nat) :
  (0 < k ≤ length l)%nat → py_pos l (- Z.of_nat k) = Some (length l - k)%nat.
Proof.
  intros Hk. unfold py_pos.
  destruct (decide (- Z.of_nat k < 0)); [|lia].
  destruct (decide (0 ≤ - Z.of_nat k + Z.of_nat (length l) < Z.of_nat (length l)));
    [|lia].
  f_equal. lia.
Qed.

Lemma getitem_nat l (i : nat) a :
  l !! i = Some a → getitem l (Z.of_nat i) = Ok a.
Proof.
  intros Hl. unfold getitem.
  rewrite py_pos_nat by (by eapply lookup_lt_Some). by rewrite Hl.
Qed.

Lemma getitem_neg l (k : nat) a :
  (0 < k ≤ length l)%nat → l !! (length l - k)%nat = Some a →
  getitem l (- Z.of_nat k) = Ok a.
Proof. intros Hk Hl. unfold getitem. by rewrite py_pos_neg, Hl. Qed.

Lemma getitem_last l a : getitem (l ++ [a]) (-1) = Ok a.
Proof.
  apply (getitem_neg _ 1); rewrite length_app; simpl; [lia|].
  replace (length l + 1 - 1)%nat with (length l + 0)%nat by lia.
  by rewrite lookup_app_r, Nat.add_0_r, Nat.sub_diag by lia.
Qed.

Lemma getitem_empty (i : Z) : getitem (@nil A) i = Raise IndexError.
Proof.
  unfold getitem, py_pos; simpl.
  destruct (decide (i < 0)); by destruct (decide _); [lia|].
Qed.

Lemma setitem_nat l (i : nat) a :
  (i < length l)%nat → setitem l (Z.of_nat i) a = Ok (<[i:=a]> l).
Proof. intros Hi. unfold setitem. by rewrite py_pos_nat. Qed.

Lemma setitem_neg l (k : nat) a :
  (0 < k ≤ length l)%nat →
  setitem l (- Z.of_nat k) a = Ok (<[(length l - k)%nat:=a]> l).
Proof. intros Hk. unfold setitem. by rewrite py_pos_neg. Qed.

Lemma range_down_S (n : nat) :
  range_down (Z.of_nat n) (-1) = Z.of_nat n :: range_down (Z.of_nat n - 1) (-1).
Proof.
  unfold range_down.
  replace (Z.to_nat (Z.of_nat n - -1)) with (S n) by lia.
  replace (Z.to_nat (Z.of_nat n - 1 - -1)) with n by lia.
  simpl. f_equal; [lia|].
  rewrite <- fmap_S_seq, <- list_fmap_compose.
  apply list_fmap_ext. intros _ k _. simpl. lia.
Qed.

Lemma range_down_nil : range_down (-1) (-1) = [].
Proof. reflexivity. Qed.

End Basics.

(** [mapM] in the outcome monad. *)
Section MapM.
Context {A B : Type}.
Implicit Types (f : A → outcome B) (l : list A).

Lemma mapM_outcome_ok (d : B) f l :
  (∀ x, x ∈ l → is_ok (f x)) → mapM f l = Ok ((λ x, get_ok d (f x)) <$> l).
Proof.
  induction l as [|x l IH]; intros Hl; [done|].
  simpl. rewrite (is_ok_get_ok d (f x)) at 1 by (apply Hl; left).
  simpl. rewrite IH; [done|]. intros y Hy. apply Hl. by right.
Qed.

Lemma mapM_outcome_raise e f l :
  (∀ x, x ∈ l → is_ok (f x) ∨ f x = Raise e) →
  (∃ x, x ∈ l ∧ f x = Raise e) →
  mapM f l = Raise e.
Proof.
  induction l as [|x l IH]; intros Hall (y & Hy & Hfy).
  - by apply elem_of_nil in Hy.
  - simpl. destruct (Hall x) as [Hx|Hx]; [left| |by rewrite Hx].
    destruct (f x) as [b| |] eqn:Hfx; try done. simpl.
    rewrite IH; [done| |].
    + intros z Hz. apply Hall. by right.
    + apply elem_of_cons in Hy as [->|Hy]; [congruence|eauto].
Qed.

Lemma mapM_outcome_length f l k : mapM f l = Ok k → length k = length l.
Proof.
  revert k. induction l as [|x l IH]; intros k; simpl.
  - by intros [= <-].
  - destruct (f x); try done. simpl.
    destruct (mapM f l) eqn:Hm; try done. simpl.
    intros [= <-]. simpl. f_equal. by apply IH.
Qed.

Lemma mapM_outcome_lookup f l k i x :
  mapM f l = Ok k → l !! i = Some x → ∃ y, k !! i = Some y ∧ f x = Ok y.
Proof.
  revert k i. induction l as [|x' l IH]; intros k i; simpl; [done|].
  destruct (f x') eqn:Hf; try done. simpl.
  destruct (mapM f l) eqn:Hm; try done. simpl.
  intros [= <-]. destruct i as [|i]; simpl.
  - intros [= ->]. eauto.
  - by apply IH.
Qed.

End MapM.

(** ** The forward recurrence *)

Section Forward.
Context {F : Type} `{Scalar F}.
Implicit Types (net : MLP F) (x : list F) (s : world F).

(** [Weight[i]], [Bias[i]] *)
Definition layer {A} (l : list A) (i : nat) : outcome A :=
  from_option Ok (Raise IndexError) (l !! i).

(** The recurrence as the specification writes it.
    [Z = Weight[i]·A + Bias[i]] for the activation [A] entering layer [i]. *)
Definition PreActivation_of net (i : nat) (a : ndarray F) : outcome (ndarray F) :=
  w ← layer (weights net) i;
  b ← layer (biases net) i;
  d ← np_dot w a;
  np_add d b.

(** [Activation[0]] is the input as a column; [Activation[i+1]] is the
    activation function applied to [PreActivation[i]], the output
    activation at the final layer only. *)
Fixpoint Activation net x (i : nat) : outcome (ndarray F) :=
  match i with
  | O => Ok (reshape_column x)
  | S k =>
      a ← Activation net x k;
      z ← PreActivation_of net k a;
      Ok (if decide (S k = length (weights net))
          then output_activ net z else activation net z)
  end.

Definition PreActivation net x (i : nat) : outcome (ndarray F) :=
  a ← Activation net x i; PreActivation_of net i a.

(** [evaluate(input)] and [evaluateWithTrace(input)] of the specification. *)
Definition evaluate net x : outcome (ndarray F) :=
  Activation net x (length (weights net)).

Definition evaluateWithTrace net x
  : outcome (list (ndarray F) * list (ndarray F)) :=
  activs ← mapM (Activation net x) (seq 0 (S (length (weights net))));
  zs ← mapM (PreActivation net x) (seq 0 (length (weights net)));
  Ok (activs, zs).

(** A network has as many bias vectors as weight matrices, and at least
    one layer. *)
Definition layered net : Prop :=
  length (biases net) = length (weights net) ∧ (0 < length (weights net))%nat.

#[global] Instance layered_dec net : Decision (layered net).
Proof. unfold layered. apply _. Defined.

Lemma Activation_S net x k :
  Activation net x (S k) =
  z ← PreActivation net x k;
  Ok (if decide (S k = length (weights net))
      then output_activ net z else activation net z).
Proof. simpl. unfold PreActivation. by destruct (Activation net x k). Qed.

Lemma PreActivation_of_cases net i a :
  length (biases net) = length (weights net) →
  (i < length (weights net))%nat →
  is_ok (PreActivation_of net i a) ∨ PreActivation_of net i a = Raise ValueError.
Proof.
  intros Hb Hi. unfold PreActivation_of, layer.
  destruct (lookup_lt_is_Some_2 (weights net) i Hi) as [w ->].
  destruct (lookup_lt_is_Some_2 (biases net) i) as [b ->]; [lia|]. simpl.
  unfold np_dot. destruct (decide _); simpl; [|by right].
  unfold np_add, broadcast. repeat case_match; auto.
Qed.

Lemma Activation_cases net x i :
  length (biases net) = length (weights net) →
  (i ≤ length (weights net))%nat →
  is_ok (Activation net x i) ∨ Activation net x i = Raise ValueError.
Proof.
  intros Hb. induction i as [|i IH]; intros Hi; [by left|].
  simpl. destruct IH as [Hok| ->]; [lia| |by right].
  destruct (Activation net x i) as [a| |]; try done. simpl.
  destruct (PreActivation_of_cases net i a) as [Hz| ->]; [done|lia| |by right].
  destruct (PreActivation_of net i a); try done. by left.
Qed.

Lemma PreActivation_cases net x i :
  length (biases net) = length (weights net) →
  (i < length (weights net))%nat →
  is_ok (PreActivation net x i) ∨ PreActivation net x i = Raise ValueError.
Proof.
  intros Hb Hi. unfold PreActivation.
  destruct (Activation_cases net x i) as [Hok| ->]; [done|lia| |by right].
  destruct (Activation net x i) as [a| |]; try done. simpl.
  by apply PreActivation_of_cases.
Qed.

Lemma Activation_ok_S net x i :
  is_ok (Activation net x (S i)) →
  is_ok (Activation net x i) ∧ is_ok (PreActivation net x i).
Proof.
  rewrite Activation_S. unfold PreActivation.
  destruct (Activation net x i); try done. simpl.
  by destruct (PreActivation_of net i a).
Qed.

Lemma Activation_ok_le net x i j :
  (j ≤ i)%nat → is_ok (Activation net x i) → is_ok (Activation net x j).
Proof.
  induction 1 as [|i Hle IH]; [done|].
  intros Hok. apply IH. by apply Activation_ok_S in Hok as [? _].
Qed.

Lemma PreActivation_ok_lt net x i j :
  (j < i)%nat → is_ok (Activation net x i) → is_ok (PreActivation net x j).
Proof.
  intros Hj Hok.
  apply (Activation_ok_le net x i (S j)) in Hok; [|lia].
  by apply Activation_ok_S in Hok as [_ ?].
Qed.

(** Where the recurrence first fails. *)
Lemma Activation_first_failure net x n :
  ¬ is_ok (Activation net x n) →
  ∃ j, (j < n)%nat ∧ is_ok (Activation net x j) ∧
       ¬ is_ok (PreActivation net x j).
Proof.
  induction n as [|n IH]; intros Hn; [by destruct Hn|].
  destruct (decide (is_ok (Activation net x n))) as [Hok|Hnok].
  - exists n. split; [lia|]. split; [done|].
    intros Hz. apply Hn. rewrite Activation_S.
    by destruct (PreActivation net x n).
  - destruct (IH Hnok) as (j & ? & ? & ?). exists j. split; [lia|done].
Qed.

End Forward.

(** ** The forward pass of the code follows the recurrence *)

Section ForwardCode.
Context {F : Type} `{Scalar F}.
Implicit Types (net : MLP F) (x : list F) (s : world F).

Lemma for_each_app {A S} (l1 l2 : list A) (body : A → S → M S) (st : S) s :
  for_each (l1 ++ l2) body st s =
  (for_each l1 body st ≫= for_each l2 body) s.
Proof.
  revert st s. induction l1 as [|x l1 IH]; intros st s; simpl; [done|].
  rewrite !bind_run. by destruct (body x st s) as [s' [st'| |]].
Qed.

Lemma for_each_cons {A S} (x : A) (l : list A) (body : A → S → M S) (st : S) s :
  for_each (x :: l) body st s = (body x st ≫= for_each l body) s.
Proof. reflexivity. Qed.

Lemma for_each_one {A S} (x : A) (body : A → S → M S) (st : S) s :
  for_each [x] body st s = body x st s.
Proof.
  rewrite for_each_cons, bind_run. by destruct (body x st s) as [s' [st'| |]].
Qed.

(** The loop bodies of [feed_forward] and [get_activations_and_zs]. *)
Definition forward_body : ndarray F * ndarray F → ndarray F → M (ndarray F) :=
  λ '(w, b) a,
    z ← try (affine w a b);
    act ← attr activation;
    mret (act z).

Definition trace_body
  : ndarray F * ndarray F →
    ndarray F * list (ndarray F) * list (ndarray F) →
    M (ndarray F * list (ndarray F) * list (ndarray F)) :=
  λ '(w, b) '(a, activs, zs),
    z ← try (affine w a b);
    let zs := zs ++ [z] in
    act ← attr activation;
    let a := act z in
    let activs := activs ++ [a] in
    mret (a, activs, zs).

(** The array used where an outcome is known to be [Ok]. *)
Definition no_array : ndarray F := np_zeros (0%nat, 0%nat).

Definition A_ net x (i : nat) : ndarray F := get_ok no_array (Activation net x i).
Definition Z_ net x (i : nat) : ndarray F := get_ok no_array (PreActivation net x i).

Lemma Activation_A_ net x i :
  is_ok (Activation net x i) → Activation net x i = Ok (A_ net x i).
Proof. apply is_ok_get_ok. Qed.

Lemma PreActivation_Z_ net x i :
  is_ok (PreActivation net x i) → PreActivation net x i = Ok (Z_ net x i).
Proof. apply is_ok_get_ok. Qed.

Lemma zip_slice_init (ws bs : list (ndarray F)) :
  length bs = length ws →
  zip (slice_init ws) (slice_init bs) = take (length ws - 1) (zip ws bs).
Proof. intros Hb. unfold slice_init. rewrite Hb. symmetry. apply zip_with_take. Qed.

Lemma affine_PreActivation net x i w b :
  weights net !! i = Some w → biases net !! i = Some b →
  is_ok (Activation net x i) →
  affine w (A_ net x i) b = PreActivation net x i.
Proof.
  intros Hw Hb Hok. unfold PreActivation.
  rewrite (Activation_A_ net x i Hok). simpl.
  unfold PreActivation_of, layer. by rewrite Hw, Hb.
Qed.

Lemma A_S_hidden net x i :
  (S i < length (weights net))%nat → is_ok (Activation net x (S i)) →
  A_ net x (S i) = activation net (Z_ net x i).
Proof.
  intros Hi Hok. unfold A_ at 1. rewrite Activation_S.
  apply Activation_ok_S in Hok as [_ Hz].
  rewrite (PreActivation_Z_ net x i Hz). simpl.
  by destruct (decide _); [lia|].
Qed.

Lemma A_S_output net x i :
  S i = length (weights net) → is_ok (PreActivation net x i) →
  A_ net x (S i) = output_activ net (Z_ net x i).
Proof.
  intros Hi Hz. unfold A_ at 1. rewrite Activation_S.
  rewrite (PreActivation_Z_ net x i Hz). simpl.
  by destruct (decide _).
Qed.

(** As long as the recurrence succeeds, the loop of
    [get_activations_and_zs] has recorded it. *)
Lemma trace_loop_ok s x n :
  length (biases (self s)) = length (weights (self s)) →
  (n < length (weights (self s)))%nat →
  is_ok (Activation (self s) x n) →
  for_each (take n (zip (weights (self s)) (biases (self s)))) trace_body
    (reshape_column x, [reshape_column x], []) s
  = (s, Ok (A_ (self s) x n, A_ (self s) x <$> seq 0 (S n),
            Z_ (self s) x <$> seq 0 n)).
Proof.
  intros Hb. induction n as [|n IH]; intros Hn Hok; [done|].
  destruct (lookup_lt_is_Some_2 (weights (self s)) n) as [w Hw]; [lia|].
  destruct (lookup_lt_is_Some_2 (biases (self s)) n) as [b Hbn]; [lia|].
  rewrite (take_S_r _ _ (w, b)) by (by apply lookup_zip_Some).
  rewrite for_each_app, bind_run, IH;
    [|lia|by apply Activation_ok_S in Hok as [? _]].
  rewrite for_each_one. unfold trace_body. cbv beta iota. rewrite bind_try.
  destruct (Activation_ok_S _ _ _ Hok) as [Ha Hz].
  rewrite (affine_PreActivation (self s) x n w b Hw Hbn Ha).
  rewrite (PreActivation_Z_ _ _ _ Hz). rewrite bind_attr.
  rewrite <- (A_S_hidden (self s) x n Hn Hok).
  by rewrite (seq_S (S n)), (seq_S n), !fmap_app.
Qed.

(** The loop stops with [ValueError] at the first layer whose affine map
    is ill-shaped. *)
Lemma trace_loop_fail s x n :
  length (biases (self s)) = length (weights (self s)) →
  (S n < length (weights (self s)))%nat →
  is_ok (Activation (self s) x n) →
  ¬ is_ok (PreActivation (self s) x n) →
  for_each (take (length (weights (self s)) - 1)
              (zip (weights (self s)) (biases (self s)))) trace_body
    (reshape_column x, [reshape_column x], []) s
  = (s, Raise ValueError).
Proof.
  intros Hb Hn Hok Hz.
  destruct (lookup_lt_is_Some_2 (weights (self s)) n) as [w Hw]; [lia|].
  destruct (lookup_lt_is_Some_2 (biases (self s)) n) as [b Hbn]; [lia|].
  assert (take (length (weights (self s)) - 1)
            (zip (weights (self s)) (biases (self s))) !! n = Some (w, b))
    as Hl.
  { rewrite lookup_take_lt by lia. by apply lookup_zip_Some. }
  rewrite <- (take_drop_middle _ _ _ Hl), take_take, Nat.min_l by lia.
  rewrite for_each_app, bind_run, trace_loop_ok by (done || lia).
  rewrite for_each_cons, bind_run. unfold trace_body at 1. cbv beta iota.
  rewrite bind_try.
  rewrite (affine_PreActivation (self s) x n w b Hw Hbn Hok).
  destruct (PreActivation_cases (self s) x n) as [?| ->]; done || lia.
Qed.

Lemma getitem_last_layer {A} (l : list A) :
  (0 < length l)%nat → getitem l (-1) = layer l (length l - 1).
Proof.
  intros Hl. unfold layer.
  destruct (lookup_lt_is_Some_2 l (length l - 1)) as [a Ha]; [lia|].
  rewrite Ha. simpl. by apply (getitem_neg l 1); [lia|].
Qed.

End ForwardCode.

Section ForwardCorrect.
Context {F : Type} `{Scalar F}.
Implicit Types (net : MLP F) (x : list F) (s : world F).

Lemma evaluateWithTrace_ok net x :
  is_ok (Activation net x (length (weights net))) →
  evaluateWithTrace net x =
  Ok (A_ net x <$> seq 0 (S (length (weights net))),
      Z_ net x <$> seq 0 (length (weights net))).
Proof.
  intros Hok. unfold evaluateWithTrace.
  rewrite (mapM_outcome_ok no_array (Activation net x)).
  2:{ intros i [_ Hi]%elem_of_seq.
      apply (Activation_ok_le net x (length (weights net))); [lia|done]. }
  rewrite (mapM_outcome_ok no_array (PreActivation net x)); [done|].
  intros i [_ Hi]%elem_of_seq.
  apply (PreActivation_ok_lt net x (length (weights net))); [lia|done].
Qed.

Lemma evaluateWithTrace_fail net x :
  length (biases net) = length (weights net) →
  ¬ is_ok (Activation net x (length (weights net))) →
  evaluateWithTrace net x = Raise ValueError.
Proof.
  intros Hb Hnok. unfold evaluateWithTrace.
  rewrite (mapM_outcome_raise ValueError (Activation net x)); [done| |].
  - intros i [_ Hi]%elem_of_seq. apply Activation_cases; [done|lia].
  - exists (length (weights net)). split; [apply elem_of_seq; lia|].
    by destruct (Activation_cases net x (length (weights net))).
Qed.

(** The last layer, as the code computes it after the loop. *)
Lemma last_layer_PreActivation net x :
  layered net →
  is_ok (Activation net x (length (weights net) - 1)) →
  (w ← getitem (weights net) (-1);
   d ← np_dot w (A_ net x (length (weights net) - 1));
   b ← getitem (biases net) (-1);
   np_add d b) = PreActivation net x (length (weights net) - 1).
Proof.
  intros [Hb HL] Hok. unfold PreActivation.
  rewrite (Activation_A_ net x _ Hok). simpl. unfold PreActivation_of.
  rewrite !getitem_last_layer, Hb by lia.
  unfold layer.
  destruct (lookup_lt_is_Some_2 (weights net) (length (weights net) - 1))
    as [w ->]; [lia|].
  destruct (lookup_lt_is_Some_2 (biases net) (length (weights net) - 1))
    as [b ->]; [lia|].
  simpl. by destruct (np_dot w _).
Qed.

(** The statements after the loop of [get_activations_and_zs]. *)
Lemma trace_tail_run s (a : ndarray F) (activs zs : list (ndarray F)) :
  (ws ← attr weights;
   w ← try (getitem ws (-1));
   d ← try (np_dot w a);
   bs ← attr biases;
   b ← try (getitem bs (-1));
   z ← try (np_add d b);
   let zs := zs ++ [z] in
   out ← attr output_activ;
   let a := out z in
   let activs := activs ++ [a] in
   mret (activs, zs)) s =
  (s, z ← (w ← getitem (weights (self s)) (-1);
           d ← np_dot w a;
           b ← getitem (biases (self s)) (-1);
           np_add d b);
      Ok (activs ++ [output_activ (self s) z], zs ++ [z])).
Proof.
  rewrite bind_attr, bind_try.
  destruct (getitem (weights (self s)) (-1)) as [w| |]; try done. simpl.
  rewrite bind_try. destruct (np_dot w a) as [d| |]; try done. simpl.
  rewrite bind_attr, bind_try.
  destruct (getitem (biases (self s)) (-1)) as [b| |]; try done. simpl.
  rewrite bind_try. by destruct (np_add d b) as [z| |].
Qed.

Lemma get_activations_and_zs_spec s x :
  layered (self s) →
  get_activations_and_zs x s = (s, evaluateWithTrace (self s) x).
Proof.
  intros Hnet. pose proof Hnet as [Hb HL].
  unfold get_activations_and_zs. rewrite !bind_attr.
  rewrite zip_slice_init by done.
  change (for_each ?l _ ?st) with (for_each l trace_body st).
  rewrite bind_run.
  destruct (decide (is_ok (Activation (self s) x (length (weights (self s)) - 1))))
    as [Hok|Hnok].
  - rewrite trace_loop_ok by (done || lia).
    rewrite trace_tail_run, last_layer_PreActivation by done.
    assert (S (length (weights (self s)) - 1) = length (weights (self s)))
      as HL' by lia.
    destruct (decide (is_ok (PreActivation (self s) x
                (length (weights (self s)) - 1)))) as [Hz|Hz].
    + rewrite (PreActivation_Z_ _ _ _ Hz), outcome_bind_ok.
      rewrite <- A_S_output by done. rewrite HL'.
      rewrite evaluateWithTrace_ok.
      2:{ rewrite <- HL' at 1. rewrite Activation_S.
          by destruct (PreActivation (self s) x _). }
      clear HL'. remember (length (weights (self s))) as L eqn:HeqL.
      destruct L as [|L]; [lia|]. replace (S L - 1)%nat with L by lia.
      by rewrite (seq_S (S L)), (seq_S L), !fmap_app.
    + destruct (PreActivation_cases (self s) x (length (weights (self s)) - 1))
        as [?| ->]; [done|lia|done|].
      rewrite evaluateWithTrace_fail; [done..|].
      rewrite <- HL'. by intros [_ ?]%Activation_ok_S.
  - destruct (Activation_first_failure _ _ _ Hnok) as (j & Hj & Hokj & Hzj).
    rewrite (trace_loop_fail s x j) by (done || lia).
    rewrite evaluateWithTrace_fail; [done..|].
    intros HokL. apply Hnok.
    apply (Activation_ok_le (self s) x (length (weights (self s)))); [lia|done].
Qed.

End ForwardCorrect.

Section FeedForward.
Context {F : Type} `{Scalar F}.
Implicit Types (net : MLP F) (x : list F) (s : world F).

Lemma forward_body_run (w b a : ndarray F) s :
  forward_body (w, b) a s =
  (s, z ← affine w a b; Ok (activation (self s) z)).
Proof.
  unfold forward_body. rewrite bind_try.
  by destruct (affine w a b) as [z| |].
Qed.

Lemma trace_body_run (w b a : ndarray F) (activs zs : list (ndarray F)) s :
  trace_body (w, b) (a, activs, zs) s =
  (s, z ← affine w a b;
      Ok (activation (self s) z, activs ++ [activation (self s) z], zs ++ [z])).
Proof.
  unfold trace_body. rewrite bind_try.
  by destruct (affine w a b) as [z| |].
Qed.

(** The loop of [feed_forward] is the loop of [get_activations_and_zs]
    without the recording. *)
Lemma forward_loop_trace (l : list (ndarray F * ndarray F))
    (a : ndarray F) (activs zs : list (ndarray F)) s :
  for_each l forward_body a s =
  let r := for_each l trace_body (a, activs, zs) s in
  (r.1, (λ st : ndarray F * list (ndarray F) * list (ndarray F), st.1.1) <$> r.2).
Proof.
  revert a activs zs s. induction l as [|[w b] l IH]; intros a activs zs s.
  - done.
  - rewrite !for_each_cons, !bind_run, forward_body_run, trace_body_run.
    destruct (affine w a b) as [z| |]; try done.
    rewrite !outcome_bind_ok. apply IH.
Qed.

Lemma forward_tail_run s (a : ndarray F) :
  (ws ← attr weights;
   w ← try (getitem ws (-1));
   d ← try (np_dot w a);
   bs ← attr biases;
   b ← try (getitem bs (-1));
   z ← try (np_add d b);
   out ← attr output_activ;
   mret (out z)) s =
  (s, z ← (w ← getitem (weights (self s)) (-1);
           d ← np_dot w a;
           b ← getitem (biases (self s)) (-1);
           np_add d b);
      Ok (output_activ (self s) z)).
Proof.
  rewrite bind_attr, bind_try.
  destruct (getitem (weights (self s)) (-1)) as [w| |]; try done. simpl.
  rewrite bind_try. destruct (np_dot w a) as [d| |]; try done. simpl.
  rewrite bind_attr, bind_try.
  destruct (getitem (biases (self s)) (-1)) as [b| |]; try done. simpl.
  rewrite bind_try. by destruct (np_add d b) as [z| |].
Qed.

(** [feed_forward] returns the last activation that
    [get_activations_and_zs] records, and fails when it fails. *)
Lemma feed_forward_trace s x :
  feed_forward x s =
  let r := get_activations_and_zs x s in
  (r.1, p ← r.2; getitem p.1 (-1)).
Proof.
  unfold feed_forward, get_activations_and_zs. rewrite !bind_attr.
  change (for_each ?l _ (reshape_column x))
    with (for_each l forward_body (reshape_column x)).
  change (for_each ?l _ (reshape_column x, ?b, ?c))
    with (for_each l trace_body (reshape_column x, b, c)).
  rewrite !bind_run.
  rewrite (forward_loop_trace _ _ [reshape_column x] []). simpl.
  destruct (for_each _ trace_body _ s) as [s' [[[a activs] zs]| |]];
    try done.
  simpl. rewrite forward_tail_run, trace_tail_run. simpl.
  match goal with
  | |- context [?r ≫= λ z, Ok (output_activ _ z)] => destruct r as [z| |]
  end; try done.
  simpl. by rewrite getitem_last.
Qed.

Lemma feed_forward_spec s x :
  layered (self s) → feed_forward x s = (s, evaluate (self s) x).
Proof.
  intros Hnet. rewrite feed_forward_trace, get_activations_and_zs_spec by done.
  simpl. unfold evaluate. f_equal.
  destruct (decide (is_ok (Activation (self s) x (length (weights (self s))))))
    as [Hok|Hnok].
  - rewrite evaluateWithTrace_ok by done. rewrite outcome_bind_ok.
    rewrite seq_S, fmap_app. simpl. rewrite getitem_last.
    by rewrite Activation_A_.
  - rewrite evaluateWithTrace_fail by (done || apply Hnet). simpl.
    by destruct (Activation_cases (self s) x (length (weights (self s))))
      as [?| ->]; [apply Hnet|lia| |].
Qed.

End FeedForward.

(** ** The backpropagation recurrence *)

Section Backward.
Context {F : Type} `{Scalar F}.
Implicit Types (net : MLP F) (x : list F) (t : ndarray F) (s : world F).

(** The recurrence as the specification writes it, counted down from the
    output layer: [ErrorSignal_down k] is the error signal δ of layer
    [L-1-k].
    - output layer: δ = lossDerivative(Activations[L], target) ⊙
      outputDerivative(PreActivations[L-1]);
    - layer [i] below it: δ = (Weight[i+1]ᵗ · δ) ⊙
      activationDerivative(PreActivations[i]). *)
Fixpoint ErrorSignal_down net x t (k : nat) : outcome (ndarray F) :=
  let L := length (weights net) in
  match k with
  | O =>
      a ← Activation net x L;
      z ← PreActivation net x (L - 1);
      np_mul (loss_derv net a t) (output_derv net z)
  | S k' =>
      let i := (L - 1 - S k')%nat in
      δ ← ErrorSignal_down net x t k';
      w ← layer (weights net) (i + 1);
      p ← np_dot (np_transpose w) δ;
      z ← PreActivation net x i;
      np_mul p (activation_derv net z)
  end.

Definition ErrorSignal net x t (i : nat) : outcome (ndarray F) :=
  ErrorSignal_down net x t (length (weights net) - 1 - i).

(** Bias-gradient[i] = δ; Weight-gradient[i] = δ · Activations[i]ᵗ. *)
Definition BiasGradient net x t (i : nat) : outcome (ndarray F) :=
  ErrorSignal net x t i.

Definition WeightGradient net x t (i : nat) : outcome (ndarray F) :=
  δ ← ErrorSignal net x t i;
  a ← Activation net x i;
  np_dot δ (np_transpose a).

Definition backpropagate net x t
  : outcome (list (ndarray F) * list (ndarray F)) :=
  wg ← mapM (WeightGradient net x t) (seq 0 (length (weights net)));
  bg ← mapM (BiasGradient net x t) (seq 0 (length (weights net)));
  Ok (wg, bg).

Lemma np_mul_cases (a b : ndarray F) :
  is_ok (np_mul a b) ∨ np_mul a b = Raise ValueError.
Proof. unfold np_mul, broadcast. repeat case_match; auto. Qed.

Lemma np_add_cases (a b : ndarray F) :
  is_ok (np_add a b) ∨ np_add a b = Raise ValueError.
Proof. unfold np_add, broadcast. repeat case_match; auto. Qed.

Lemma np_sub_cases (a b : ndarray F) :
  is_ok (np_sub a b) ∨ np_sub a b = Raise ValueError.
Proof. unfold np_sub, broadcast. repeat case_match; auto. Qed.

Lemma np_dot_cases (a b : ndarray F) :
  is_ok (np_dot a b) ∨ np_dot a b = Raise ValueError.
Proof. unfold np_dot. case_match; auto. Qed.

(** One step down the layers. *)
Lemma ErrorSignal_step net x t i :
  (S i < length (weights net))%nat →
  ErrorSignal net x t i =
  δ ← ErrorSignal net x t (S i);
  w ← layer (weights net) (i + 1);
  p ← np_dot (np_transpose w) δ;
  z ← PreActivation net x i;
  np_mul p (activation_derv net z).
Proof.
  intros Hi. unfold ErrorSignal.
  replace (length (weights net) - 1 - i)%nat
    with (S (length (weights net) - 1 - S i)) by lia.
  simpl.
  by replace (length (weights net) - 1 - S (length (weights net) - 1 - S i))%nat
    with i by lia.
Qed.

Lemma ErrorSignal_top net x t :
  ErrorSignal net x t (length (weights net) - 1) =
  a ← Activation net x (length (weights net));
  z ← PreActivation net x (length (weights net) - 1);
  np_mul (loss_derv net a t) (output_derv net z).
Proof.
  unfold ErrorSignal.
  by replace (length (weights net) - 1 - (length (weights net) - 1))%nat
    with 0%nat by lia.
Qed.

Lemma ErrorSignal_cases net x t i :
  layered net → (i < length (weights net))%nat →
  is_ok (ErrorSignal net x t i) ∨ ErrorSignal net x t i = Raise ValueError.
Proof.
  intros [Hb HL] Hi.
  remember (length (weights net) - 1 - i)%nat as k eqn:Hk.
  revert i Hi Hk. induction k as [|k IH]; intros i Hi Hk.
  - replace i with (length (weights net) - 1)%nat by lia.
    rewrite ErrorSignal_top.
    destruct (Activation_cases net x (length (weights net))) as [Ha| ->];
      [done|lia| |by right].
    destruct (Activation net x _) as [a| |]; try done. simpl.
    destruct (PreActivation_cases net x (length (weights net) - 1))
      as [Hz| ->]; [done|lia| |by right].
    destruct (PreActivation net x _) as [z| |]; try done. simpl.
    apply np_mul_cases.
  - rewrite ErrorSignal_step by lia.
    destruct (IH (S i)) as [Hd| ->]; [lia|lia| |by right].
    destruct (ErrorSignal net x t (S i)) as [d| |]; try done. simpl.
    unfold layer.
    destruct (lookup_lt_is_Some_2 (weights net) (i + 1)) as [w ->]; [lia|].
    simpl. destruct (np_dot_cases (np_transpose w) d) as [Hp| ->]; [|by right].
    destruct (np_dot _ d) as [p| |]; try done. simpl.
    destruct (PreActivation_cases net x i) as [Hz| ->]; [done|lia| |by right].
    destruct (PreActivation net x i) as [z| |]; try done. simpl.
    apply np_mul_cases.
Qed.

Lemma WeightGradient_cases net x t i :
  layered net → (i < length (weights net))%nat →
  is_ok (WeightGradient net x t i) ∨ WeightGradient net x t i = Raise ValueError.
Proof.
  intros Hnet Hi. unfold WeightGradient.
  destruct (ErrorSignal_cases net x t i) as [Hd| ->]; [done..| |by right].
  destruct (ErrorSignal net x t i) as [d| |]; try done. simpl.
  destruct (Activation_cases net x i) as [Ha| ->];
    [apply Hnet|lia| |by right].
  destruct (Activation net x i) as [a| |]; try done. simpl.
  apply np_dot_cases.
Qed.

Lemma WeightGradient_ok_ErrorSignal net x t i :
  is_ok (WeightGradient net x t i) → is_ok (ErrorSignal net x t i).
Proof. unfold WeightGradient. by destruct (ErrorSignal net x t i). Qed.

(** The values, where the recurrence is known to succeed. *)
Definition D_ net x t (i : nat) : ndarray F :=
  get_ok no_array (ErrorSignal net x t i).
Definition G_ net x t (i : nat) : ndarray F :=
  get_ok no_array (WeightGradient net x t i).

Lemma ErrorSignal_D_ net x t i :
  is_ok (ErrorSignal net x t i) → ErrorSignal net x t i = Ok (D_ net x t i).
Proof. apply is_ok_get_ok. Qed.

Lemma WeightGradient_G_ net x t i :
  is_ok (WeightGradient net x t i) → WeightGradient net x t i = Ok (G_ net x t i).
Proof. apply is_ok_get_ok. Qed.

Lemma backpropagate_ok net x t :
  (∀ i, (i < length (weights net))%nat → is_ok (WeightGradient net x t i)) →
  backpropagate net x t =
  Ok (G_ net x t <$> seq 0 (length (weights net)),
      D_ net x t <$> seq 0 (length (weights net))).
Proof.
  intros Hok. unfold backpropagate.
  rewrite (mapM_outcome_ok no_array (WeightGradient net x t)).
  2:{ intros i [_ Hi]%elem_of_seq. apply Hok. lia. }
  rewrite (mapM_outcome_ok no_array (BiasGradient net x t)); [done|].
  intros i [_ Hi]%elem_of_seq. apply WeightGradient_ok_ErrorSignal, Hok. lia.
Qed.

Lemma backpropagate_fail net x t i :
  layered net → (i < length (weights net))%nat →
  ¬ is_ok (WeightGradient net x t i) →
  backpropagate net x t = Raise ValueError.
Proof.
  intros Hnet Hi Hnok. unfold backpropagate.
  rewrite (mapM_outcome_raise ValueError (WeightGradient net x t)); [done| |].
  - intros j [_ Hj]%elem_of_seq. apply WeightGradient_cases; [done|lia].
  - exists i. split; [apply elem_of_seq; lia|].
    by destruct (WeightGradient_cases net x t i).
Qed.

End Backward.

(** ** [backward] follows the recurrence *)

(** Runs straight-line monadic code to the pure outcome it computes. *)
Ltac run_step :=
  first
    [ rewrite bind_attr
    | rewrite bind_ret
    | rewrite bind_try;
      match goal with
      | |- context [match ?r with Ok _ => _ | Raise _ => _ | OutOfFuel => _ end] =>
          destruct r; simpl; try done
      end ].

Section BackwardCode.
Context {F : Type} `{Scalar F}.
Implicit Types (net : MLP F) (x : list F) (t : ndarray F) (s : world F).

(** The loop body of [backward]; [activs] and [zs] are the lists returned
    by [get_activations_and_zs]. *)
Definition backward_body (activs zs : list (ndarray F))
  : Z → ndarray F * list (ndarray F) * list (ndarray F) →
    M (ndarray F * list (ndarray F) * list (ndarray F)) :=
  λ i '(loss_derv, bias_dervs, weight_dervs),
    ws ← attr weights;
    w_next ← try (getitem ws (i + 1));
    p ← try (np_dot (np_transpose w_next) loss_derv);
    ad ← attr activation_derv;
    z ← try (getitem zs i);
    loss_derv ← try (np_mul p (ad z));
    bias_dervs ← try (setitem bias_dervs i loss_derv);
    a_i ← try (getitem activs i);
    wd ← try (np_dot loss_derv (np_transpose a_i));
    weight_dervs ← try (setitem weight_dervs i wd);
    mret (loss_derv, bias_dervs, weight_dervs).

Lemma backward_body_run activs zs (i : Z) (d : ndarray F)
    (bd wd : list (ndarray F)) s :
  backward_body activs zs i (d, bd, wd) s =
  (s, w ← getitem (weights (self s)) (i + 1);
      p ← np_dot (np_transpose w) d;
      z ← getitem zs i;
      d' ← np_mul p (activation_derv (self s) z);
      bd' ← setitem bd i d';
      a ← getitem activs i;
      g ← np_dot d' (np_transpose a);
      wd' ← setitem wd i g;
      Ok (d', bd', wd')).
Proof. unfold backward_body. by repeat run_step. Qed.

(** Storing the gradient of layer [k] in front of those of the layers
    above it. *)
Lemma insert_take_app {A} (z l : list A) (k : nat) (a : A) :
  (k < length z)%nat →
  <[k:=a]> (take (S k) z ++ l) = take k z ++ a :: l.
Proof.
  intros Hk. destruct (lookup_lt_is_Some_2 z k Hk) as [zk Hzk].
  rewrite (take_S_r _ _ _ Hzk), <- app_assoc.
  rewrite insert_app_r_alt by (rewrite length_take; lia).
  rewrite length_take, Nat.min_l, Nat.sub_diag by lia. done.
Qed.

Lemma insert_last_take {A} (z : list A) (a : A) :
  (0 < length z)%nat →
  <[(length z - 1)%nat:=a]> z = take (length z - 1) z ++ [a].
Proof.
  intros Hz. rewrite <- (insert_take_app z [] (length z - 1) a) by lia.
  rewrite app_nil_r, take_ge; [done|lia].
Qed.

Lemma seq_cons_lt (k n : nat) :
  (k < n)%nat → seq k (n - k) = k :: seq (S k) (n - S k).
Proof. intros Hk. by replace (n - k)%nat with (S (n - S k)) by lia. Qed.

(** The loop of [backward], entered once the layers from [k] upwards are
    done: it finishes the recurrence, or stops with [ValueError] where the
    recurrence does. *)
Lemma backward_loop s x t (zb zw : list (ndarray F)) (k : nat) :
  let net := self s in
  let L := length (weights net) in
  layered net → (k < L)%nat → length zb = L → length zw = L →
  is_ok (Activation net x L) →
  (∀ j, (k ≤ j < L)%nat → is_ok (WeightGradient net x t j)) →
  for_each (range_down (Z.of_nat k - 1) (-1))
    (backward_body (A_ net x <$> seq 0 (S L)) (Z_ net x <$> seq 0 L))
    (D_ net x t k,
     take k zb ++ (D_ net x t <$> seq k (L - k)),
     take k zw ++ (G_ net x t <$> seq k (L - k))) s
  = (s, p ← backpropagate net x t; Ok (D_ net x t 0, p.2, p.1)).
Proof.
  intros net L Hnet. pose proof Hnet as [Hlen HL].
  induction k as [|k IH]; intros Hk Hzb Hzw HokL Hdone.
  - simpl. rewrite backpropagate_ok.
    2:{ intros i Hi. apply Hdone. lia. }
    by rewrite !Nat.sub_0_r.
  - replace (Z.of_nat (S k) - 1) with (Z.of_nat k) by lia.
    rewrite range_down_S, for_each_cons, bind_run, backward_body_run.
    fold net.
    (* Weight[k+1], PreActivations[k] and Activations[k] are there *)
    destruct (lookup_lt_is_Some_2 (weights net) (k + 1)) as [w Hw]; [lia|].
    replace (Z.of_nat k + 1) with (Z.of_nat (k + 1)) by lia.
    rewrite (getitem_nat _ _ _ Hw), outcome_bind_ok.
    rewrite (getitem_nat (Z_ net x <$> _) k (Z_ net x k)).
    2:{ rewrite list_lookup_fmap, lookup_seq_lt by lia. done. }
    rewrite (getitem_nat (A_ net x <$> _) k (A_ net x k)).
    2:{ rewrite list_lookup_fmap, lookup_seq_lt by lia. done. }
    assert (is_ok (ErrorSignal net x t (S k))) as HdS.
    { apply WeightGradient_ok_ErrorSignal, Hdone. lia. }
    assert (is_ok (PreActivation net x k)) as Hzk.
    { apply (PreActivation_ok_lt net x L); [lia|done]. }
    assert (is_ok (Activation net x k)) as Hak.
    { apply (Activation_ok_le net x L); [lia|done]. }
    pose proof (ErrorSignal_step net x t k Hk) as Hstep.
    rewrite (ErrorSignal_D_ _ _ _ _ HdS), outcome_bind_ok in Hstep.
    unfold layer in Hstep. rewrite Hw in Hstep. simpl in Hstep.
    rewrite (PreActivation_Z_ _ _ _ Hzk) in Hstep.
    destruct (np_dot_cases (np_transpose w) (D_ net x t (S k))) as [Hp|Hp].
    2:{ rewrite Hp in Hstep |- *.
        rewrite (backpropagate_fail net x t k); [done|done|lia|].
        intros ?%WeightGradient_ok_ErrorSignal. by rewrite Hstep in *. }
    destruct (np_dot (np_transpose w) (D_ net x t (S k))) as [p| |];
      try done.
    cbn [mbind outcome_bind] in Hstep |- *. rewrite <- Hstep.
    destruct (ErrorSignal_cases net x t k) as [Hdk|Hdk]; [done|lia| |].
    2:{ rewrite Hdk. rewrite (backpropagate_fail net x t k); [done|done|lia|].
        intros ?%WeightGradient_ok_ErrorSignal. by rewrite Hdk in *. }
    rewrite (ErrorSignal_D_ _ _ _ _ Hdk). cbn [mbind outcome_bind].
    rewrite setitem_nat.
    2:{ rewrite length_app, length_take, length_fmap, length_seq. lia. }
    cbn [mbind outcome_bind].
    rewrite insert_take_app by lia.
    assert (WeightGradient net x t k =
            np_dot (D_ net x t k) (np_transpose (A_ net x k))) as HG.
    { unfold WeightGradient.
      by rewrite (ErrorSignal_D_ _ _ _ _ Hdk), (Activation_A_ _ _ _ Hak). }
    rewrite <- HG.
    destruct (WeightGradient_cases net x t k) as [Hgk|Hgk]; [done|lia| |].
    2:{ rewrite Hgk. rewrite (backpropagate_fail net x t k); [done|done|lia|].
        intros Hc. by rewrite Hgk in Hc. }
    rewrite (WeightGradient_G_ _ _ _ _ Hgk). cbn [mbind outcome_bind].
    rewrite setitem_nat.
    2:{ rewrite length_app, length_take, length_fmap, length_seq. lia. }
    cbn [mbind outcome_bind].
    rewrite insert_take_app by lia.
    rewrite (seq_cons_lt k L) in IH by lia. rewrite !fmap_cons in IH.
    apply IH; [lia|done|done|done|].
    intros j Hj. destruct (decide (j = k)) as [->|]; [done|].
    apply Hdone. lia.
Qed.

End BackwardCode.

Section BackwardCorrect.
Context {F : Type} `{Scalar F}.
Implicit Types (net : MLP F) (x : list F) (t : ndarray F) (s : world F).

Lemma getitem_fmap_seq_neg {A} (f : nat → A) (n k : nat) :
  (0 < k ≤ n)%nat → getitem (f <$> seq 0 n) (- Z.of_nat k) = Ok (f (n - k)%nat).
Proof.
  intros Hk. apply getitem_neg; rewrite length_fmap, length_seq; [done|].
  rewrite list_lookup_fmap, lookup_seq_lt by lia. done.
Qed.

(** The statements of [backward] after the forward pass. *)
Definition backward_rest (ws bs activs zs : list (ndarray F)) (t : ndarray F)
  : M (list (ndarray F) * list (ndarray F)) :=
  let weight_dervs := (λ w, np_zeros (shape w)) <$> ws in
  let bias_dervs := (λ b, np_zeros (shape b)) <$> bs in
  ld ← attr loss_derv;
  a_last ← try (getitem activs (-1));
  od ← attr output_derv;
  z_last ← try (getitem zs (-1));
  loss_derv ← try (np_mul (ld a_last t) (od z_last));
  bias_dervs ← try (setitem bias_dervs (-1) loss_derv);
  a_prev ← try (getitem activs (-2));
  wd ← try (np_dot loss_derv (np_transpose a_prev));
  weight_dervs ← try (setitem weight_dervs (-1) wd);
  ws ← attr weights;
  '(loss_derv, bias_dervs, weight_dervs) ←
    for_each (range_down (Z.of_nat (length ws) - 2) (-1))
      (backward_body activs zs) (loss_derv, bias_dervs, weight_dervs);
  mret (weight_dervs, bias_dervs).

Lemma backward_unfold x t s :
  backward x t s =
  (p ← get_activations_and_zs x;
   backward_rest (weights (self s)) (biases (self s)) p.1 p.2 t) s.
Proof.
  unfold backward. rewrite !bind_attr, !bind_run.
  by destruct (get_activations_and_zs x s) as [s' [[activs zs]| |]].
Qed.

Lemma backward_rest_spec s x t :
  let net := self s in
  let L := length (weights net) in
  layered net → is_ok (Activation net x L) →
  backward_rest (weights net) (biases net)
    (A_ net x <$> seq 0 (S L)) (Z_ net x <$> seq 0 L) t s
  = (s, backpropagate net x t).
Proof.
  intros net L Hnet HokL. pose proof Hnet as [Hlen HL].
  assert (is_ok (PreActivation net x (L - 1))) as Hz.
  { apply (PreActivation_ok_lt net x L); [lia|done]. }
  assert (is_ok (Activation net x (L - 1))) as Ha.
  { apply (Activation_ok_le net x L); [lia|done]. }
  pose proof (ErrorSignal_top net x t) as Htop. fold L in Htop.
  rewrite (Activation_A_ _ _ _ HokL), (PreActivation_Z_ _ _ _ Hz) in Htop.
  cbn [mbind outcome_bind] in Htop.
  unfold backward_rest. rewrite bind_attr.
  rewrite (getitem_fmap_seq_neg _ (S L) 1) by lia.
  rewrite bind_try; cbv beta iota. rewrite bind_attr.
  rewrite (getitem_fmap_seq_neg _ L 1) by lia.
  rewrite bind_try; cbv beta iota. fold net.
  replace (S L - 1)%nat with L by lia. rewrite <- Htop.
  destruct (ErrorSignal_cases net x t (L - 1)) as [Hd|Hd]; [done|lia| |].
  2:{ rewrite bind_try, Hd.
      rewrite (backpropagate_fail net x t (L - 1)); [done|done|lia|].
      intros Hc%WeightGradient_ok_ErrorSignal. by rewrite Hd in Hc. }
  rewrite (ErrorSignal_D_ _ _ _ _ Hd), bind_try; cbv beta iota.
  rewrite (setitem_neg _ 1) by (rewrite length_fmap; lia).
  rewrite bind_try; cbv beta iota.
  rewrite (getitem_fmap_seq_neg _ (S L) 2) by lia.
  replace (S L - 2)%nat with (L - 1)%nat by lia.
  assert (WeightGradient net x t (L - 1) =
          np_dot (D_ net x t (L - 1)) (np_transpose (A_ net x (L - 1)))) as HG.
  { unfold WeightGradient.
    by rewrite (ErrorSignal_D_ _ _ _ _ Hd), (Activation_A_ _ _ _ Ha). }
  rewrite bind_try; cbv beta iota. rewrite bind_try, <- HG.
  destruct (WeightGradient_cases net x t (L - 1)) as [Hg|Hg]; [done|lia| |].
  2:{ rewrite Hg. rewrite (backpropagate_fail net x t (L - 1)); [done|done|lia|].
      intros Hc. by rewrite Hg in Hc. }
  rewrite (WeightGradient_G_ _ _ _ _ Hg).
  rewrite (setitem_neg _ 1) by (rewrite length_fmap; lia).
  rewrite bind_try; cbv beta iota.
  rewrite bind_attr, bind_run. fold net L.
  rewrite !insert_last_take by (rewrite length_fmap; lia).
  rewrite !length_fmap, Hlen. fold L.
  replace (Z.of_nat L - 2) with (Z.of_nat (L - 1) - 1) by lia.
  pose proof (backward_loop s x t
    ((λ b, np_zeros (shape b)) <$> biases net)
    ((λ w, np_zeros (shape w)) <$> weights net) (L - 1)) as Hloop.
  cbv zeta in Hloop. fold net L in Hloop.
  replace (L - (L - 1))%nat with 1%nat in Hloop by lia.
  change (D_ net x t <$> seq (L - 1) 1) with [D_ net x t (L - 1)] in Hloop.
  change (G_ net x t <$> seq (L - 1) 1) with [G_ net x t (L - 1)] in Hloop.
  rewrite Hloop; clear Hloop.
  - by destruct (backpropagate net x t) as [[wg bg]| |].
  - done.
  - lia.
  - by rewrite length_fmap.
  - by rewrite length_fmap.
  - done.
  - intros j Hj. by replace j with (L - 1)%nat by lia.
Qed.

Lemma backward_spec s x t :
  layered (self s) → backward x t s = (s, backpropagate (self s) x t).
Proof.
  intros Hnet. rewrite backward_unfold, bind_run.
  rewrite get_activations_and_zs_spec by done.
  destruct (decide (is_ok (Activation (self s) x (length (weights (self s))))))
    as [Hok|Hnok].
  - rewrite evaluateWithTrace_ok by done.
    by apply backward_rest_spec.
  - rewrite evaluateWithTrace_fail by (done || apply Hnet).
    rewrite (backpropagate_fail (self s) x t (length (weights (self s)) - 1));
      [done|done|destruct Hnet; lia|].
    intros Hc%WeightGradient_ok_ErrorSignal. apply Hnok.
    rewrite ErrorSignal_top in Hc.
    by destruct (Activation (self s) x (length (weights (self s)))).
Qed.

End BackwardCorrect.

(** ** The recurrences, entry by entry *)

Section Entries.
Context {F : Type} `{Scalar F}.
Implicit Types (net : MLP F) (x : list F) (t : ndarray F).

(** What the recorded lists of a successful forward pass contain. *)
Definition trace_entries net x (activs zs : list (ndarray F)) : Prop :=
  let L := length (weights net) in
  length activs = S L ∧ length zs = L ∧
  activs !! 0%nat = Some (reshape_column x) ∧
  ∀ i a z w b,
    activs !! i = Some a → zs !! i = Some z →
    weights net !! i = Some w → biases net !! i = Some b →
    (d ← np_dot w a; np_add d b) = Ok z ∧
    activs !! S i =
      Some (if decide (S i = L) then output_activ net z else activation net z).

Lemma evaluateWithTrace_lookup net x activs zs :
  evaluateWithTrace net x = Ok (activs, zs) →
  length activs = S (length (weights net)) ∧ length zs = length (weights net) ∧
  (∀ i a, activs !! i = Some a → Activation net x i = Ok a) ∧
  (∀ i z, zs !! i = Some z → PreActivation net x i = Ok z).
Proof.
  unfold evaluateWithTrace.
  destruct (mapM (Activation net x) _) as [activs'| |] eqn:Ha; try done.
  destruct (mapM (PreActivation net x) _) as [zs'| |] eqn:Hz; try done.
  intros [= <- <-].
  pose proof (mapM_outcome_length _ _ _ Ha) as Hla.
  pose proof (mapM_outcome_length _ _ _ Hz) as Hlz.
  rewrite length_seq in Hla, Hlz. repeat split; try done.
  - intros i a Hi.
    destruct (mapM_outcome_lookup _ _ _ i i Ha) as (a' & Ha' & Hai).
    { apply lookup_seq_lt. apply lookup_lt_Some in Hi. lia. }
    congruence.
  - intros i z Hi.
    destruct (mapM_outcome_lookup _ _ _ i i Hz) as (z' & Hz' & Hzi).
    { apply lookup_seq_lt. apply lookup_lt_Some in Hi. lia. }
    congruence.
Qed.

Lemma evaluateWithTrace_entries net x activs zs :
  evaluateWithTrace net x = Ok (activs, zs) → trace_entries net x activs zs.
Proof.
  intros (Hla & Hlz & Ha & Hz)%evaluateWithTrace_lookup.
  split; [done|]. split; [done|]. split.
  - destruct (lookup_lt_is_Some_2 activs 0) as [a0 Ha0]; [lia|].
    rewrite Ha0. f_equal. apply Ha in Ha0. by injection Ha0.
  - intros i a z w b Hia Hiz Hiw Hib. split.
    + pose proof (Hz _ _ Hiz) as Hzi. unfold PreActivation in Hzi.
      rewrite (Ha _ _ Hia) in Hzi. simpl in Hzi.
      unfold PreActivation_of, layer in Hzi. by rewrite Hiw, Hib in Hzi.
    + destruct (lookup_lt_is_Some_2 activs (S i)) as [a' Ha'].
      { apply lookup_lt_Some in Hiz. lia. }
      rewrite Ha'. f_equal. apply Ha in Ha'.
      rewrite Activation_S, (Hz _ _ Hiz) in Ha'. simpl in Ha'.
      by injection Ha'.
Qed.

(** What the gradients of a successful backward pass contain, in terms of
    the recorded forward pass. *)
Definition gradient_entries net x t (wg bg : list (ndarray F)) : Prop :=
  let L := length (weights net) in
  ∃ activs zs,
    evaluateWithTrace net x = Ok (activs, zs) ∧
    length wg = L ∧ length bg = L ∧
    (* the output layer *)
    (∀ a z, activs !! L = Some a → zs !! (L - 1)%nat = Some z →
       ∃ δ, np_mul (loss_derv net a t) (output_derv net z) = Ok δ ∧
            bg !! (L - 1)%nat = Some δ) ∧
    (* layer i from the layer above it *)
    (∀ i δ' w z,
       (S i < L)%nat → bg !! S i = Some δ' →
       weights net !! S i = Some w → zs !! i = Some z →
       ∃ p δ, np_dot (np_transpose w) δ' = Ok p ∧
              np_mul p (activation_derv net z) = Ok δ ∧
              bg !! i = Some δ) ∧
    (* the weight gradient of every layer *)
    (∀ i δ a,
       bg !! i = Some δ → activs !! i = Some a →
       ∃ g, np_dot δ (np_transpose a) = Ok g ∧ wg !! i = Some g).

Lemma backpropagate_lookup net x t wg bg :
  backpropagate net x t = Ok (wg, bg) →
  length wg = length (weights net) ∧ length bg = length (weights net) ∧
  (∀ i g, wg !! i = Some g → WeightGradient net x t i = Ok g) ∧
  (∀ i δ, bg !! i = Some δ → ErrorSignal net x t i = Ok δ).
Proof.
  unfold backpropagate.
  destruct (mapM (WeightGradient net x t) _) as [wg'| |] eqn:Hw; try done.
  destruct (mapM (BiasGradient net x t) _) as [bg'| |] eqn:Hb; try done.
  intros [= <- <-].
  pose proof (mapM_outcome_length _ _ _ Hw) as Hlw.
  pose proof (mapM_outcome_length _ _ _ Hb) as Hlb.
  rewrite length_seq in Hlw, Hlb. repeat split; try done.
  - intros i g Hi.
    destruct (mapM_outcome_lookup _ _ _ i i Hw) as (g' & Hg' & Hgi).
    { apply lookup_seq_lt. apply lookup_lt_Some in Hi. lia. }
    congruence.
  - intros i d Hi.
    destruct (mapM_outcome_lookup _ _ _ i i Hb) as (d' & Hd' & Hdi).
    { apply lookup_seq_lt. apply lookup_lt_Some in Hi. lia. }
    unfold BiasGradient in Hdi. congruence.
Qed.

Lemma backpropagate_entries net x t wg bg :
  (0 < length (weights net))%nat →
  backpropagate net x t = Ok (wg, bg) → gradient_entries net x t wg bg.
Proof.
  intros HL (Hlw & Hlb & Hw & Hb)%backpropagate_lookup.
  pose proof (ErrorSignal_top net x t) as Etop.
  set (L := length (weights net)) in *.
  destruct (lookup_lt_is_Some_2 bg (L - 1)) as [dtop Hdtop]; [lia|].
  pose proof (Hb _ _ Hdtop) as Htop. rewrite Etop in Htop.
  destruct (Activation net x L) as [aL| |] eqn:HaL; try done.
  assert (is_ok (Activation net x L)) as HokL by by rewrite HaL.
  exists (A_ net x <$> seq 0 (S L)), (Z_ net x <$> seq 0 L).
  pose proof (evaluateWithTrace_ok net x HokL) as Htrace.
  split; [done|].
  destruct (evaluateWithTrace_lookup _ _ _ _ Htrace) as (_ & _ & Ha & Hz).
  repeat split; try done.
  - intros a z Hia Hiz. exists dtop. split; [|done].
    apply Ha in Hia. apply Hz in Hiz. unfold L in *.
    rewrite HaL in Hia. injection Hia as <-.
    rewrite Hiz in Htop. by simpl in Htop.
  - intros i d' w z Hi Hd' Hwi Hzi.
    destruct (lookup_lt_is_Some_2 bg i) as [d Hd]; [lia|].
    pose proof (Hb _ _ Hd) as Hstep.
    rewrite ErrorSignal_step, (Hb _ _ Hd') in Hstep by done.
    simpl in Hstep. unfold layer in Hstep.
    replace (i + 1)%nat with (S i) in Hstep by lia.
    rewrite Hwi in Hstep. simpl in Hstep.
    destruct (np_dot (np_transpose w) d') as [p| |]; try done.
    simpl in Hstep. rewrite (Hz _ _ Hzi) in Hstep. simpl in Hstep.
    by exists p, d.
  - intros i d a Hd Hia.
    destruct (lookup_lt_is_Some_2 wg i) as [g Hg].
    { apply lookup_lt_Some in Hd. lia. }
    exists g. split; [|done].
    pose proof (Hw _ _ Hg) as HG. unfold WeightGradient in HG.
    by rewrite (Hb _ _ Hd), (Ha _ _ Hia) in HG.
Qed.

End Entries.

(** ** Shapes and entries of arrays *)

Section NumpyFacts.
Context {F : Type} `{Scalar F}.
Implicit Types (a b : ndarray F).

Lemma shape_build r c (f : nat → nat → F) : shape (build r c f) = (r, c).
Proof. reflexivity. Qed.

Lemma item_build r c (f : nat → nat → F) i j :
  (i < r)%nat → (j < c)%nat → item (build r c f) i j = f i j.
Proof.
  intros Hi Hj. unfold item, build. simpl.
  rewrite list_lookup_fmap, lookup_seq_lt by done. simpl.
  rewrite list_lookup_fmap, lookup_seq_lt by done. done.
Qed.

Lemma build_ext r c (f g : nat → nat → F) :
  (∀ i j, (i < r)%nat → (j < c)%nat → f i j = g i j) →
  build r c f = build r c g.
Proof.
  intros Hfg. unfold build. f_equal.
  apply list_fmap_ext. intros ki i [-> Hi]%lookup_seq.
  apply list_fmap_ext. intros kj j [-> Hj]%lookup_seq.
  by apply Hfg.
Qed.

Lemma shape_nrows_ncols a : shape a = (nrows a, ncols a).
Proof. unfold nrows, ncols. by destruct (shape a). Qed.

Lemma shape_np_zeros (sh : nat * nat) : shape (np_zeros sh) = sh.
Proof. by destruct sh. Qed.

Lemma shape_reshape_column (x : list F) :
  shape (reshape_column x) = (length x, 1%nat).
Proof. reflexivity. Qed.

Lemma shape_np_transpose a : shape (np_transpose a) = (ncols a, nrows a).
Proof. reflexivity. Qed.

Lemma shape_np_scale (r : F) a : shape (np_scale r a) = shape a.
Proof. by rewrite (shape_nrows_ncols a). Qed.

Lemma shape_np_div_int a (n : Z) : shape (np_div_int a n) = shape a.
Proof. by rewrite (shape_nrows_ncols a). Qed.

Lemma np_dot_shape a b c :
  np_dot a b = Ok c → ncols a = nrows b ∧ shape c = (nrows a, ncols b).
Proof. unfold np_dot. destruct (decide _); [|done]. by intros [= <-]. Qed.

Lemma np_dot_ok a b :
  ncols a = nrows b → ∃ c, np_dot a b = Ok c ∧ shape c = (nrows a, ncols b).
Proof. intros Hab. unfold np_dot. rewrite decide_True by done. eauto. Qed.

Lemma broadcast_dim_same (m : nat) : broadcast_dim m m = Some m.
Proof. unfold broadcast_dim. by rewrite decide_True. Qed.

Lemma broadcast_idx_lt (m i : nat) : (i < m)%nat → broadcast_idx m i = i.
Proof. unfold broadcast_idx. destruct (decide _); lia. Qed.

Lemma broadcast_shape op a b c :
  broadcast op a b = Ok c →
  broadcast_dim (nrows a) (nrows b) = Some (nrows c) ∧
  broadcast_dim (ncols a) (ncols b) = Some (ncols c).
Proof.
  unfold broadcast.
  destruct (broadcast_dim (nrows a) _) as [r|]; [|done].
  destruct (broadcast_dim (ncols a) _) as [k|]; [|done].
  by intros [= <-].
Qed.

Lemma broadcast_item op a b c i j :
  broadcast op a b = Ok c → (i < nrows c)%nat → (j < ncols c)%nat →
  item c i j =
  op (item a (broadcast_idx (nrows a) i) (broadcast_idx (ncols a) j))
     (item b (broadcast_idx (nrows b) i) (broadcast_idx (ncols b) j)).
Proof.
  unfold broadcast.
  destruct (broadcast_dim (nrows a) _) as [r|]; [|done].
  destruct (broadcast_dim (ncols a) _) as [k|]; [|done].
  intros [= <-] Hi Hj. by rewrite item_build.
Qed.

(** Arrays of one shape combine without broadcasting. *)
Lemma broadcast_same_shape op a b :
  shape a = shape b →
  ∃ c, broadcast op a b = Ok c ∧ shape c = shape a.
Proof.
  intros Hab. unfold broadcast, nrows, ncols. rewrite Hab.
  rewrite !broadcast_dim_same. eexists. split; [done|].
  simpl. by destruct (shape b).
Qed.

(** An array built by an operation is determined by its shape and its
    entries. *)
Definition built a : Prop :=
  a = build (nrows a) (ncols a) (item a).

Lemma built_build r c (f : nat → nat → F) : built (build r c f).
Proof.
  unfold built. simpl. apply build_ext. intros i j Hi Hj.
  by rewrite item_build.
Qed.

Lemma broadcast_built op a b c : broadcast op a b = Ok c → built c.
Proof.
  unfold broadcast. repeat case_match; try done.
  intros [= <-]. apply built_build.
Qed.

Lemma built_ext a b :
  built a → built b → shape a = shape b →
  (∀ i j, (i < nrows a)%nat → (j < ncols a)%nat → item a i j = item b i j) →
  a = b.
Proof.
  intros Ha Hb Hs Hij. rewrite Ha, Hb. unfold nrows, ncols. rewrite <- Hs.
  by apply build_ext.
Qed.

End NumpyFacts.

(** ** One mini-batch *)

Section Batch.
Context {F : Type} `{Scalar F}.
Implicit Types (net : MLP F) (s : world F) (batch : DataFrame F).

(** The examples of a batch: each row without its label, paired with the
    encoded label. *)
Definition batch_examples net batch (class_column : string)
  : outcome (list (list F * ndarray F)) :=
  classes ← df_getitem batch class_column;
  inputs ← to_numpy <$> df_drop_columns batch class_column;
  Ok (zip inputs (target_fit net <$> classes)).

(** The accumulators start at zero, shaped like Weight and Bias. *)
Definition ZeroGradients net : list (ndarray F) * list (ndarray F) :=
  ((λ w, np_zeros (shape w)) <$> weights net,
   (λ b, np_zeros (shape b)) <$> biases net).

(** The two list comprehensions of the loop body, which add the gradients
    of one example to the accumulators. *)
Definition AddGradients (acc g : list (ndarray F) * list (ndarray F))
  : outcome (list (ndarray F) * list (ndarray F)) :=
  wacc ← add_layers acc.1 g.1;
  bacc ← add_layers acc.2 g.2;
  Ok (wacc, bacc).

(** The loop of [process_batch] over the examples as a function of the
    accumulators, every gradient taken at the same [net]. *)
Fixpoint GradientSum net (examples : list (list F * ndarray F))
    (acc : list (ndarray F) * list (ndarray F))
  : outcome (list (ndarray F) * list (ndarray F)) :=
  match examples with
  | [] => Ok acc
  | (x, t) :: rest =>
      g ← backpropagate net x t;
      acc' ← AddGradients acc g;
      GradientSum net rest acc'
  end.

(** The loop body of [process_batch]. *)
Definition batch_body (inputs : list (list F)) (classes : list (ndarray F))
  : Z → list (ndarray F) * list (ndarray F) →
    M (list (ndarray F) * list (ndarray F)) :=
  λ i '(weight_gradient, bias_gradient),
    x ← try (getitem inputs i);
    t ← try (getitem classes i);
    '(weights_dervs, biases_dervs) ← backward x t;
    weight_gradient ← try (add_layers weight_gradient weights_dervs);
    bias_gradient ← try (add_layers bias_gradient biases_dervs);
    mret (weight_gradient, bias_gradient).

Lemma batch_body_run inputs classes (i : nat) x t acc s :
  layered (self s) →
  inputs !! i = Some x → classes !! i = Some t →
  batch_body inputs classes (Z.of_nat i) acc s =
  (s, g ← backpropagate (self s) x t; AddGradients acc g).
Proof.
  intros Hnet Hx Ht. destruct acc as [wacc bacc]. unfold batch_body.
  rewrite (getitem_nat _ _ _ Hx), (getitem_nat _ _ _ Ht).
  rewrite !bind_try; cbv beta iota.
  rewrite bind_run, backward_spec by done.
  destruct (backpropagate (self s) x t) as [[wd bd]| |]; try done.
  unfold AddGradients. simpl.
  rewrite bind_try. destruct (add_layers wacc wd); try done.
  rewrite bind_try. by destruct (add_layers bacc bd).
Qed.

Lemma seqZ_succ (m : Z) (n : nat) :
  seqZ m (Z.of_nat (S n)) = m :: seqZ (m + 1) (Z.of_nat n).
Proof.
  rewrite seqZ_cons by lia. f_equal. f_equal; lia.
Qed.

Lemma batch_loop s inputs classes (j : nat) acc :
  layered (self s) → length inputs = length classes →
  (j ≤ length classes)%nat →
  for_each (seqZ (Z.of_nat j) (Z.of_nat (length classes - j)))
    (batch_body inputs classes) acc s
  = (s, GradientSum (self s) (drop j (zip inputs classes)) acc).
Proof.
  intros Hnet Hlen.
  remember (length classes - j)%nat as m eqn:Hm.
  revert j acc Hm. induction m as [|m IH]; intros j acc Hm Hj.
  - rewrite drop_ge; [done|]. rewrite length_zip_with. lia.
  - destruct (lookup_lt_is_Some_2 inputs j) as [x Hx]; [lia|].
    destruct (lookup_lt_is_Some_2 classes j) as [t Ht]; [lia|].
    rewrite seqZ_succ, for_each_cons, bind_run.
    rewrite (batch_body_run _ _ _ x t) by done.
    rewrite (drop_S _ (x, t) j) by (by apply lookup_zip_Some).
    simpl. destruct (backpropagate (self s) x t) as [g| |]; try done.
    simpl. destruct (AddGradients acc g) as [acc'| |]; try done.
    simpl. replace (Z.of_nat j + 1) with (Z.of_nat (S j)) by lia.
    apply IH; lia.
Qed.

End Batch.

(** ** The update of a mini-batch never fails half-way *)

Section Absorb.
Context {F : Type} `{Scalar F}.
Implicit Types (net : MLP F) (a g p : ndarray F).

(** A parameter of shape [base] can always be combined with an accumulator
    of shape [sh] that started as zeros of shape [base]: in each dimension
    the two agree, or the parameter has size 1. *)
Definition absorbs (base sh : nat * nat) : Prop :=
  (base.1 = sh.1 ∨ base.1 = 1%nat) ∧ (base.2 = sh.2 ∨ base.2 = 1%nat).

Lemma absorbs_refl (sh : nat * nat) : absorbs sh sh.
Proof. split; by left. Qed.

Lemma broadcast_dim_absorbs (m x y r : nat) :
  (m = x ∨ m = 1%nat) → broadcast_dim x y = Some r → m = r ∨ m = 1%nat.
Proof.
  unfold broadcast_dim. intros Hm Hr.
  repeat case_decide; simplify_eq; lia.
Qed.

Lemma absorbs_np_add p a g a' :
  absorbs (shape p) (shape a) → np_add a g = Ok a' →
  absorbs (shape p) (shape a').
Proof.
  intros [H1 H2] [Hr Hc]%broadcast_shape. split.
  - eapply broadcast_dim_absorbs; [exact H1|exact Hr].
  - eapply broadcast_dim_absorbs; [exact H2|exact Hc].
Qed.

Lemma absorbs_np_sub (lr : F) (n : Z) p a :
  absorbs (shape p) (shape a) →
  ∃ p', np_sub p (np_div_int (np_scale lr a) n) = Ok p'.
Proof.
  intros [H1 H2]. unfold np_sub, broadcast.
  assert (∀ m x : nat, (m = x ∨ m = 1%nat) → is_Some (broadcast_dim m x))
    as Hdim.
  { intros m x Hm. unfold broadcast_dim. repeat case_decide; eauto; lia. }
  destruct (Hdim _ _ H1) as [r Hr]. destruct (Hdim _ _ H2) as [c Hc].
  change (nrows (np_div_int _ _)) with (shape a).1.
  change (ncols (np_div_int _ _)) with (shape a).2.
  unfold nrows, ncols. rewrite Hr, Hc. eauto.
Qed.

Lemma add_layers_length (acc g acc' : list (ndarray F)) :
  length g = length acc → add_layers acc g = Ok acc' →
  length acc' = length acc.
Proof.
  intros Hlen Hadd. unfold add_layers in Hadd.
  apply mapM_outcome_length in Hadd. rewrite Hadd, length_zip_with. lia.
Qed.

Lemma add_layers_absorbed (P acc g acc' : list (ndarray F)) :
  Forall2 (λ p a, absorbs (shape p) (shape a)) P acc →
  length g = length acc → add_layers acc g = Ok acc' →
  Forall2 (λ p a, absorbs (shape p) (shape a)) P acc'.
Proof.
  intros HP. revert g acc'.
  induction HP as [|p a P acc Hpa HP IH]; intros g acc' Hlen Hadd.
  - destruct g; [|done]. injection Hadd as <-. constructor.
  - destruct g as [|g0 g]; [done|]. unfold add_layers in Hadd. simpl in Hadd.
    destruct (np_add a g0) as [a'| |] eqn:Ha; try done. simpl in Hadd.
    destruct (mapM _ (zip acc g)) as [rest| |] eqn:Hrest; try done.
    injection Hadd as <-. constructor.
    + by eapply absorbs_np_add.
    + eapply IH; [|exact Hrest]. simpl in Hlen. lia.
Qed.

Lemma descend_ok (lr : F) (n : Z) (P acc : list (ndarray F)) :
  Forall2 (λ p a, absorbs (shape p) (shape a)) P acc →
  ∃ P', descend lr n P acc = Ok P' ∧
        Forall3 (λ p a p', np_sub p (np_div_int (np_scale lr a) n) = Ok p')
                P acc P'.
Proof.
  induction 1 as [|p a P acc Hpa HP (P' & HP' & Hall)].
  - exists []. split; [done|constructor].
  - destruct (absorbs_np_sub lr n p a Hpa) as [p' Hp'].
    exists (p' :: P'). split; [|by constructor].
    unfold descend in *. simpl. rewrite Hp'. simpl. by rewrite HP'.
Qed.

End Absorb.

(** ** [process_batch] is the mean-gradient step *)

Section BatchCorrect.
Context {F : Type} `{Scalar F}.
Implicit Types (net : MLP F) (s : world F) (batch : DataFrame F).

(** What [process_batch] computes, as functions of the network: the
    accumulators after the loop, and the descent step. *)
Definition BatchGradient net batch (class_column : string)
  : outcome (list (ndarray F) * list (ndarray F)) :=
  examples ← batch_examples net batch class_column;
  GradientSum net examples (ZeroGradients net).

Definition MeanGradientStep (learning_rate : F) (n : Z) net
    (g : list (ndarray F) * list (ndarray F)) : outcome (MLP F) :=
  W' ← descend learning_rate n (weights net) g.1;
  B' ← descend learning_rate n (biases net) g.2;
  Ok (set_biases B' (set_weights W' net)).

Definition MiniBatchUpdate net batch (class_column : string)
    (learning_rate : F) : outcome (MLP F) :=
  g ← BatchGradient net batch class_column;
  MeanGradientStep learning_rate (df_len batch) net g.

Lemma df_getitem_length batch c cl :
  df_getitem batch c = Ok cl → length cl = length (frame_rows batch).
Proof.
  unfold df_getitem. destruct (column_pos c batch); [|done].
  intros [= <-]. by rewrite length_fmap.
Qed.

Lemma df_drop_columns_length batch c d :
  df_drop_columns batch c = Ok d →
  length (to_numpy d) = length (frame_rows batch).
Proof.
  unfold df_drop_columns. destruct (column_pos c batch); [|done].
  intros [= <-]. unfold to_numpy. simpl. by rewrite !length_fmap.
Qed.

Definition absorbed net (acc : list (ndarray F) * list (ndarray F)) : Prop :=
  Forall2 (λ p a, absorbs (shape p) (shape a)) (weights net) acc.1 ∧
  Forall2 (λ p a, absorbs (shape p) (shape a)) (biases net) acc.2.

Lemma ZeroGradients_absorbed net : absorbed net (ZeroGradients net).
Proof.
  split; simpl; apply Forall2_fmap_r, Forall_Forall2_diag, Forall_forall;
    intros p _; unfold compose; rewrite shape_np_zeros; apply absorbs_refl.
Qed.

Lemma AddGradients_absorbed net x t acc g acc' :
  layered net → backpropagate net x t = Ok g →
  absorbed net acc → AddGradients acc g = Ok acc' → absorbed net acc'.
Proof.
  intros [Hlen HL] Hg [Hw Hb] Hadd. destruct g as [wg bg].
  apply backpropagate_lookup in Hg as (Hlw & Hlb & _).
  unfold AddGradients in Hadd. simpl in Hadd.
  destruct (add_layers acc.1 wg) as [wacc| |] eqn:Hwacc; try done.
  destruct (add_layers acc.2 bg) as [bacc| |] eqn:Hbacc; try done.
  injection Hadd as <-. split; simpl.
  - eapply add_layers_absorbed; [exact Hw| |exact Hwacc].
    apply Forall2_length in Hw. lia.
  - eapply add_layers_absorbed; [exact Hb| |exact Hbacc].
    apply Forall2_length in Hb. lia.
Qed.

Lemma GradientSum_absorbed net examples acc acc' :
  layered net → absorbed net acc →
  GradientSum net examples acc = Ok acc' → absorbed net acc'.
Proof.
  intros Hnet. revert acc.
  induction examples as [|[x t] examples IH]; intros acc Hacc; simpl.
  - by intros [= <-].
  - destruct (backpropagate net x t) as [g| |] eqn:Hg; try done. simpl.
    destruct (AddGradients acc g) as [acc1| |] eqn:Hadd; try done. simpl.
    apply IH. by eapply AddGradients_absorbed.
Qed.

(** Once the gradient of the batch is there, the step succeeds. *)
Lemma MeanGradientStep_ok (lr : F) (n : Z) net g :
  absorbed net g →
  ∃ W' B',
    MeanGradientStep lr n net g = Ok (set_biases B' (set_weights W' net)) ∧
    descend lr n (weights net) g.1 = Ok W' ∧
    descend lr n (biases net) g.2 = Ok B' ∧
    Forall3 (λ p a p', np_sub p (np_div_int (np_scale lr a) n) = Ok p')
      (weights net) g.1 W' ∧
    Forall3 (λ p a p', np_sub p (np_div_int (np_scale lr a) n) = Ok p')
      (biases net) g.2 B'.
Proof.
  intros [Hw Hb].
  destruct (descend_ok lr n _ _ Hw) as (W' & HW' & HallW).
  destruct (descend_ok lr n _ _ Hb) as (B' & HB' & HallB).
  exists W', B'. unfold MeanGradientStep. by rewrite HW', HB'.
Qed.

Lemma BatchGradient_absorbed net batch c g :
  layered net → BatchGradient net batch c = Ok g → absorbed net g.
Proof.
  intros Hnet. unfold BatchGradient.
  destruct (batch_examples net batch c) as [examples| |]; try done. simpl.
  apply GradientSum_absorbed; [done|apply ZeroGradients_absorbed].
Qed.

Lemma process_batch_run s batch c (lr : F) :
  layered (self s) →
  process_batch batch c lr s =
  match MiniBatchUpdate (self s) batch c lr with
  | Ok net' => (World net' (stdout s) (random_state s), Ok ())
  | Raise e => (s, Raise e)
  | OutOfFuel => (s, OutOfFuel)
  end.
Proof.
  intros Hnet. unfold process_batch, MiniBatchUpdate.
  pose proof (BatchGradient_absorbed (self s) batch c) as Habs.
  unfold BatchGradient, batch_examples in *.
  rewrite !bind_attr, bind_try.
  destruct (df_getitem batch c) as [classes| |] eqn:Hcl; try done.
  rewrite bind_attr, bind_try. cbn [mbind outcome_bind] in *.
  destruct (df_drop_columns batch c) as [d| |] eqn:Hd; try done.
  cbn [fmap outcome_fmap mbind outcome_bind] in *.
  pose proof (df_getitem_length _ _ _ Hcl) as Hlcl.
  pose proof (df_drop_columns_length _ _ _ Hd) as Hld.
  change (for_each ?l _ ?st) with
    (for_each l (batch_body (to_numpy d) (target_fit (self s) <$> classes)) st).
  unfold range.
  replace (Z.of_nat (length (target_fit (self s) <$> classes)))
    with (Z.of_nat (length (target_fit (self s) <$> classes) - 0)) by lia.
  rewrite bind_run, (batch_loop s _ _ 0)
    by (done || rewrite ?length_fmap; lia).
  rewrite drop_0.
  change ((λ w, np_zeros (shape w)) <$> weights (self s),
          (λ b, np_zeros (shape b)) <$> biases (self s))
    with (ZeroGradients (self s)) in *.
  destruct (GradientSum (self s) _ (ZeroGradients (self s)))
    as [[gw gb]| |]; try done.
  cbn [mbind outcome_bind].
  destruct (MeanGradientStep_ok lr (df_len batch) (self s) (gw, gb))
    as (W' & B' & -> & HW' & HB' & _); [by apply Habs|].
  simpl in HW', HB'. unfold df_len in *. rewrite <- Hld in HW', HB'.
  rewrite bind_attr, HW', bind_try; cbv beta iota.
  rewrite bind_run. unfold assign_weights at 1. cbv beta iota.
  rewrite bind_attr. simpl. rewrite HB', bind_try. done.
Qed.

End BatchCorrect.

(** ** The accumulated gradient of a batch

    The specification has the batch start from zero accumulators shaped
    like Weight and Bias and add the gradients of every example to them.
    [AccumulatedGradient] writes this down layer by layer, from the
    gradients of the backpropagation recurrence and numpy's addition only;
    the loop of [process_batch] is shown to compute it. *)

Section Accumulation.
Context {F : Type} `{Scalar F}.
Implicit Types (net : MLP F) (batch : DataFrame F) (acc g : list (ndarray F)).

(** The accumulator of one parameter after the gradients [gs] of the
    examples have been added to it, one after the other. *)
Fixpoint Accumulate (a : ndarray F) (gs : list (ndarray F))
  : outcome (ndarray F) :=
  match gs with
  | [] => Ok a
  | g :: gs' => a' ← np_add a g; Accumulate a' gs'
  end.

(** For the parameter of every layer [l]: zeros of its shape, plus the
    gradient of layer [l] of every example. *)
Definition AccumulatedLayers (params : list (ndarray F))
    (gs : list (list (ndarray F))) : outcome (list (ndarray F)) :=
  mapM (λ lp : nat * ndarray F,
          Accumulate (np_zeros (shape lp.2)) (omap (λ g, g !! lp.1) gs))
       (zip (seq 0 (length params)) params).

(** The accumulated gradient of a batch: the gradients of all its examples
    at [net], summed layer by layer. *)
Definition AccumulatedGradient net batch (class_column : string)
  : outcome (list (ndarray F) * list (ndarray F)) :=
  examples ← batch_examples net batch class_column;
  gs ← mapM (λ e : list F * ndarray F, backpropagate net e.1 e.2) examples;
  wsum ← AccumulatedLayers (weights net) gs.*1;
  bsum ← AccumulatedLayers (biases net) gs.*2;
  Ok (wsum, bsum).

Lemma Accumulate_cases (a : ndarray F) gs :
  is_ok (Accumulate a gs) ∨ Accumulate a gs = Raise ValueError.
Proof.
  revert a. induction gs as [|g gs IH]; intros a; simpl; [by left|].
  destruct (np_add_cases a g) as [Hok| ->]; [|by right].
  destruct (np_add a g) as [a'| |]; try done. apply IH.
Qed.

Lemma mapM_outcome_cases {A B} (f : A → outcome B) (l : list A) :
  (∀ x, x ∈ l → is_ok (f x) ∨ f x = Raise ValueError) →
  is_ok (mapM f l) ∨ mapM f l = Raise ValueError.
Proof.
  induction l as [|x l IH]; intros Hl; simpl; [by left|].
  destruct (Hl x) as [Hx| ->]; [left| |by right].
  destruct (f x) as [y| |]; try done. simpl.
  destruct IH as [Hok| ->]; [intros z Hz; apply Hl; by right| |by right].
  destruct (mapM f l); try done. by left.
Qed.

Lemma add_layers_cases acc g :
  is_ok (add_layers acc g) ∨ add_layers acc g = Raise ValueError.
Proof. apply mapM_outcome_cases. intros [a b] _. apply np_add_cases. Qed.

Lemma backpropagate_cases net x t :
  layered net →
  is_ok (backpropagate net x t) ∨ backpropagate net x t = Raise ValueError.
Proof.
  intros Hnet. unfold backpropagate.
  destruct (mapM_outcome_cases (WeightGradient net x t)
              (seq 0 (length (weights net)))) as [Hw| ->]; [| |by right].
  { intros i [_ Hi]%elem_of_seq. apply WeightGradient_cases; [done|lia]. }
  destruct (mapM (WeightGradient net x t) _) as [wg| |]; try done. simpl.
  destruct (mapM_outcome_cases (BiasGradient net x t)
              (seq 0 (length (weights net)))) as [Hb| ->]; [| |by right].
  { intros i [_ Hi]%elem_of_seq. apply ErrorSignal_cases; [done|lia]. }
  destruct (mapM (BiasGradient net x t) _) as [bg| |]; try done. by left.
Qed.

(** The accumulators [acc] of the layers from [k] on, after the gradients
    of the examples have been added. *)
Definition accumulate_from (k : nat) acc (gs : list (list (ndarray F)))
  : outcome (list (ndarray F)) :=
  mapM (λ lp : nat * ndarray F, Accumulate lp.2 (omap (λ g, g !! lp.1) gs))
       (zip (seq k (length acc)) acc).

Lemma accumulate_from_cases k acc gs :
  is_ok (accumulate_from k acc gs) ∨ accumulate_from k acc gs = Raise ValueError.
Proof. apply mapM_outcome_cases. intros lp _. apply Accumulate_cases. Qed.

Lemma accumulate_from_nil k acc : accumulate_from k acc [] = Ok acc.
Proof.
  unfold accumulate_from. revert k.
  induction acc as [|a acc IH]; intros k; simpl; [done|].
  by rewrite IH.
Qed.

Lemma accumulate_from_zeros k (params : list (ndarray F)) gs :
  accumulate_from k ((λ p, np_zeros (shape p)) <$> params) gs =
  mapM (λ lp : nat * ndarray F,
          Accumulate (np_zeros (shape lp.2)) (omap (λ g, g !! lp.1) gs))
       (zip (seq k (length params)) params).
Proof.
  unfold accumulate_from. revert k.
  induction params as [|p params IH]; intros k; simpl; [done|].
  by rewrite IH.
Qed.

(** One more example: its gradient is added to every accumulator first. *)
Lemma accumulate_from_cons k acc g gs :
  (k + length acc ≤ length g)%nat →
  accumulate_from k acc (g :: gs) =
  acc' ← add_layers acc (drop k g); accumulate_from k acc' gs.
Proof.
  revert k. induction acc as [|a acc IH]; intros k Hlen.
  - unfold accumulate_from, add_layers. simpl. done.
  - simpl in Hlen.
    destruct (lookup_lt_is_Some_2 g k) as [gk Hgk]; [lia|].
    rewrite (drop_S _ _ _ Hgk).
    unfold accumulate_from, add_layers in *. simpl. rewrite Hgk. simpl.
    destruct (np_add a gk) as [a'| |]; try done. simpl.
    rewrite IH by lia. simpl.
    destruct (Accumulate_cases a' (omap (λ g0, g0 !! k) gs)) as [Ha|Ha];
      destruct (add_layers_cases acc (drop (S k) g)) as [Hr|Hr];
      unfold add_layers in Hr.
    + destruct (Accumulate a' _) as [x| |] eqn:Hx; try done.
      destruct (mapM _ (zip acc (drop (S k) g))) as [r| |]; try done.
      simpl. by rewrite Hx.
    + rewrite Hr. by destruct (Accumulate a' _).
    + destruct (Accumulate a' _) as [x| |] eqn:Hx; try done.
      destruct (mapM _ (zip acc (drop (S k) g))) as [r| |]; try done.
      simpl. by rewrite Hx.
    + rewrite Hr. destruct (Accumulate a' _) as [x|e|] eqn:Hx; simpl; [done|congruence|congruence].
Qed.

Lemma GradientSum_accumulate net examples (acc : list (ndarray F) * list (ndarray F)) :
  layered net →
  length acc.1 = length (weights net) → length acc.2 = length (weights net) →
  GradientSum net examples acc =
  gs ← mapM (λ e : list F * ndarray F, backpropagate net e.1 e.2) examples;
  wsum ← accumulate_from 0 acc.1 gs.*1;
  bsum ← accumulate_from 0 acc.2 gs.*2;
  Ok (wsum, bsum).
Proof.
  intros Hnet. revert acc.
  induction examples as [|[x t] examples IH]; intros [wacc bacc] Hw Hb;
    simpl in *.
  - by rewrite !accumulate_from_nil.
  - destruct (backpropagate_cases net x t Hnet) as [Hg| ->]; [|done].
    destruct (backpropagate net x t) as [[wg bg]| |] eqn:Hbp; try done.
    apply backpropagate_lookup in Hbp as (Hlw & Hlb & _).
    cbn [mbind outcome_bind]. unfold AddGradients. cbn [fst snd].
    assert (is_ok (mapM (λ e : list F * ndarray F, backpropagate net e.1 e.2)
                     examples) ∨
            mapM (λ e : list F * ndarray F, backpropagate net e.1 e.2)
              examples = Raise ValueError) as Hrest.
    { apply mapM_outcome_cases. intros e _. by apply backpropagate_cases. }
    destruct (add_layers_cases wacc wg) as [Hokw|Hw'].
    2:{ rewrite Hw'. destruct Hrest as [Hr| ->]; [|done].
        destruct (mapM _ examples) as [gs| |]; try done.
        cbn [mbind outcome_bind mret outcome_ret]. rewrite !fmap_cons. cbn [fst snd].
        rewrite !accumulate_from_cons by (simpl; lia).
        by rewrite !drop_0, Hw'. }
    destruct (add_layers wacc wg) as [wacc'| |] eqn:Hwacc; try done.
    cbn [mbind outcome_bind].
    pose proof (add_layers_length wacc wg wacc' ltac:(lia) Hwacc) as Hlw'.
    destruct (add_layers_cases bacc bg) as [Hokb|Hb'].
    2:{ rewrite Hb'. destruct Hrest as [Hr| ->]; [|done].
        destruct (mapM _ examples) as [gs| |]; try done.
        cbn [mbind outcome_bind mret outcome_ret]. rewrite !fmap_cons. cbn [fst snd].
        rewrite !accumulate_from_cons by (simpl; lia).
        cbn [fst snd]. rewrite !drop_0, Hwacc, Hb'.
        cbn [mbind outcome_bind].
        destruct (accumulate_from_cases 0 wacc' gs.*1) as [Hc| ->]; [|done].
        by destruct (accumulate_from 0 wacc' gs.*1). }
    destruct (add_layers bacc bg) as [bacc'| |] eqn:Hbacc; try done.
    cbn [mbind outcome_bind].
    pose proof (add_layers_length bacc bg bacc' ltac:(lia) Hbacc) as Hlb'.
    rewrite (IH (wacc', bacc')) by (simpl; lia). cbn [fst snd].
    destruct (mapM _ examples) as [gs| |]; try done.
    cbn [mbind outcome_bind mret outcome_ret]. rewrite !fmap_cons. cbn [fst snd].
    rewrite !accumulate_from_cons by (simpl; lia).
    cbn [fst snd]. by rewrite !drop_0, Hwacc, Hbacc.
Qed.

(** The loop of [process_batch] accumulates the gradient of the batch. *)
Lemma BatchGradient_accumulated net batch c :
  layered net → BatchGradient net batch c = AccumulatedGradient net batch c.
Proof.
  intros Hnet. unfold BatchGradient, AccumulatedGradient.
  destruct (batch_examples net batch c) as [examples| |]; try done.
  cbn [mbind outcome_bind].
  rewrite GradientSum_accumulate; try done.
  - unfold ZeroGradients, AccumulatedLayers. cbn [fst snd].
    destruct (mapM _ examples) as [gs| |]; try done.
    cbn [mbind outcome_bind]. by rewrite !accumulate_from_zeros.
  - simpl. by rewrite length_fmap.
  - simpl. rewrite length_fmap. apply Hnet.
Qed.

End Accumulation.

(** ** The delta of a parameter at the learning rates [r] and [r + r] *)

Section Linearity.
Context {F : Type} `{Scalar F}.
Implicit Types (p a : ndarray F) (lr : F) (n : Z).

Lemma broadcast_idx_in (m x r i : nat) :
  broadcast_dim m x = Some r → (i < r)%nat →
  (broadcast_idx m i < m)%nat ∧ (broadcast_idx x i < x)%nat.
Proof.
  unfold broadcast_dim, broadcast_idx. intros Hr Hi.
  repeat case_decide; simplify_eq; lia.
Qed.

Lemma broadcast_dim_back (m x r : nat) :
  broadcast_dim m x = Some r → broadcast_dim r m = Some r.
Proof. unfold broadcast_dim. intros Hr. repeat case_decide; simplify_eq; done || lia. Qed.

(** The entry of the updated parameter at [i, j]. *)
Definition step_entry p a lr n (i j : nat) : F :=
  s_sub (item p (broadcast_idx (nrows p) i) (broadcast_idx (ncols p) j))
        (s_div (s_mul lr (item a (broadcast_idx (nrows a) i)
                                 (broadcast_idx (ncols a) j)))
               (s_of_int n)).

Lemma np_sub_step p a lr n p' :
  np_sub p (np_div_int (np_scale lr a) n) = Ok p' →
  ∃ r c, broadcast_dim (nrows p) (nrows a) = Some r ∧
         broadcast_dim (ncols p) (ncols a) = Some c ∧
         p' = build r c (step_entry p a lr n).
Proof.
  unfold np_sub, broadcast.
  change (nrows (np_div_int _ _)) with (nrows a).
  change (ncols (np_div_int _ _)) with (ncols a).
  destruct (broadcast_dim (nrows p) (nrows a)) as [r|] eqn:Hr; [|done].
  destruct (broadcast_dim (ncols p) (ncols a)) as [c|] eqn:Hc; [|done].
  intros [= <-]. exists r, c. repeat split.
  apply build_ext. intros i j Hi Hj. unfold step_entry.
  destruct (broadcast_idx_in _ _ _ _ Hr Hi) as [_ Hia].
  destruct (broadcast_idx_in _ _ _ _ Hc Hj) as [_ Hja].
  unfold np_div_int. rewrite item_build by done.
  unfold np_scale. by rewrite item_build.
Qed.

(** The delta [p' - p] of an updated parameter. *)
Lemma np_sub_delta p r c (e : nat → nat → F) :
  broadcast_dim r (nrows p) = Some r → broadcast_dim c (ncols p) = Some c →
  np_sub (build r c e) p =
  Ok (build r c (λ i j,
        s_sub (e i j)
              (item p (broadcast_idx (nrows p) i) (broadcast_idx (ncols p) j)))).
Proof.
  intros Hr Hc. unfold np_sub, broadcast.
  change (nrows (build r c e)) with r. change (ncols (build r c e)) with c.
  rewrite Hr, Hc. f_equal. apply build_ext. intros i j Hi Hj.
  by rewrite (broadcast_idx_lt r i), (broadcast_idx_lt c j), item_build.
Qed.

Lemma np_add_self r c (e : nat → nat → F) :
  np_add (build r c e) (build r c e) =
  Ok (build r c (λ i j, s_add (e i j) (e i j))).
Proof.
  unfold np_add, broadcast.
  change (nrows (build r c e)) with r. change (ncols (build r c e)) with c.
  rewrite !broadcast_dim_same. f_equal. apply build_ext. intros i j Hi Hj.
  by rewrite (broadcast_idx_lt r i), (broadcast_idx_lt c j), item_build.
Qed.

(** Entry [i, j] of the delta [p_after - p] of the parameter [p] updated
    at learning rate [lr] with the accumulated gradient [a] of [n]
    examples: [(x - lr * g / n) - x] for the entries [x] of [p] and [g] of
    [a] that broadcasting reads at [i, j], in the arithmetic of the
    arrays. *)
Definition delta_entry p a lr n (i j : nat) : F :=
  let x := item p (broadcast_idx (nrows p) i) (broadcast_idx (ncols p) j) in
  let g := item a (broadcast_idx (nrows a) i) (broadcast_idx (ncols a) j) in
  s_sub (s_sub x (s_div (s_mul lr g) (s_of_int n))) x.

(** The deltas of one parameter [p] with accumulated gradient [a], when
    the update gives [p1] at learning rate [r] and [p2] at [r + r]: both
    deltas exist, their entries are [delta_entry], and the second is the
    first added to itself exactly when the entries are. *)
Definition delta_law (r : F) n p a (p1 p2 : ndarray F) : Prop :=
  ∃ d1 d2,
    np_sub p1 p = Ok d1 ∧ np_sub p2 p = Ok d2 ∧
    d1 = build (nrows d1) (ncols d1) (delta_entry p a r n) ∧
    d2 = build (nrows d1) (ncols d1) (delta_entry p a (s_add r r) n) ∧
    (np_add d1 d1 = Ok d2 ↔
     ∀ i j, (i < nrows d1)%nat → (j < ncols d1)%nat →
       delta_entry p a (s_add r r) n i j =
       s_add (delta_entry p a r n i j) (delta_entry p a r n i j)).

Lemma Ok_inj {A} (x y : A) : Ok x = Ok y → x = y.
Proof. by intros [= ->]. Qed.

Lemma build_inj r c (f g : nat → nat → F) :
  build r c f = build r c g →
  ∀ i j, (i < r)%nat → (j < c)%nat → f i j = g i j.
Proof.
  intros Hfg i j Hi Hj.
  rewrite <- (item_build r c f i j), <- (item_build r c g i j) by done.
  by rewrite Hfg.
Qed.

Lemma step_delta_law p a lr n p1 p2 :
  np_sub p (np_div_int (np_scale lr a) n) = Ok p1 →
  np_sub p (np_div_int (np_scale (s_add lr lr) a) n) = Ok p2 →
  delta_law lr n p a p1 p2.
Proof.
  intros (r & c & Hr & Hc & ->)%np_sub_step (r' & c' & Hr' & Hc' & ->)%np_sub_step.
  simplify_eq.
  pose proof (broadcast_dim_back _ _ _ Hr) as Hrb.
  pose proof (broadcast_dim_back _ _ _ Hc) as Hcb.
  eexists _, _. split; [by apply np_sub_delta|].
  split; [by apply np_sub_delta|].
  change (nrows (build r c ?e)) with r. change (ncols (build r c ?e)) with c.
  split; [done|]. split; [done|].
  rewrite np_add_self. split.
  - intros Heq%Ok_inj i j Hi Hj.
    symmetry. apply (build_inj _ _ _ _ Heq i j Hi Hj).
  - intros Heq. f_equal. apply build_ext. intros i j Hi Hj.
    symmetry. by apply Heq.
Qed.

Lemma descend_delta_law (P G P1 P2 : list (ndarray F)) lr n :
  Forall3 (λ p a p', np_sub p (np_div_int (np_scale lr a) n) = Ok p')
    P G P1 →
  Forall3 (λ p a p', np_sub p (np_div_int (np_scale (s_add lr lr) a) n) = Ok p')
    P G P2 →
  length G = length P ∧
  Forall3 (λ (pa : ndarray F * ndarray F) p1 p2, delta_law lr n pa.1 pa.2 p1 p2)
    (zip P G) P1 P2.
Proof.
  intros H1. revert P2.
  induction H1 as [|p a p1 P G P1 Hp1 H1 IH]; intros P2 H2;
    inversion H2; subst; simpl.
  - split; [done|constructor].
  - destruct (IH _ ltac:(eassumption)) as [Hlen Hall].
    split; [by rewrite Hlen|]. constructor; [|done].
    by eapply step_delta_law.
Qed.

Lemma process_batch_delta_law s (batch : DataFrame F) (c : string) lr :
  layered (self s) →
  (process_batch batch c lr s).2 = Ok () →
  (process_batch batch c (s_add lr lr) s).2 = Ok () ∧
  ∃ g, AccumulatedGradient (self s) batch c = Ok g ∧
       length g.1 = length (weights (self s)) ∧
       length g.2 = length (biases (self s)) ∧
       Forall3 (λ (pa : ndarray F * ndarray F) p1 p2,
                  delta_law lr (df_len batch) pa.1 pa.2 p1 p2)
         (zip (weights (self s)) g.1)
         (weights (self (process_batch batch c lr s).1))
         (weights (self (process_batch batch c (s_add lr lr) s).1)) ∧
       Forall3 (λ (pa : ndarray F * ndarray F) p1 p2,
                  delta_law lr (df_len batch) pa.1 pa.2 p1 p2)
         (zip (biases (self s)) g.2)
         (biases (self (process_batch batch c lr s).1))
         (biases (self (process_batch batch c (s_add lr lr) s).1)).
Proof.
  intros Hnet. rewrite !process_batch_run by done. unfold MiniBatchUpdate.
  pose proof (BatchGradient_absorbed (self s) batch c) as Habs.
  rewrite <- (BatchGradient_accumulated (self s) batch c Hnet).
  destruct (BatchGradient (self s) batch c) as [g| |]; try done.
  cbn [mbind outcome_bind]. intros _.
  destruct (MeanGradientStep_ok lr (df_len batch) (self s) g)
    as (W1 & B1 & -> & _ & _ & HW1 & HB1); [by apply Habs|].
  destruct (MeanGradientStep_ok (s_add lr lr) (df_len batch) (self s) g)
    as (W2 & B2 & -> & _ & _ & HW2 & HB2); [by apply Habs|].
  simpl. split; [done|]. exists g. split; [done|].
  destruct (descend_delta_law _ _ _ _ _ _ HW1 HW2) as [Hlw HW].
  destruct (descend_delta_law _ _ _ _ _ _ HB1 HB2) as [Hlb HB].
  done.
Qed.

End Linearity.

(** With exact arithmetic on the entries (the scalars form a field) the
    entries of the delta always double. *)
Section ExactArithmetic.
Context {F : Type} `{Scalar F}.
Context (one : F) (opp inv : F → F).
Context (Fth : field_theory s_zero one s_add s_mul s_sub opp s_div inv eq).

Add Ring F_ring : (F_R Fth).

Lemma delta_entry_double (p a : ndarray F) (lr : F) (n : Z) (i j : nat) :
  delta_entry p a (s_add lr lr) n i j =
  s_add (delta_entry p a lr n i j) (delta_entry p a lr n i j).
Proof. unfold delta_entry. cbv zeta. rewrite !(Fdiv_def Fth). ring. Qed.

Lemma delta_law_exact (r : F) (n : Z) (p a p1 p2 : ndarray F) :
  delta_law r n p a p1 p2 →
  ∃ d1 d2, np_sub p1 p = Ok d1 ∧ np_sub p2 p = Ok d2 ∧ np_add d1 d1 = Ok d2.
Proof.
  intros (d1 & d2 & H1 & H2 & _ & _ & Hdouble). exists d1, d2.
  do 2 (split; [done|]). apply Hdouble. intros i j _ _.
  apply delta_entry_double.
Qed.

Lemma delta_laws_exact (r : F) (n : Z) (P G P1 P2 : list (ndarray F)) :
  length G = length P →
  Forall3 (λ (pa : ndarray F * ndarray F) p1 p2,
             delta_law r n pa.1 pa.2 p1 p2) (zip P G) P1 P2 →
  Forall3 (λ p p1 p2,
             ∃ d1 d2, np_sub p1 p = Ok d1 ∧ np_sub p2 p = Ok d2 ∧
                      np_add d1 d1 = Ok d2) P P1 P2.
Proof.
  revert G P1 P2.
  induction P as [|p P IH]; intros [|a G] P1 P2 Hlen Hall; try done;
    inversion Hall; subst; constructor.
  - by eapply delta_law_exact.
  - apply (IH G); [simpl in Hlen; lia|done].
Qed.

(** With exact arithmetic the update is linear in the learning rate. *)
Lemma exact_update_doubles (s : world F) (batch : DataFrame F) (c : string)
    (r : F) :
  layered (self s) →
  (process_batch batch c r s).2 = Ok () →
  (process_batch batch c (s_add r r) s).2 = Ok () ∧
  Forall3 (λ p p1 p2,
             ∃ d1 d2, np_sub p1 p = Ok d1 ∧ np_sub p2 p = Ok d2 ∧
                      np_add d1 d1 = Ok d2)
    (weights (self s))
    (weights (self (process_batch batch c r s).1))
    (weights (self (process_batch batch c (s_add r r) s).1)) ∧
  Forall3 (λ p p1 p2,
             ∃ d1 d2, np_sub p1 p = Ok d1 ∧ np_sub p2 p = Ok d2 ∧
                      np_add d1 d1 = Ok d2)
    (biases (self s))
    (biases (self (process_batch batch c r s).1))
    (biases (self (process_batch batch c (s_add r r) s).1)).
Proof.
  intros Hnet Hrun.
  destruct (process_batch_delta_law s batch c r Hnet Hrun)
    as (Hrun2 & g & _ & Hlw & Hlb & HW & HB).
  split; [done|]. split; by eapply delta_laws_exact.
Qed.

End ExactArithmetic.

(** ** The training loop *)

Section Training.
Context {F : Type} `{Scalar F}.
Implicit Types (s : world F) (df : DataFrame F).

(** The line printed after epoch number [epoch] (counted from 0). *)
Definition epoch_line (epoch : Z) : string :=
  "Epoch " +:+ pretty (epoch + 1) +:+ " completed.".

(** The body of the epoch loop of [train]. *)
Definition epoch_body (fuel : nat) df (mini_batch_size : Z) (lr : F)
    (class_column : string) : Z → unit → M unit :=
  λ epoch _,
    mini_batches ← initialize_mini_batches fuel df mini_batch_size;
    for_each mini_batches
      (λ batch _, process_batch batch class_column lr) ();;
    print ("Epoch " +:+ pretty (epoch + 1) +:+ " completed.").

Lemma train_unfold fuel df (epochs B : Z) (lr : F) c :
  train fuel df epochs B lr c =
  for_each (range epochs) (epoch_body fuel df B lr c) ().
Proof. reflexivity. Qed.

Lemma world_eta s : World (self s) (stdout s) (random_state s) = s.
Proof. by destruct s. Qed.

(** *** An empty frame *)

Lemma initialize_mini_batches_loop_empty fuel df (B : Z) acc s :
  df_empty df = true →
  initialize_mini_batches_loop fuel df B acc s = (s, Ok acc).
Proof. intros He. destruct fuel; simpl; by rewrite He. Qed.

Lemma epochs_without_batches fuel df (B : Z) (lr : F) c (l : list Z) s :
  df_empty df = true →
  for_each l (epoch_body fuel df B lr c) () s =
  (World (self s) (stdout s ++ (epoch_line <$> l)) (random_state s), Ok ()).
Proof.
  intros He. revert s. induction l as [|e l IH]; intros s.
  - simpl. by rewrite app_nil_r, world_eta.
  - rewrite for_each_cons, bind_run. unfold epoch_body at 1.
    rewrite bind_run. unfold initialize_mini_batches.
    rewrite initialize_mini_batches_loop_empty by done.
    simpl. rewrite IH. simpl. by rewrite <- app_assoc.
Qed.

(** *** A negative batch size *)

Lemma df_sample_negative df (n : Z) s :
  n < 0 → df_sample df n s = (s, Raise ValueError).
Proof. intros Hn. unfold df_sample. by rewrite decide_True. Qed.

Lemma initialize_mini_batches_negative fuel df (B : Z) s :
  df_empty df = false → B < 0 →
  initialize_mini_batches (S fuel) df B s = (s, Raise ValueError).
Proof.
  intros He HB. unfold initialize_mini_batches. simpl. rewrite He.
  rewrite bind_run, df_sample_negative; [done|]. unfold df_len. lia.
Qed.

(** *** A batch size of zero *)

Lemma filter_all {A} (P : A → Prop) `{∀ x, Decision (P x)} (l : list A) :
  (∀ x, P x) → filter P l = l.
Proof.
  intros HP. induction l as [|x l IH]; [done|].
  rewrite filter_cons_True by done. by rewrite IH.
Qed.

Lemma df_sample_zero df s : df_sample df 0 s = (s, Ok (take_rows df [])).
Proof.
  unfold df_sample. rewrite decide_False by lia.
  rewrite decide_False by (unfold df_len; lia).
  simpl. by rewrite world_eta.
Qed.

Lemma df_drop_nothing df : df_drop df [] = Ok df.
Proof.
  unfold df_drop. rewrite decide_True by constructor.
  rewrite filter_all; [by destruct df|].
  intros r. apply not_elem_of_nil.
Qed.

Lemma initialize_mini_batches_loop_zero fuel df acc s :
  df_empty df = false →
  initialize_mini_batches_loop fuel df 0 acc s = (s, OutOfFuel).
Proof.
  intros He. revert acc. induction fuel as [|fuel IH]; intros acc; simpl;
    rewrite He; [done|].
  replace (0 `min` df_len df) with 0 by (unfold df_len; lia).
  rewrite bind_run, df_sample_zero.
  change (index (take_rows df [])) with (@nil Z).
  rewrite df_drop_nothing, bind_try. apply IH.
Qed.

(** *** Partitioning leaves the object and the output alone *)

Lemma df_sample_frame df (n : Z) s :
  self (df_sample df n s).1 = self s ∧ stdout (df_sample df n s).1 = stdout s.
Proof.
  unfold df_sample. repeat case_decide; try done.
  by destruct (choose_positions _ _ _).
Qed.

Lemma initialize_mini_batches_loop_frame fuel df (B : Z) acc s :
  self (initialize_mini_batches_loop fuel df B acc s).1 = self s ∧
  stdout (initialize_mini_batches_loop fuel df B acc s).1 = stdout s.
Proof.
  revert df acc s. induction fuel as [|fuel IH]; intros df acc s; simpl;
    destruct (df_empty df); try done.
  rewrite bind_run.
  pose proof (df_sample_frame df (B `min` df_len df) s) as Hs.
  destruct (df_sample df _ s) as [s1 [mb| |]]; try done. simpl in Hs.
  rewrite bind_try. destruct (df_drop df (index mb)) as [df'| |]; try done.
  destruct (IH df' (acc ++ [mb]) s1) as [IH1 IH2].
  destruct Hs as [Hs1 Hs2]. split; congruence.
Qed.

End Training.

(** ** Shapes along the forward and backward recurrences *)

Section Shapes.
Context {F : Type} `{Scalar F}.
Implicit Types (net : MLP F) (x : list F) (a z w b : ndarray F).

(** The supplied functions keep the shape of their argument; the loss
    derivative returns the shape of the activation it is given when the
    target comes from the target encoder. *)
Definition shape_preserving (f : ndarray F → ndarray F) : Prop :=
  ∀ a, shape (f a) = shape a.

Definition shape_contract net : Prop :=
  shape_preserving (activation net) ∧
  shape_preserving (activation_derv net) ∧
  shape_preserving (output_activ net) ∧
  shape_preserving (output_derv net) ∧
  ∀ a c, shape (loss_derv net a (target_fit net c)) = shape a.

(** Layer [i] maps a column of [ncols Weight[i]] entries to a column of
    [nrows Weight[i]] entries, which is what layer [i+1] takes. *)
Definition chained net : Prop :=
  layered net ∧
  (∀ i w b, weights net !! i = Some w → biases net !! i = Some b →
            shape b = (nrows w, 1%nat)) ∧
  (∀ i w w', weights net !! i = Some w → weights net !! S i = Some w' →
             ncols w' = nrows w).

Lemma np_add_column (d b c : ndarray F) (m : nat) :
  shape d = (m, 1%nat) → shape b = (m, 1%nat) →
  np_add d b = Ok c → shape c = (m, 1%nat).
Proof.
  intros Hd Hb Hadd.
  destruct (broadcast_same_shape s_add d b) as (c' & Hc' & Hs); [congruence|].
  unfold np_add in Hadd. congruence.
Qed.

Lemma np_mul_same (d b c : ndarray F) (sh : nat * nat) :
  shape d = sh → shape b = sh → np_mul d b = Ok c → shape c = sh.
Proof.
  intros Hd Hb Hmul.
  destruct (broadcast_same_shape s_mul d b) as (c' & Hc' & Hs); [congruence|].
  unfold np_mul in Hmul. congruence.
Qed.

Lemma PreActivation_of_shape net i a z :
  chained net → ncols a = 1%nat → PreActivation_of net i a = Ok z →
  ∃ w, weights net !! i = Some w ∧ ncols w = nrows a ∧
       shape z = (nrows w, 1%nat).
Proof.
  intros (_ & Hb & _) Ha. unfold PreActivation_of, layer.
  destruct (weights net !! i) as [w|] eqn:Hw; [|done].
  destruct (biases net !! i) as [b|] eqn:Hbi; [|done]. simpl.
  destruct (np_dot w a) as [d| |] eqn:Hd; try done. simpl. intros Hz.
  apply np_dot_shape in Hd as [Hwa Hd]. rewrite Ha in Hd.
  exists w. repeat split; try done.
  eapply np_add_column; [exact Hd|by eapply Hb|exact Hz].
Qed.

(** Every activation is a column; from layer 1 on it has as many entries
    as the weight matrix below it has rows. *)
Lemma Activation_shape net x i a :
  chained net → shape_contract net → Activation net x i = Ok a →
  ncols a = 1%nat ∧
  match i with
  | O => nrows a = length x
  | S k => ∃ w, weights net !! k = Some w ∧ nrows a = nrows w
  end.
Proof.
  intros Hnet (Hact & _ & Hout & _). revert a.
  induction i as [|k IH]; intros a; simpl.
  - by intros [= <-].
  - destruct (Activation net x k) as [ak| |]; try done. simpl.
    destruct (IH _ eq_refl) as [Hak _].
    destruct (PreActivation_of net k ak) as [z| |] eqn:Hz; try done. simpl.
    destruct (PreActivation_of_shape _ _ _ _ Hnet Hak Hz) as (w & Hw & _ & Hsz).
    intros [= <-].
    assert (shape (if decide (S k = length (weights net))
                   then output_activ net z else activation net z)
            = (nrows w, 1%nat)) as Hs.
    { destruct (decide _); [rewrite Hout|rewrite Hact]; done. }
    unfold nrows, ncols at 1. rewrite Hs. eauto.
Qed.

Lemma PreActivation_shape net x i z :
  chained net → shape_contract net → PreActivation net x i = Ok z →
  ∃ w a, weights net !! i = Some w ∧ Activation net x i = Ok a ∧
         ncols w = nrows a ∧ shape z = (nrows w, 1%nat).
Proof.
  intros Hnet Hc. unfold PreActivation.
  destruct (Activation net x i) as [a| |] eqn:Ha; try done. simpl.
  intros Hz. destruct (Activation_shape _ _ _ _ Hnet Hc Ha) as [Hcol _].
  destruct (PreActivation_of_shape _ _ _ _ Hnet Hcol Hz) as (w & ? & ? & ?).
  by exists w, a.
Qed.

(** Every error signal has the shape of the bias of its layer. *)
Lemma ErrorSignal_shape net x c i d :
  chained net → shape_contract net → (i < length (weights net))%nat →
  ErrorSignal net x (target_fit net c) i = Ok d →
  ∃ w, weights net !! i = Some w ∧ shape d = (nrows w, 1%nat).
Proof.
  intros Hnet Hc Hi. pose proof Hnet as ((Hlen & HL) & _ & Hchain).
  pose proof Hc as (_ & Had & _ & Hod & Hld).
  remember (length (weights net) - 1 - i)%nat as k eqn:Hk.
  revert i d Hi Hk. induction k as [|k IH]; intros i d Hi Hk.
  - replace i with (length (weights net) - 1)%nat by lia.
    rewrite ErrorSignal_top.
    destruct (Activation net x _) as [a| |] eqn:Ha; try done. simpl.
    destruct (PreActivation net x _) as [z| |] eqn:Hz; try done. simpl.
    destruct (PreActivation_shape _ _ _ _ Hnet Hc Hz) as (w & a' & Hw & _ & _ & Hsz).
    intros Hd. exists w. split; [done|].
    eapply np_mul_same; [| |exact Hd].
    + rewrite Hld. 
      replace (length (weights net)) with (S (length (weights net) - 1)) in Ha
        by lia.
      destruct (Activation_shape _ _ _ _ Hnet Hc Ha) as (Hcol & w' & Hw' & Hrow).
      rewrite (shape_nrows_ncols a). congruence.
    + by rewrite Hod.
  - rewrite ErrorSignal_step by lia.
    destruct (ErrorSignal net x _ (S i)) as [d'| |] eqn:Hd'; try done.
    destruct (IH (S i) d') as (w' & Hw' & Hsd'); [lia|lia|done|].
    simpl. unfold layer. replace (i + 1)%nat with (S i) by lia.
    rewrite Hw'. simpl.
    destruct (np_dot (np_transpose w') d') as [p| |] eqn:Hp; try done. simpl.
    destruct (PreActivation net x i) as [z| |] eqn:Hz; try done. simpl.
    destruct (PreActivation_shape _ _ _ _ Hnet Hc Hz) as (w & a' & Hw & _ & _ & Hsz).
    intros Hd. exists w. split; [done|].
    eapply np_mul_same; [| |exact Hd].
    + apply np_dot_shape in Hp as [_ Hp]. rewrite Hp. f_equal.
      * change (ncols w' = nrows w). by eapply Hchain.
      * unfold ncols. by rewrite Hsd'.
    + by rewrite Had.
Qed.

(** An error signal exists only if the forward pass went through. *)
Lemma ErrorSignal_ok_top net x (t : ndarray F) i :
  (i < length (weights net))%nat → is_ok (ErrorSignal net x t i) →
  is_ok (ErrorSignal net x t (length (weights net) - 1)).
Proof.
  intros Hi. remember (length (weights net) - 1 - i)%nat as k eqn:Hk.
  revert i Hi Hk. induction k as [|k IH]; intros i Hi Hk Hd.
  - by replace (length (weights net) - 1)%nat with i by lia.
  - rewrite ErrorSignal_step in Hd by lia.
    apply (IH (S i)); [lia|lia|].
    by destruct (ErrorSignal net x t (S i)).
Qed.

Lemma ErrorSignal_ok_forward net x (t : ndarray F) i :
  (i < length (weights net))%nat → is_ok (ErrorSignal net x t i) →
  is_ok (PreActivation net x i).
Proof.
  intros Hi Hd. apply ErrorSignal_ok_top in Hd; [|done].
  rewrite ErrorSignal_top in Hd.
  destruct (Activation net x (length (weights net))) eqn:HaL; try done.
  apply (PreActivation_ok_lt net x (length (weights net))); [lia|].
  by rewrite HaL.
Qed.

(** Gradient shape parity: every gradient has the shape of its parameter. *)
Lemma WeightGradient_shape net x c i g :
  chained net → shape_contract net → (i < length (weights net))%nat →
  WeightGradient net x (target_fit net c) i = Ok g →
  ∃ w, weights net !! i = Some w ∧ shape g = shape w.
Proof.
  intros Hnet Hc Hi. unfold WeightGradient.
  destruct (ErrorSignal net x _ i) as [d| |] eqn:Hd; try done. simpl.
  destruct (Activation net x i) as [a| |] eqn:Ha; try done. simpl.
  intros Hg. apply np_dot_shape in Hg as [_ Hg].
  destruct (ErrorSignal_shape _ _ _ _ _ Hnet Hc Hi Hd) as (w & Hw & Hsd).
  exists w. split; [done|]. rewrite Hg.
  change (ncols (np_transpose a)) with (nrows a).
  unfold nrows at 1. rewrite Hsd. simpl.
  (* the error signal exists, so the forward pass went through layer i *)
  assert (is_ok (PreActivation net x i)) as Hz.
  { apply (ErrorSignal_ok_forward net x (target_fit net c) i); [done|].
    by rewrite Hd. }
  destruct (PreActivation net x i) as [z| |] eqn:Hzi; try done.
  destruct (PreActivation_shape _ _ _ _ Hnet Hc Hzi) as (w' & a' & Hw' & Ha' & Hwa & _).
  rewrite (shape_nrows_ncols w).
  assert (w' = w) as -> by congruence. assert (a' = a) as -> by congruence.
  by rewrite Hwa.
Qed.

Lemma backpropagate_shapes net x c wg bg :
  chained net → shape_contract net →
  backpropagate net x (target_fit net c) = Ok (wg, bg) →
  Forall2 (λ p g, shape g = shape p) (weights net) wg ∧
  Forall2 (λ p g, shape g = shape p) (biases net) bg.
Proof.
  intros Hnet Hc (Hlw & Hlb & Hw & Hb)%backpropagate_lookup.
  pose proof Hnet as ((Hlen & HL) & Hbias & _).
  split; apply Forall2_same_length_lookup_2; try congruence.
  - intros i w g Hwi Hgi. apply Hw in Hgi.
    destruct (WeightGradient_shape net x c i g Hnet Hc)
      as (w' & Hw' & Hs); [by eapply lookup_lt_Some|done|]. congruence.
  - intros i b d Hbi Hdi. apply Hb in Hdi.
    destruct (ErrorSignal_shape net x c i d Hnet Hc)
      as (w & Hw' & Hs); [apply lookup_lt_Some in Hbi; lia|done|].
    rewrite Hs. symmetry. by eapply Hbias.
Qed.

End Shapes.

(** ** On inputs of the right length both passes succeed *)

Section Success.
Context {F : Type} `{Scalar F}.
Implicit Types (net : MLP F) (x : list F).

(** The input has as many entries as the first weight matrix has
    columns. *)
Definition input_fits net x : Prop :=
  ∀ w, weights net !! 0%nat = Some w → ncols w = length x.

Lemma Activation_ok_shaped net x i :
  chained net → shape_contract net → input_fits net x →
  (i ≤ length (weights net))%nat → is_ok (Activation net x i).
Proof.
  intros Hnet Hc Hx. pose proof Hnet as ((Hlen & HL) & Hbias & Hchain).
  induction i as [|i IH]; intros Hi; [done|].
  assert (is_ok (Activation net x i)) as Hai by (apply IH; lia).
  destruct (Activation net x i) as [a| |] eqn:Ha; try done.
  destruct (Activation_shape _ _ _ _ Hnet Hc Ha) as [Hcol Hrow].
  simpl. rewrite Ha. simpl. unfold PreActivation_of, layer.
  destruct (lookup_lt_is_Some_2 (weights net) i) as [w Hw]; [lia|].
  destruct (lookup_lt_is_Some_2 (biases net) i) as [b Hb]; [lia|].
  rewrite Hw, Hb. simpl.
  destruct (np_dot_ok w a) as (d & -> & Hd).
  { destruct i as [|k].
    - rewrite Hrow. by apply Hx.
    - destruct Hrow as (wk & Hwk & ->). by eapply Hchain. }
  simpl. destruct (broadcast_same_shape s_add d b) as (z & Hz & _).
  { rewrite Hd, Hcol. symmetry. by eapply Hbias. }
  unfold np_add. by rewrite Hz.
Qed.

Lemma ErrorSignal_ok_shaped net x c i :
  chained net → shape_contract net → input_fits net x →
  (i < length (weights net))%nat →
  is_ok (ErrorSignal net x (target_fit net c) i).
Proof.
  intros Hnet Hc Hx Hi. pose proof Hnet as ((Hlen & HL) & Hbias & Hchain).
  pose proof Hc as (_ & Had & _ & Hod & Hld).
  remember (length (weights net) - 1 - i)%nat as k eqn:Hk.
  revert i Hi Hk. induction k as [|k IH]; intros i Hi Hk.
  - replace i with (length (weights net) - 1)%nat by lia.
    rewrite ErrorSignal_top.
    assert (is_ok (Activation net x (length (weights net)))) as HaL
      by (by apply Activation_ok_shaped).
    destruct (Activation net x (length (weights net))) as [a| |] eqn:Ha;
      try done.
    assert (is_ok (PreActivation net x (length (weights net) - 1))) as Hz.
    { apply (PreActivation_ok_lt net x (length (weights net))); [lia|].
      by rewrite Ha. }
    destruct (PreActivation net x _) as [z| |] eqn:Hzi; try done. simpl.
    destruct (PreActivation_shape _ _ _ _ Hnet Hc Hzi)
      as (w & a' & Hw & _ & _ & Hsz).
    replace (length (weights net)) with (S (length (weights net) - 1)) in Ha
      by lia.
    destruct (Activation_shape _ _ _ _ Hnet Hc Ha) as (Hcol & w' & Hw' & Hrow).
    destruct (broadcast_same_shape s_mul
                (loss_derv net a (target_fit net c)) (output_derv net z))
      as (d & Hd & _).
    { rewrite Hld, Hod, Hsz, (shape_nrows_ncols a). congruence. }
    unfold np_mul. by rewrite Hd.
  - rewrite ErrorSignal_step by lia.
    assert (is_ok (ErrorSignal net x (target_fit net c) (S i))) as HdS
      by (apply IH; lia).
    destruct (ErrorSignal net x _ (S i)) as [d'| |] eqn:Hd'; try done.
    destruct (ErrorSignal_shape net x c (S i) d' Hnet Hc)
      as (w' & Hw' & Hsd'); [lia|done|].
    simpl. unfold layer. replace (i + 1)%nat with (S i) by lia.
    rewrite Hw'. simpl.
    destruct (np_dot_ok (np_transpose w') d') as (p & -> & Hp).
    { change (ncols (np_transpose w')) with (nrows w').
      unfold nrows at 2. by rewrite Hsd'. }
    simpl.
    assert (is_ok (PreActivation net x i)) as Hz.
    { apply (PreActivation_ok_lt net x (length (weights net))); [lia|].
      by apply Activation_ok_shaped. }
    destruct (PreActivation net x i) as [z| |] eqn:Hzi; try done. simpl.
    destruct (PreActivation_shape _ _ _ _ Hnet Hc Hzi)
      as (w & a' & Hw & _ & _ & Hsz).
    destruct (broadcast_same_shape s_mul p (activation_derv net z))
      as (d & Hd & _).
    { rewrite Hp, Had, Hsz. f_equal.
      - change (ncols w' = nrows w). by eapply Hchain.
      - unfold ncols. by rewrite Hsd'. }
    unfold np_mul. by rewrite Hd.
Qed.

Lemma WeightGradient_ok_shaped net x c i :
  chained net → shape_contract net → input_fits net x →
  (i < length (weights net))%nat →
  is_ok (WeightGradient net x (target_fit net c) i).
Proof.
  intros Hnet Hc Hx Hi. unfold WeightGradient.
  pose proof (ErrorSignal_ok_shaped net x c i Hnet Hc Hx Hi) as Hd.
  destruct (ErrorSignal net x _ i) as [d| |] eqn:Hdi; try done. simpl.
  assert (is_ok (Activation net x i)) as Ha
    by (apply Activation_ok_shaped; done || lia).
  destruct (Activation net x i) as [a| |] eqn:Hai; try done.
  simpl.
  destruct (ErrorSignal_shape _ _ _ _ _ Hnet Hc Hi Hdi) as (w & _ & Hsd).
  destruct (Activation_shape _ _ _ _ Hnet Hc Hai) as [Hcol _].
  destruct (np_dot_ok d (np_transpose a)) as (g & -> & _); [|done].
  change (nrows (np_transpose a)) with (ncols a).
  unfold ncols at 1. by rewrite Hsd, Hcol.
Qed.

(** The forward pass returns the final activation, and the backward pass
    returns gradients shaped like the weights and the biases. *)
Lemma evaluate_ok_shaped net x :
  chained net → shape_contract net → input_fits net x →
  is_ok (evaluate net x).
Proof. intros Hnet Hc Hx. by apply Activation_ok_shaped. Qed.

Lemma backpropagate_ok_shaped net x c :
  chained net → shape_contract net → input_fits net x →
  ∃ wg bg,
    backpropagate net x (target_fit net c) = Ok (wg, bg) ∧
    Forall2 (λ p g, shape g = shape p) (weights net) wg ∧
    Forall2 (λ p g, shape g = shape p) (biases net) bg.
Proof.
  intros Hnet Hc Hx.
  pose proof (backpropagate_ok net x (target_fit net c)) as Hok.
  assert (∀ i, (i < length (weights net))%nat →
               is_ok (WeightGradient net x (target_fit net c) i)) as Hall.
  { intros i Hi. by apply WeightGradient_ok_shaped. }
  specialize (Hok Hall).
  eexists _, _. split; [exact Hok|].
  by apply (backpropagate_shapes net x c).
Qed.

End Success.

(** ** The update keeps every shape *)

Section ShapeInvariant.
Context {F : Type} `{Scalar F}.
Implicit Types (net : MLP F) (s : world F).

(** [net'] has the supplied functions of [net] and parameters of the same
    shapes, layer by layer. *)
Definition shaped_like net net' : Prop :=
  Forall2 (λ p p', shape p' = shape p) (weights net) (weights net') ∧
  Forall2 (λ p p', shape p' = shape p) (biases net) (biases net') ∧
  activation net' = activation net ∧
  loss_derv net' = loss_derv net ∧
  activation_derv net' = activation_derv net ∧
  output_activ net' = output_activ net ∧
  output_derv net' = output_derv net ∧
  target_fit net' = target_fit net.

Lemma shaped_like_refl net : shaped_like net net.
Proof.
  repeat split; try done; by apply Forall_Forall2_diag, Forall_forall.
Qed.

Lemma same_shape_trans (P P' P'' : list (ndarray F)) :
  Forall2 (λ p p', shape p' = shape p) P P' →
  Forall2 (λ p p', shape p' = shape p) P' P'' →
  Forall2 (λ p p', shape p' = shape p) P P''.
Proof.
  intros H1. revert P''. induction H1; intros P'' H2; inversion H2; subst;
    constructor; [congruence|auto].
Qed.

Lemma shaped_like_trans net net' net'' :
  shaped_like net net' → shaped_like net' net'' → shaped_like net net''.
Proof.
  intros (Hw & Hb & ? & ? & ? & ? & ? & ?) (Hw' & Hb' & ? & ? & ? & ? & ? & ?).
  repeat split; try congruence; by eapply same_shape_trans.
Qed.

Lemma shaped_like_contract net net' :
  shaped_like net net' → shape_contract net → shape_contract net'.
Proof.
  intros (_ & _ & Ha & Hl & Had & Ho & Hod & Ht) Hc.
  unfold shape_contract. by rewrite Ha, Hl, Had, Ho, Hod, Ht.
Qed.

Lemma shaped_like_chained net net' :
  shaped_like net net' → chained net → chained net'.
Proof.
  intros (Hw & Hb & _) ((Hlen & HL) & Hbias & Hchain).
  pose proof (Forall2_length _ _ _ Hw) as Hlw.
  pose proof (Forall2_length _ _ _ Hb) as Hlb.
  assert (∀ i w', weights net' !! i = Some w' →
            ∃ w, weights net !! i = Some w ∧ shape w' = shape w) as Hwi.
  { intros i w' Hi. destruct (Forall2_lookup_r _ _ _ _ _ Hw Hi) as (w & ? & ?).
    eauto. }
  split; [split; lia|]. split.
  - intros i w' b' Hw' Hb'.
    destruct (Hwi _ _ Hw') as (w & Hwl & Hsw).
    destruct (Forall2_lookup_r _ _ _ _ _ Hb Hb') as (b & Hbl & Hsb).
    rewrite Hsb, (Hbias _ _ _ Hwl Hbl). unfold nrows. by rewrite Hsw.
  - intros i w1' w2' H1 H2.
    destruct (Hwi _ _ H1) as (w1 & Hl1 & Hs1).
    destruct (Hwi _ _ H2) as (w2 & Hl2 & Hs2).
    unfold ncols, nrows. rewrite Hs1, Hs2. by eapply Hchain.
Qed.

Lemma add_layers_same_shapes (P acc g acc' : list (ndarray F)) :
  Forall2 (λ p a, shape a = shape p) P acc →
  Forall2 (λ p a, shape a = shape p) P g →
  add_layers acc g = Ok acc' →
  Forall2 (λ p a, shape a = shape p) P acc'.
Proof.
  intros Hacc. revert g acc'.
  induction Hacc as [|p a P acc Hpa Hacc IH]; intros g acc' Hg Hadd;
    inversion Hg as [|? g0 ? g' Hpg Hg']; subst.
  - injection Hadd as <-. constructor.
  - unfold add_layers in Hadd. simpl in Hadd.
    destruct (np_add a g0) as [a'| |] eqn:Ha; try done. simpl in Hadd.
    destruct (mapM _ (zip acc g')) as [rest| |] eqn:Hrest; try done.
    injection Hadd as <-. constructor; [|by eapply IH].
    destruct (broadcast_same_shape s_add a g0) as (a'' & Ha'' & Hs);
      [congruence|].
    unfold np_add in Ha. congruence.
Qed.

Lemma GradientSum_same_shapes net examples acc acc' :
  chained net → shape_contract net →
  Forall (λ e : list F * ndarray F, ∃ c, e.2 = target_fit net c) examples →
  Forall2 (λ p a, shape a = shape p) (weights net) acc.1 →
  Forall2 (λ p a, shape a = shape p) (biases net) acc.2 →
  GradientSum net examples acc = Ok acc' →
  Forall2 (λ p a, shape a = shape p) (weights net) acc'.1 ∧
  Forall2 (λ p a, shape a = shape p) (biases net) acc'.2.
Proof.
  intros Hnet Hc Hex. revert acc.
  induction Hex as [|[x t] examples [c Ht] Hex IH]; intros acc Hw Hb; simpl.
  - by intros [= <-].
  - simpl in Ht. subst t.
    destruct (backpropagate net x _) as [[wg bg]| |] eqn:Hg; try done.
    apply backpropagate_shapes in Hg as [Hwg Hbg]; [|done..].
    simpl. unfold AddGradients. simpl.
    destruct (add_layers acc.1 wg) as [wacc| |] eqn:Hwacc; try done.
    destruct (add_layers acc.2 bg) as [bacc| |] eqn:Hbacc; try done.
    simpl. apply IH; simpl.
    + eapply add_layers_same_shapes; [exact Hw|exact Hwg|exact Hwacc].
    + eapply add_layers_same_shapes; [exact Hb|exact Hbg|exact Hbacc].
Qed.

Lemma descend_same_shapes (lr : F) (n : Z) (P acc P' : list (ndarray F)) :
  Forall2 (λ p a, shape a = shape p) P acc →
  descend lr n P acc = Ok P' →
  Forall2 (λ p p', shape p' = shape p) P P'.
Proof.
  intros Hacc. revert P'.
  induction Hacc as [|p a P acc Hpa Hacc IH]; intros P' Hd.
  - injection Hd as <-. constructor.
  - unfold descend in Hd. simpl in Hd.
    destruct (np_sub p _) as [p'| |] eqn:Hp; try done. simpl in Hd.
    destruct (mapM _ (zip P acc)) as [rest| |] eqn:Hrest; try done.
    injection Hd as <-. constructor; [|by eapply IH].
    destruct (broadcast_same_shape s_sub p (np_div_int (np_scale lr a) n))
      as (p'' & Hp'' & Hs).
    { by rewrite shape_np_div_int, shape_np_scale. }
    unfold np_sub in Hp. congruence.
Qed.

Lemma batch_examples_targets net (batch : DataFrame F) c examples :
  batch_examples net batch c = Ok examples →
  Forall (λ e : list F * ndarray F, ∃ c, e.2 = target_fit net c) examples.
Proof.
  unfold batch_examples.
  destruct (df_getitem batch c) as [classes| |]; try done. simpl.
  destruct (df_drop_columns batch c) as [d| |]; try done. simpl.
  intros [= <-]. apply Forall_forall. intros [x t] Hin.
  apply elem_of_zip_r in Hin. simpl.
  apply list_elem_of_fmap in Hin as (cl & -> & _). eauto.
Qed.

Lemma MiniBatchUpdate_shaped net (batch : DataFrame F) c (lr : F) net' :
  chained net → shape_contract net →
  MiniBatchUpdate net batch c lr = Ok net' → shaped_like net net'.
Proof.
  intros Hnet Hc. unfold MiniBatchUpdate, BatchGradient.
  destruct (batch_examples net batch c) as [examples| |] eqn:Hex; try done.
  simpl.
  destruct (GradientSum net examples _) as [[gw gb]| |] eqn:Hsum; try done.
  simpl. unfold MeanGradientStep. simpl.
  destruct (descend lr _ (weights net) gw) as [W'| |] eqn:HW; try done.
  destruct (descend lr _ (biases net) gb) as [B'| |] eqn:HB; try done.
  simpl. intros [= <-].
  apply GradientSum_same_shapes in Hsum as [Hgw Hgb];
    [|done|done|by eapply batch_examples_targets|..].
  2,3: simpl; apply Forall2_fmap_r, Forall_Forall2_diag, Forall_forall;
       intros p _; unfold compose; by rewrite shape_np_zeros.
  repeat split; try done; simpl; by eapply descend_same_shapes.
Qed.

(** On a network whose layers fit each other, the gradients of a batch
    of fitting examples can be computed and added up. *)
Lemma add_layers_ok_same_shapes (P acc g : list (ndarray F)) :
  Forall2 (λ p a, shape a = shape p) P acc →
  Forall2 (λ p a, shape a = shape p) P g →
  is_ok (add_layers acc g).
Proof.
  intros Hacc. revert g.
  induction Hacc as [|p a P acc Hpa Hacc IH]; intros g Hg;
    inversion Hg as [|? g0 ? g' Hpg Hg']; subst; [done|].
  unfold add_layers. simpl.
  destruct (broadcast_same_shape s_add a g0) as (a' & Ha' & _); [congruence|].
  unfold np_add. rewrite Ha'. simpl.
  specialize (IH g' Hg'). unfold add_layers in IH.
  by destruct (mapM _ (zip acc g')).
Qed.

Lemma GradientSum_ok_shaped net examples acc :
  chained net → shape_contract net →
  Forall (λ e : list F * ndarray F,
            input_fits net e.1 ∧ ∃ c, e.2 = target_fit net c) examples →
  Forall2 (λ p a, shape a = shape p) (weights net) acc.1 →
  Forall2 (λ p a, shape a = shape p) (biases net) acc.2 →
  is_ok (GradientSum net examples acc).
Proof.
  intros Hnet Hc Hex. revert acc.
  induction Hex as [|[x t] examples [Hx [c Ht]] Hex IH]; intros acc Hw Hb;
    simpl; [done|].
  simpl in Hx, Ht. subst t.
  destruct (backpropagate_ok_shaped net x c Hnet Hc Hx)
    as (wg & bg & -> & Hwg & Hbg).
  simpl. unfold AddGradients. simpl.
  pose proof (add_layers_ok_same_shapes _ _ _ Hw Hwg) as Hokw.
  destruct (add_layers acc.1 wg) as [wacc| |] eqn:Hwacc; try done.
  pose proof (add_layers_ok_same_shapes _ _ _ Hb Hbg) as Hokb.
  destruct (add_layers acc.2 bg) as [bacc| |] eqn:Hbacc; try done.
  simpl. apply IH; simpl.
  - eapply add_layers_same_shapes; [exact Hw|exact Hwg|exact Hwacc].
  - eapply add_layers_same_shapes; [exact Hb|exact Hbg|exact Hbacc].
Qed.

Lemma BatchGradient_ok_shaped net (batch : DataFrame F) c examples :
  chained net → shape_contract net →
  batch_examples net batch c = Ok examples →
  Forall (λ e : list F * ndarray F, input_fits net e.1) examples →
  is_ok (BatchGradient net batch c).
Proof.
  intros Hnet Hc Hex Hfit. unfold BatchGradient. rewrite Hex. simpl.
  pose proof (batch_examples_targets _ _ _ _ Hex) as Ht.
  apply GradientSum_ok_shaped; try done.
  - rewrite Forall_forall in Hfit, Ht. apply Forall_forall. intros e He.
    split; [by apply Hfit|by apply Ht].
  - simpl. apply Forall2_fmap_r, Forall_Forall2_diag, Forall_forall.
    intros q _. unfold compose. by rewrite shape_np_zeros.
  - simpl. apply Forall2_fmap_r, Forall_Forall2_diag, Forall_forall.
    intros q _. unfold compose. by rewrite shape_np_zeros.
Qed.

Lemma process_batch_shaped s (batch : DataFrame F) c (lr : F) :
  chained (self s) → shape_contract (self s) →
  shaped_like (self s) (self (process_batch batch c lr s).1).
Proof.
  intros Hnet Hc. rewrite process_batch_run by apply Hnet.
  destruct (MiniBatchUpdate (self s) batch c lr) as [net'| |] eqn:Hup;
    simpl; try apply shaped_like_refl.
  by eapply MiniBatchUpdate_shaped.
Qed.

(** A whole run of [train] keeps the shapes. *)
Lemma batches_shaped s (batches : list (DataFrame F)) c (lr : F) :
  chained (self s) → shape_contract (self s) →
  shaped_like (self s)
    (self (for_each batches (λ batch _, process_batch batch c lr) () s).1).
Proof.
  revert s. induction batches as [|batch batches IH]; intros s Hnet Hc.
  - apply shaped_like_refl.
  - rewrite for_each_cons, bind_run.
    pose proof (process_batch_shaped s batch c lr Hnet Hc) as Hs.
    destruct (process_batch batch c lr s) as [s1 [[]| |]]; simpl in *;
      try done.
    eapply shaped_like_trans; [exact Hs|]. apply IH.
    + by eapply shaped_like_chained.
    + by eapply shaped_like_contract.
Qed.

Lemma epoch_shaped fuel (df : DataFrame F) (B : Z) (lr : F) c epoch s :
  chained (self s) → shape_contract (self s) →
  shaped_like (self s) (self (epoch_body fuel df B lr c epoch () s).1).
Proof.
  intros Hnet Hc. unfold epoch_body. rewrite bind_run.
  unfold initialize_mini_batches.
  pose proof (initialize_mini_batches_loop_frame fuel df B [] s) as [Hs _].
  destruct (initialize_mini_batches_loop fuel df B [] s)
    as [s1 [batches| |]]; simpl in Hs; rewrite <- Hs;
    try apply shaped_like_refl.
  rewrite bind_run.
  pose proof (batches_shaped s1 batches c lr) as Hb.
  rewrite Hs in Hb. specialize (Hb Hnet Hc). rewrite Hs.
  by destruct (for_each batches _ () s1) as [s2 [[]| |]].
Qed.

Lemma train_shaped fuel (df : DataFrame F) (epochs B : Z) (lr : F) c s :
  chained (self s) → shape_contract (self s) →
  shaped_like (self s) (self (train fuel df epochs B lr c s).1).
Proof.
  rewrite train_unfold. generalize (range epochs). intros l. revert s.
  induction l as [|e l IH]; intros s Hnet Hc.
  - apply shaped_like_refl.
  - rewrite for_each_cons, bind_run.
    pose proof (epoch_shaped fuel df B lr c e s Hnet Hc) as Hs.
    destruct (epoch_body fuel df B lr c e () s) as [s1 [[]| |]];
      simpl in *; try done.
    eapply shaped_like_trans; [exact Hs|]. apply IH.
    + by eapply shaped_like_chained.
    + by eapply shaped_like_contract.
Qed.

End ShapeInvariant.

(** ** Construction *)

Section Construction.
Context {F : Type} `{Scalar F}.
Implicit Types (net : MLP F) (sizes : list Z).

(** [Weight[i]] is [LayerSizes[i+1] × LayerSizes[i]] and [Bias[i]] is a
    column of [LayerSizes[i+1]] entries, for the [len(LayerSizes) - 1]
    layers. *)
Definition has_shapes sizes net : Prop :=
  length (weights net) = (length sizes - 1)%nat ∧
  length (biases net) = (length sizes - 1)%nat ∧
  (∀ i w, weights net !! i = Some w →
     ∃ nin nout, sizes !! i = Some nin ∧ sizes !! S i = Some nout ∧
                 shape w = (Z.to_nat nout, Z.to_nat nin)) ∧
  (∀ i b, biases net !! i = Some b →
     ∃ nout, sizes !! S i = Some nout ∧ shape b = (Z.to_nat nout, 1%nat)).

Lemma has_shapes_chained sizes net :
  (2 ≤ length sizes)%nat → has_shapes sizes net → chained net.
Proof.
  intros Hlen (Hlw & Hlb & Hw & Hb). split; [split; lia|]. split.
  - intros i w b Hwi Hbi.
    destruct (Hw _ _ Hwi) as (nin & nout & _ & Hout & Hsw).
    destruct (Hb _ _ Hbi) as (nout' & Hout' & Hsb).
    rewrite Hsb. unfold nrows. rewrite Hsw. simpl. congruence.
  - intros i w w' Hwi Hwi'.
    destruct (Hw _ _ Hwi) as (nin & nout & _ & Hout & Hsw).
    destruct (Hw _ _ Hwi') as (nin' & nout' & Hin' & _ & Hsw').
    unfold ncols, nrows. rewrite Hsw, Hsw'. simpl. congruence.
Qed.

Lemma has_shapes_shaped_like sizes net net' :
  has_shapes sizes net → shaped_like net net' → has_shapes sizes net'.
Proof.
  intros (Hlw & Hlb & Hw & Hb) (HW & HB & _).
  pose proof (Forall2_length _ _ _ HW). pose proof (Forall2_length _ _ _ HB).
  split; [lia|]. split; [lia|]. split.
  - intros i w' Hi.
    destruct (Forall2_lookup_r _ _ _ _ _ HW Hi) as (w & Hwi & Hs).
    rewrite Hs. eauto.
  - intros i b' Hi.
    destruct (Forall2_lookup_r _ _ _ _ _ HB Hi) as (b & Hbi & Hs).
    rewrite Hs. eauto.
Qed.

(** The pairs [(nout, nin)] that [__init_weights] walks through. *)
Lemma layer_pairs_lookup sizes i :
  zip (drop 1 sizes) (slice_init sizes) !! i =
  nout ← sizes !! S i; nin ← sizes !! i; Some (nout, nin).
Proof.
  unfold slice_init.
  rewrite lookup_zip_with, lookup_drop. simpl.
  destruct (sizes !! S i) as [nout|] eqn:Hout; [|done]. simpl.
  rewrite lookup_take_lt; [done|].
  apply lookup_lt_Some in Hout. lia.
Qed.

Lemma layer_pairs_length sizes :
  length (zip (drop 1 sizes) (slice_init sizes)) = (length sizes - 1)%nat.
Proof.
  unfold slice_init. rewrite length_zip_with, length_drop, length_take. lia.
Qed.

(** Construction validates nothing: it fails only where an initialiser
    does, and otherwise stores what the initialisers return. *)
Lemma init_run sizes act ld ad out od tf
    (w_init : Z → Z → outcome (ndarray F)) (b_init : Z → outcome (ndarray F)) :
  (∀ i nin nout, sizes !! i = Some nin → sizes !! S i = Some nout →
                 is_ok (w_init nout nin) ∧ is_ok (b_init nout)) →
  ∃ net,
    __init__ sizes act ld ad out od tf w_init b_init = Ok net ∧
    length (weights net) = (length sizes - 1)%nat ∧
    length (biases net) = (length sizes - 1)%nat ∧
    (∀ i nin nout, sizes !! i = Some nin → sizes !! S i = Some nout →
       ∃ w b, weights net !! i = Some w ∧ w_init nout nin = Ok w ∧
              biases net !! i = Some b ∧ b_init nout = Ok b) ∧
    activation net = act ∧ loss_derv net = ld ∧ activation_derv net = ad ∧
    output_activ net = out ∧ output_derv net = od ∧ target_fit net = tf.
Proof.
  intros Hok. unfold __init__, __init_weights, __init_biases.
  rewrite (mapM_outcome_ok no_array (λ p : Z * Z, w_init p.1 p.2)).
  2:{ intros [nout nin] (i & Hi)%list_elem_of_lookup.
      rewrite layer_pairs_lookup in Hi.
      destruct (sizes !! S i) as [nout'|] eqn:Hout; [|done].
      destruct (sizes !! i) as [nin'|] eqn:Hin; [|done].
      simpl in Hi. injection Hi as <- <-. by apply (Hok i). }
  rewrite (mapM_outcome_ok no_array b_init).
  2:{ intros nout (i & Hi)%list_elem_of_lookup.
      rewrite lookup_drop in Hi. simpl in Hi.
      destruct (lookup_lt_is_Some_2 sizes i) as [nin Hin].
      { apply lookup_lt_Some in Hi. lia. }
      by apply (Hok i nin). }
  simpl. eexists. split; [done|]. simpl.
  rewrite !length_fmap, layer_pairs_length, length_drop.
  repeat split; try done.
  intros i nin nout Hin Hout.
  destruct (Hok _ _ _ Hin Hout) as [Hw Hb].
  exists (get_ok no_array (w_init nout nin)), (get_ok no_array (b_init nout)).
  rewrite !list_lookup_fmap, layer_pairs_lookup, lookup_drop. simpl.
  rewrite Hout, Hin. simpl.
  repeat split; try done; by apply is_ok_get_ok.
Qed.

(** With fewer than two sizes there is no layer and no initialiser call. *)
Lemma init_no_layers sizes act ld ad out od tf
    (w_init : Z → Z → outcome (ndarray F)) (b_init : Z → outcome (ndarray F)) :
  (length sizes < 2)%nat →
  ∃ net, __init__ sizes act ld ad out od tf w_init b_init = Ok net ∧
         weights net = [] ∧ biases net = [].
Proof.
  intros Hlen.
  destruct (init_run sizes act ld ad out od tf w_init b_init)
    as (net & Hnet & Hlw & Hlb & _).
  { intros i nin nout _ Hout. apply lookup_lt_Some in Hout. lia. }
  exists net. split; [done|].
  split; apply length_zero_iff_nil; lia.
Qed.

(** With initialisers that return the shapes they are asked for, valid
    layer sizes give a network of the specified shapes. *)
Lemma init_has_shapes sizes act ld ad out od tf
    (w_init : Z → Z → outcome (ndarray F)) (b_init : Z → outcome (ndarray F)) :
  Forall (λ n, 0 < n) sizes →
  (∀ nout nin, 0 < nout → 0 < nin →
     ∃ w, w_init nout nin = Ok w ∧ shape w = (Z.to_nat nout, Z.to_nat nin)) →
  (∀ nout, 0 < nout →
     ∃ b, b_init nout = Ok b ∧ shape b = (Z.to_nat nout, 1%nat)) →
  ∃ net,
    __init__ sizes act ld ad out od tf w_init b_init = Ok net ∧
    has_shapes sizes net ∧
    activation net = act ∧ loss_derv net = ld ∧ activation_derv net = ad ∧
    output_activ net = out ∧ output_derv net = od ∧ target_fit net = tf.
Proof.
  intros Hpos Hw Hb.
  assert (∀ i n, sizes !! i = Some n → 0 < n) as Hposi.
  { intros i n Hi. by eapply (Forall_lookup_1 _ _ _ _ Hpos). }
  destruct (init_run sizes act ld ad out od tf w_init b_init)
    as (net & Hnet & Hlw & Hlb & Hlayers & Hfuncs).
  { intros i nin nout Hin Hout.
    destruct (Hw nout nin) as (w & -> & _); [by eapply Hposi..|].
    destruct (Hb nout) as (b & -> & _); [by eapply Hposi|]. done. }
  exists net. split; [done|]. split; [|done].
  split; [done|]. split; [done|]. split.
  - intros i w Hi.
    destruct (lookup_lt_is_Some_2 sizes i) as [nin Hin].
    { apply lookup_lt_Some in Hi. lia. }
    destruct (lookup_lt_is_Some_2 sizes (S i)) as [nout Hout].
    { apply lookup_lt_Some in Hi. lia. }
    destruct (Hlayers _ _ _ Hin Hout) as (w' & b' & Hw' & Hiw & _).
    destruct (Hw nout nin) as (w'' & Hw'' & Hs); [by eapply Hposi..|].
    exists nin, nout. repeat split; try done. congruence.
  - intros i b Hi.
    destruct (lookup_lt_is_Some_2 sizes i) as [nin Hin].
    { apply lookup_lt_Some in Hi. lia. }
    destruct (lookup_lt_is_Some_2 sizes (S i)) as [nout Hout].
    { apply lookup_lt_Some in Hi. lia. }
    destruct (Hlayers _ _ _ Hin Hout) as (w' & b' & _ & _ & Hb' & Hib).
    destruct (Hb nout) as (b'' & Hb'' & Hs); [by eapply Hposi|].
    exists nout. split; [done|]. congruence.
Qed.

End Construction.

(** ** Partitioning a frame with distinct index labels *)

Section Partition.
Context {F : Type} `{Scalar F}.
Implicit Types (s : world F) (df : DataFrame F).

Lemma choose_positions_S (g : list nat) (k p0 : nat) (pool0 : list nat) :
  choose_positions g (S k) (p0 :: pool0) =
  let '(ps, g') :=
    choose_positions (tl g) k
      (delete (hd 0%nat g `mod` length (p0 :: pool0))%nat (p0 :: pool0)) in
  (default 0%nat
     ((p0 :: pool0) !! (hd 0%nat g `mod` length (p0 :: pool0))%nat) :: ps, g').
Proof. reflexivity. Qed.

(** The positions chosen are [k] of the positions offered, each at most
    once. *)
Lemma choose_positions_spec (g : list nat) (k : nat) (pool ps g' : list nat) :
  choose_positions g k pool = (ps, g') → (k ≤ length pool)%nat →
  length ps = k ∧ ∃ rest, pool ≡ₚ ps ++ rest.
Proof.
  revert g pool ps g'. induction k as [|k IH]; intros g pool ps g' Hc Hk.
  - injection Hc as <- <-. split; [done|]. by exists pool.
  - destruct pool as [|p0 pool0]; [simpl in Hk; lia|].
    rewrite choose_positions_S in Hc.
    set (pool := p0 :: pool0) in *.
    set (i := (hd 0%nat g `mod` length pool)%nat) in *.
    assert (i < length pool)%nat as Hi.
    { apply Nat.mod_upper_bound. simpl. lia. }
    destruct (lookup_lt_is_Some_2 pool i Hi) as [p Hp].
    destruct (choose_positions (tl g) k (delete i pool)) as [ps' g'']
      eqn:Hrec.
    rewrite Hp in Hc. injection Hc as <- <-.
    destruct (IH _ _ _ _ Hrec) as (Hlen & rest & Hperm).
    { rewrite length_delete by eauto. lia. }
    split; [simpl; lia|]. exists rest.
    rewrite (delete_Permutation pool i p Hp). simpl. by rewrite Hperm.
Qed.

Lemma omap_lookup_seq {A} (l0 l : list A) :
  omap (λ p, (l0 ++ l) !! p) (seq (length l0) (length l)) = l.
Proof.
  revert l0. induction l as [|a l IH]; intros l0; [done|].
  simpl. rewrite lookup_app_r, Nat.sub_diag by lia. simpl. f_equal.
  specialize (IH (l0 ++ [a])).
  rewrite <- app_assoc, length_app in IH. simpl in IH.
  by rewrite Nat.add_1_r in IH.
Qed.

Lemma omap_lookup_length {A} (l : list A) (ps : list nat) :
  Forall (λ p, p < length l)%nat ps →
  length (omap (λ p, l !! p) ps) = length ps.
Proof.
  induction 1 as [|p ps Hp Hps IH]; [done|].
  simpl. destruct (lookup_lt_is_Some_2 l p Hp) as [a ->]. simpl.
  f_equal. apply IH.
Qed.

Lemma filter_none {A} (P : A → Prop) `{∀ x, Decision (P x)} (l : list A) :
  (∀ x, x ∈ l → ¬ P x) → filter P l = [].
Proof.
  induction l as [|x l IH]; intros HP; [done|].
  rewrite filter_cons_False by (apply HP; left).
  apply IH. intros y Hy. apply HP. by right.
Qed.

Lemma filter_all_in {A} (P : A → Prop) `{∀ x, Decision (P x)} (l : list A) :
  (∀ x, x ∈ l → P x) → filter P l = l.
Proof.
  induction l as [|x l IH]; intros HP; [done|].
  rewrite filter_cons_True by (apply HP; left).
  f_equal. apply IH. intros y Hy. apply HP. by right.
Qed.

(** Sampling [n] rows splits the rows of the frame into the sample and
    the rest. *)
Lemma df_sample_spec df (n : Z) s :
  0 ≤ n ≤ df_len df →
  ∃ s' mb rest,
    df_sample df n s = (s', Ok mb) ∧
    self s' = self s ∧ stdout s' = stdout s ∧
    columns mb = columns df ∧
    length (frame_rows mb) = Z.to_nat n ∧
    frame_rows df ≡ₚ frame_rows mb ++ rest.
Proof.
  intros Hn. unfold df_sample.
  rewrite decide_False by lia. rewrite decide_False by lia.
  destruct (choose_positions _ _ _) as [ps g] eqn:Hc.
  apply choose_positions_spec in Hc as (Hlen & rest & Hperm).
  2:{ rewrite length_seq. unfold df_len in Hn. lia. }
  eexists _, _, (omap (λ p, frame_rows df !! p) rest).
  split; [done|]. repeat split; simpl.
  - rewrite omap_lookup_length; [done|].
    apply Forall_forall. intros p Hp.
    assert (p ∈ seq 0 (length (frame_rows df))) as Hin.
    { rewrite Hperm. apply elem_of_app. by left. }
    apply elem_of_seq in Hin. lia.
  - rewrite <- omap_app, <- Hperm.
    pose proof (omap_lookup_seq [] (frame_rows df)) as Hall.
    simpl in Hall. by rewrite Hall.
Qed.

(** Dropping the sampled rows by label leaves the rest, when the labels
    are distinct. *)
Lemma df_drop_sampled df (mb_rows rest : list (Z * list F)) :
  NoDup (index df) → frame_rows df ≡ₚ mb_rows ++ rest →
  ∃ df', df_drop df mb_rows.*1 = Ok df' ∧
         columns df' = columns df ∧ frame_rows df' ≡ₚ rest.
Proof.
  intros Hnd Hperm. unfold df_drop.
  assert (index df ≡ₚ mb_rows.*1 ++ rest.*1) as Hidx.
  { unfold index. by rewrite Hperm, fmap_app. }
  rewrite Hidx in Hnd. apply NoDup_app in Hnd as (_ & Hdisj & _).
  rewrite decide_True.
  2:{ apply Forall_forall. intros l Hl. rewrite Hidx.
      apply elem_of_app. by left. }
  eexists. split; [done|]. split; [done|]. simpl.
  rewrite Hperm, filter_app.
  assert (filter (λ r : Z * list F, r.1 ∉ mb_rows.*1) mb_rows = []) as ->.
  { apply filter_none. intros r Hr Hnot.
    apply Hnot. by apply list_elem_of_fmap_2. }
  simpl. rewrite filter_all_in; [done|].
  intros r Hr Hin. apply (Hdisj r.1 Hin). by apply list_elem_of_fmap_2.
Qed.

(** The sizes of the batches of [N] rows at batch size [B]: [N / B] full
    batches and, when [B] does not divide [N], the remainder. *)
Definition batch_sizes (B N : nat) : list nat :=
  replicate (N / B) B ++ (if decide (N `mod` B = 0)%nat then [] else [N `mod` B]%nat).

Lemma batch_sizes_zero (B : nat) : (0 < B)%nat → batch_sizes B 0 = [].
Proof.
  intros HB. unfold batch_sizes.
  rewrite Nat.Div0.div_0_l, Nat.Div0.mod_0_l. by rewrite decide_True.
Qed.

Lemma batch_sizes_small (B N : nat) :
  (0 < N < B)%nat → batch_sizes B N = [N].
Proof.
  intros HN. unfold batch_sizes.
  rewrite Nat.div_small, Nat.mod_small by lia.
  by rewrite decide_False by lia.
Qed.

Lemma batch_sizes_step (B N : nat) :
  (0 < B ≤ N)%nat → batch_sizes B N = B :: batch_sizes B (N - B).
Proof.
  intros HB. unfold batch_sizes.
  assert (N / B = S ((N - B) / B))%nat as Hq.
  { replace N with ((N - B) + 1 * B)%nat at 1 by lia.
    rewrite Nat.div_add by lia. lia. }
  assert (N `mod` B = (N - B) `mod` B)%nat as Hr.
  { replace N with ((N - B) + 1 * B)%nat at 1 by lia.
    by rewrite Nat.Div0.mod_add. }
  by rewrite Hq, Hr.
Qed.

(** The loop of [initialize_mini_batches] on a frame with distinct labels
    and at least one column. *)
Lemma partition_loop (fuel : nat) df (B : Z) (acc : list (DataFrame F)) s :
  columns df ≠ [] → NoDup (index df) → 0 < B →
  (length (frame_rows df) ≤ fuel)%nat →
  ∃ s' new,
    initialize_mini_batches_loop fuel df B acc s = (s', Ok (acc ++ new)) ∧
    self s' = self s ∧ stdout s' = stdout s ∧
    concat (frame_rows <$> new) ≡ₚ frame_rows df ∧
    (λ b, length (frame_rows b)) <$> new =
      batch_sizes (Z.to_nat B) (length (frame_rows df)).
Proof.
  intros Hcols Hnd HB. revert df acc s Hcols Hnd.
  induction fuel as [|fuel IH]; intros df acc s Hcols Hnd Hfuel.
  - assert (frame_rows df = []) as Hrows.
    { apply length_zero_iff_nil. lia. }
    exists s, []. rewrite initialize_mini_batches_loop_empty.
    2:{ unfold df_empty. rewrite Hrows. by apply bool_decide_eq_true_2; left. }
    rewrite app_nil_r, Hrows. simpl. rewrite batch_sizes_zero by lia. done.
  - destruct (decide (frame_rows df = [])) as [Hrows|Hrows].
    { exists s, []. rewrite initialize_mini_batches_loop_empty.
      2:{ unfold df_empty. rewrite Hrows.
          by apply bool_decide_eq_true_2; left. }
      rewrite app_nil_r, Hrows. simpl. rewrite batch_sizes_zero by lia.
      done. }
    assert (0 < length (frame_rows df))%nat as Hpos.
    { destruct (frame_rows df); [done|simpl; lia]. }
    assert (df_empty df = false) as He.
    { unfold df_empty. apply bool_decide_eq_false_2. intros [?|Hc]; [lia|].
      by apply length_zero_iff_nil in Hc. }
    cbn [initialize_mini_batches_loop]. rewrite He.
    destruct (df_sample_spec df (B `min` df_len df) s)
      as (s1 & mb & rest & Hsample & Hself & Hout & Hmbcols & Hmblen & Hperm).
    { unfold df_len. lia. }
    rewrite bind_run, Hsample.
    destruct (df_drop_sampled df (frame_rows mb) rest Hnd Hperm)
      as (df' & Hdrop & Hcols' & Hrest).
    change (index mb) with (frame_rows mb).*1.
    rewrite Hdrop, bind_try.
    assert (length (frame_rows df) =
            (length (frame_rows mb) + length (frame_rows df'))%nat) as Hsplit.
    { by rewrite Hperm, length_app, Hrest. }
    destruct (IH df' (acc ++ [mb]) s1) as (s' & new & Hloop & Hs' & Ho' & Hcat & Hsizes).
    { by rewrite Hcols'. }
    { unfold index. rewrite Hrest.
      unfold index in Hnd. rewrite Hperm, fmap_app in Hnd.
      by apply NoDup_app in Hnd as (_ & _ & ?). }
    { unfold df_len in Hmblen. lia. }
    exists s', (mb :: new). rewrite Hloop.
    split; [by rewrite <- app_assoc|].
    split; [congruence|]. split; [congruence|]. split.
    + rewrite fmap_cons. change (concat (?l :: ?k)) with (l ++ concat k).
      by rewrite Hcat, Hperm, Hrest.
    + rewrite fmap_cons, Hsizes. unfold df_len in Hmblen.
      destruct (decide (B ≤ Z.of_nat (length (frame_rows df)))) as [Hle|Hgt].
      * rewrite (batch_sizes_step (Z.to_nat B) (length (frame_rows df))) by lia.
        f_equal; [lia|]. f_equal. lia.
      * rewrite (batch_sizes_small (Z.to_nat B) (length (frame_rows df))) by lia.
        replace (length (frame_rows df')) with 0%nat by lia.
        rewrite batch_sizes_zero by lia. f_equal. lia.
Qed.

(** What the sizes say: the number of batches is [ceil(N / B)], every
    batch but the last has [B] rows, the last has what remains, and the
    sizes add up to [N]. *)
Lemma batch_sizes_facts (B N : nat) :
  (0 < B)%nat → (0 < N)%nat →
  let sizes := batch_sizes B N in
  length sizes = ((N + B - 1) / B)%nat ∧
  sum_list sizes = N ∧
  (∀ i, (S i < length sizes)%nat → sizes !! i = Some B) ∧
  last sizes = Some (N - B * (length sizes - 1))%nat ∧
  (0 < N - B * (length sizes - 1) ≤ B)%nat.
Proof.
  intros HB HN. simpl. unfold batch_sizes.
  pose proof (Nat.div_mod_eq N B) as Hdm.
  pose proof (Nat.mod_upper_bound N B) as Hmod.
  set (q := (N / B)%nat) in *. set (r := (N `mod` B)%nat) in *.
  assert ((N + B - 1) / B = if decide (r = 0%nat) then q else S q)%nat
    as Hceil.
  { destruct (decide (r = 0%nat)) as [Hr|Hr].
    - symmetry. apply (Nat.div_unique _ _ _ (B - 1)); lia.
    - symmetry. apply (Nat.div_unique _ _ _ (r - 1)); lia. }
  rewrite Hceil.
  destruct (decide (r = 0%nat)) as [Hr|Hr].
  - rewrite app_nil_r, length_replicate, sum_list_replicate.
    assert (0 < q)%nat by nia.
    split; [done|]. split; [nia|]. split.
    + intros i Hi. apply lookup_replicate_2. lia.
    + replace q with (S (q - 1)) at 1 by lia.
      rewrite replicate_S_end, last_snoc. split; [f_equal; nia|nia].
  - rewrite length_app, length_replicate, sum_list_with_app,
      sum_list_replicate. simpl.
    split; [lia|]. split; [nia|]. split.
    + intros i Hi. rewrite lookup_app_l by (rewrite length_replicate; lia).
      apply lookup_replicate_2. lia.
    + rewrite last_snoc. replace (q + 1 - 1)%nat with q by lia.
      split; [f_equal; nia|nia].
Qed.

(** The partition covers the frame: with enough fuel the code returns the
    batches, and every row of the frame is in exactly one of them. *)
Lemma partition_covers (fuel : nat) df (B : Z) s :
  columns df ≠ [] → NoDup (index df) → 0 < B →
  (length (frame_rows df) ≤ fuel)%nat →
  ∃ s' batches,
    initialize_mini_batches fuel df B s = (s', Ok batches) ∧
    self s' = self s ∧
    concat (frame_rows <$> batches) ≡ₚ frame_rows df ∧
    (λ b, length (frame_rows b)) <$> batches =
      batch_sizes (Z.to_nat B) (length (frame_rows df)).
Proof.
  intros Hcols Hnd HB Hfuel.
  destruct (partition_loop fuel df B [] s Hcols Hnd HB Hfuel)
    as (s' & new & Hloop & Hself & _ & Hcat & Hsizes).
  by exists s', new.
Qed.

End Partition.

(** * A small network to run the code on *)

(** Integer entries, identity activations, and a squared-error loss
    derivative [a - t] with the target broadcast over the activation. *)
Definition ex_identity (a : ndarray Z) : ndarray Z := a.

Definition ex_loss_derv (a t : ndarray Z) : ndarray Z :=
  build (nrows a) (ncols a) (λ i j,
    item a i j - item t (broadcast_idx (nrows t) i) (broadcast_idx (ncols t) j)).

Definition ex_target_fit (c : Z) : ndarray Z := build 1 1 (λ _ _, c).

(** Initialisers in the manner of [np.zeros]: a size of 0 is accepted, a
    negative size is rejected. *)
Definition ex_weight_init (nout nin : Z) : outcome (ndarray Z) :=
  if decide (0 ≤ nout ∧ 0 ≤ nin) then
    Ok (build (Z.to_nat nout) (Z.to_nat nin)
          (λ i j, Z.of_nat i + 2 * Z.of_nat j + 1))
  else Raise ValueError.

Definition ex_bias_init (nout : Z) : outcome (ndarray Z) :=
  if decide (0 ≤ nout) then
    Ok (build (Z.to_nat nout) 1 (λ i _, Z.of_nat i - 1))
  else Raise ValueError.

(** The network that [__init__] builds for the layer sizes [2; 3; 1]. *)
Definition ex_net : MLP Z := {|
  activation := ex_identity;
  loss_derv := ex_loss_derv;
  activation_derv := ex_identity;
  output_activ := ex_identity;
  output_derv := ex_identity;
  target_fit := ex_target_fit;
  weight_init := ex_weight_init;
  bias_init := ex_bias_init;
  weights := [NdArray (3%nat, 2%nat) [[1; 3]; [2; 4]; [3; 5]];
              NdArray (1%nat, 3%nat) [[1; 3; 5]]];
  biases := [NdArray (3%nat, 1%nat) [[-1]; [0]; [1]];
             NdArray (1%nat, 1%nat) [[-1]]];
|}.

Definition ex_world : world Z := World ex_net [] [3; 1; 4; 1; 5]%nat.

(** Five examples with two features and a label. *)
Definition ex_data : DataFrame Z := {|
  columns := ["x"; "y"; "target"];
  frame_rows := [(0, [1; 2; 3]); (1, [0; 1; 1]); (2, [2; 2; 2]);
                 (3, [1; 1; 0]); (4, [5; 5; 5])];
|}.

(** A frame without rows. *)
Definition ex_no_data : DataFrame Z := {|
  columns := ["x"; "y"; "target"];
  frame_rows := [];
|}.

(** A frame in which two rows carry the index label 0, as frames have
    after [pd.concat] of two frames. *)
Definition ex_duplicated : DataFrame Z := {|
  columns := ["x"; "y"; "target"];
  frame_rows := [(0, [1; 2; 3]); (0, [0; 1; 1])];
|}.

(** A one-layer network over the rationals. *)
Definition exq_identity (a : ndarray Qc) : ndarray Qc := a.

Definition exq_loss_derv (a t : ndarray Qc) : ndarray Qc :=
  build (nrows a) (ncols a) (λ i j,
    (item a i j - item t (broadcast_idx (nrows t) i)
                         (broadcast_idx (ncols t) j))%Qc).

Definition exq_net : MLP Qc := {|
  activation := exq_identity;
  loss_derv := exq_loss_derv;
  activation_derv := exq_identity;
  output_activ := exq_identity;
  output_derv := exq_identity;
  target_fit := λ c, build 1 1 (λ _ _, c);
  weight_init := λ nout nin,
    Ok (build (Z.to_nat nout) (Z.to_nat nin) (λ _ _, 1%Qc));
  bias_init := λ nout, Ok (build (Z.to_nat nout) 1 (λ _ _, 0%Qc));
  weights := [build 1 2 (λ _ j, Q2Qc (inject_Z (Z.of_nat j + 1)))];
  biases := [build 1 1 (λ _ _, 0%Qc)];
|}.

Definition exq_world : world Qc := World exq_net [] [].

Definition exq_batch : DataFrame Qc := {|
  columns := ["x"; "y"; "target"];
  frame_rows :=
    [(0, [Q2Qc (inject_Z 1); Q2Qc (inject_Z 2); Q2Qc (inject_Z 3)]);
     (1, [Q2Qc (inject_Z 0); Q2Qc (inject_Z 1); Q2Qc (inject_Z 1)]);
     (2, [Q2Qc (inject_Z 2); Q2Qc (inject_Z 2); Q2Qc (inject_Z 2)])];
|}.

(** A one-layer network with one input and one output over [float64]: the
    weight is [1.0], the bias [0.0], the output is linear and the loss is
    the squared error, whose derivative is [a - t]. *)
Definition exf_identity (a : ndarray float) : ndarray float := a.

Definition exf_ones (z : ndarray float) : ndarray float :=
  build (nrows z) (ncols z) (λ _ _, 1%float).

Definition exf_loss_derv (a t : ndarray float) : ndarray float :=
  build (nrows a) (ncols a) (λ i j,
    (item a i j - item t (broadcast_idx (nrows t) i)
                         (broadcast_idx (ncols t) j))%float).

Definition exf_net : MLP float := {|
  activation := exf_identity;
  loss_derv := exf_loss_derv;
  activation_derv := exf_ones;
  output_activ := exf_identity;
  output_derv := exf_ones;
  target_fit := λ c, build 1 1 (λ _ _, c);
  weight_init := λ nout nin,
    Ok (build (Z.to_nat nout) (Z.to_nat nin) (λ _ _, 1%float));
  bias_init := λ nout, Ok (build (Z.to_nat nout) 1 (λ _ _, 0%float));
  weights := [build 1 1 (λ _ _, 1%float)];
  biases := [build 1 1 (λ _ _, 0%float)];
|}.

Definition exf_world : world float := World exf_net [] [].

(** One example: input [1.0], target [0.0]. *)
Definition exf_batch : DataFrame float := {|
  columns := ["x"; "target"];
  frame_rows := [(0, [1%float; 0%float])];
|}.

(** Two examples: inputs [1.0] and [2.0], targets [0.0] and [1.0]. *)
Definition exf_pair : DataFrame float := {|
  columns := ["x"; "target"];
  frame_rows := [(0, [1%float; 0%float]); (1, [2%float; 1%float])];
|}.

(** Initialisers over [float64] that accept every size: weights of ones
    and biases of zeros, of the shapes they are asked for. *)
Definition exf_weight_init (nout nin : Z) : outcome (ndarray float) :=
  Ok (build (Z.to_nat nout) (Z.to_nat nin) (λ _ _, 1%float)).

Definition exf_bias_init (nout : Z) : outcome (ndarray float) :=
  Ok (build (Z.to_nat nout) 1 (λ _ _, 0%float)).

(** An initialiser that ignores the sizes: one weight, whatever is asked
    for. *)
Definition exf_scalar_init (nout nin : Z) : outcome (ndarray float) :=
  Ok (build 1 1 (λ _ _, 1%float)).

(** The derivative [a - t] of the squared error as numpy computes it, the
    target broadcast against the activation; the shapes met below can
    always be broadcast. *)
Definition exf_difference (a t : ndarray float) : ndarray float :=
  match np_sub a t with
  | Ok d => d
  | _ => a
  end.

(** A target encoder for three classes: the one-hot column of the class. *)
Definition exf_one_hot (c : float) : ndarray float :=
  build 3 1 (λ i _,
    if PrimFloat.eqb c (float_of_int (Z.of_nat i)) then 1%float else 0%float).

(** One example with two features, of class [0.0]. *)
Definition exf_row : DataFrame float := {|
  columns := ["x"; "y"; "target"];
  frame_rows := [(0, [1%float; 1%float; 0%float])];
|}.

Lemma ex_net_layered : layered ex_net.
Proof. split; simpl; lia. Qed.

Lemma ex_net_built :
  __init__ [2; 3; 1] ex_identity ex_loss_derv ex_identity ex_identity
    ex_identity ex_target_fit ex_weight_init ex_bias_init = Ok ex_net.
Proof. reflexivity. Qed.

Lemma ex_shape_contract : shape_contract ex_net.
Proof.
  repeat split; try done.
  intros a c. simpl. unfold ex_loss_derv. by rewrite (shape_nrows_ncols a).
Qed.

Lemma ex_weight_init_shape (nout nin : Z) :
  0 < nout → 0 < nin →
  ∃ w, ex_weight_init nout nin = Ok w ∧
       shape w = (Z.to_nat nout, Z.to_nat nin).
Proof.
  intros Hout Hin. unfold ex_weight_init.
  rewrite decide_True by lia. eauto.
Qed.

Lemma ex_bias_init_shape (nout : Z) :
  0 < nout →
  ∃ b, ex_bias_init nout = Ok b ∧ shape b = (Z.to_nat nout, 1%nat).
Proof.
  intros Hout. unfold ex_bias_init. rewrite decide_True by lia. eauto.
Qed.

Lemma exf_weight_init_shape (nout nin : Z) :
  0 < nout → 0 < nin →
  ∃ w, exf_weight_init nout nin = Ok w ∧
       shape w = (Z.to_nat nout, Z.to_nat nin).
Proof. intros _ _. by eexists. Qed.

Lemma exf_bias_init_shape (nout : Z) :
  0 < nout →
  ∃ b, exf_bias_init nout = Ok b ∧ shape b = (Z.to_nat nout, 1%nat).
Proof. intros _. by eexists. Qed.

Example ex_feed_forward :
  feed_forward [1; 2] ex_world =
  (ex_world, Ok (NdArray (1%nat, 1%nat) [[105]])).
Proof. reflexivity. Qed.

Example ex_backward :
  backward [1; 2] (ex_target_fit 5) ex_world =
  (ex_world,
   Ok ([NdArray (3%nat, 2%nat)
          [[63000; 126000]; [315000; 630000]; [735000; 1470000]];
        NdArray (1%nat, 3%nat) [[63000; 105000; 147000]]],
       [NdArray (3%nat, 1%nat) [[63000]; [315000]; [735000]];
        NdArray (1%nat, 1%nat) [[10500]]])).
Proof. reflexivity. Qed.

Example ex_wrong_input_length :
  backward [1; 2; 3] (ex_target_fit 5) ex_world = (ex_world, Raise ValueError).
Proof. reflexivity. Qed.

(** * The properties of the specification *)

Section Claims.
Context {F : Type} `{Scalar F}.
Implicit Types (s : world F) (x : list F) (t : ndarray F).

(** C3. On a network with as many biases as weights and at least one layer,
    [feed_forward] returns what the forward recurrence of the specification
    gives ([evaluate]): the input as a column, then [Z = Weight[i]·A +
    Bias[i]] and [A = activation(Z)] for the layers below the last, and the
    output activation at the last layer only. [get_activations_and_zs]
    computes the same recurrence ([evaluateWithTrace]) and records every
    activation, the input first, and every pre-activation, in order. Both
    leave the world as it was, and fail together with the recurrence. When
    the shapes of the layers fit each other, the supplied functions keep
    shapes and the input has the length of the first layer, the recurrence
    does not fail. *)
Theorem forward_follows_recurrence s x :
  layered (self s) →
  feed_forward x s = (s, evaluate (self s) x) ∧
  get_activations_and_zs x s = (s, evaluateWithTrace (self s) x) ∧
  (∀ activs zs,
     evaluateWithTrace (self s) x = Ok (activs, zs) →
     trace_entries (self s) x activs zs ∧
     ∃ a, activs !! length (weights (self s)) = Some a ∧
          evaluate (self s) x = Ok a) ∧
  (chained (self s) → shape_contract (self s) → input_fits (self s) x →
   is_ok (evaluate (self s) x) ∧ is_ok (evaluateWithTrace (self s) x)).
Proof.
  intros Hnet. split; [by apply feed_forward_spec|].
  split; [by apply get_activations_and_zs_spec|]. split.
  - intros activs zs Htrace. split; [by apply evaluateWithTrace_entries|].
    destruct (evaluateWithTrace_lookup _ _ _ _ Htrace) as (Hla & _ & Ha & _).
    destruct (lookup_lt_is_Some_2 activs (length (weights (self s))))
      as [a Hia]; [lia|].
    exists a. split; [done|]. by apply Ha.
  - intros Hchain Hc Hx.
    pose proof (evaluate_ok_shaped (self s) x Hchain Hc Hx) as Hok.
    split; [done|]. by rewrite evaluateWithTrace_ok.
Qed.

(** C1. On such a network, [backward] returns the gradients of the
    backpropagation recurrence of the specification ([backpropagate]), and
    fails when the recurrence does. In a successful run the last bias
    gradient is the output error signal [lossDerivative(Activations[L],
    target) ⊙ outputDerivative(PreActivations[L-1])]; for every layer [i]
    below, the bias gradient is [(Weight[i+1]ᵗ · δ) ⊙
    activationDerivative(PreActivations[i])] for the signal [δ] of layer
    [i+1]; and every weight gradient is the product of the layer's signal
    with [Activations[i]ᵗ]. When the shapes of the layers fit each other,
    the supplied functions keep shapes, the input has the length of the
    first layer and the target is an encoded label, the run is successful
    and every gradient has the shape of its parameter. *)
Theorem backward_follows_backpropagation s x t :
  layered (self s) →
  backward x t s = (s, backpropagate (self s) x t) ∧
  (∀ wg bg,
     backpropagate (self s) x t = Ok (wg, bg) →
     gradient_entries (self s) x t wg bg) ∧
  (∀ c, t = target_fit (self s) c →
     chained (self s) → shape_contract (self s) → input_fits (self s) x →
     ∃ wg bg,
       backpropagate (self s) x t = Ok (wg, bg) ∧
       Forall2 (λ p g, shape g = shape p) (weights (self s)) wg ∧
       Forall2 (λ p g, shape g = shape p) (biases (self s)) bg).
Proof.
  intros Hnet. split; [by apply backward_spec|]. split.
  - intros wg bg Hg. apply backpropagate_entries; [apply Hnet|done].
  - intros c -> Hchain Hc Hx. by apply backpropagate_ok_shaped.
Qed.

(** C8. [feed_forward], [get_activations_and_zs], [backward] and [predict]
    hand back the world they were given: no weight, no bias, nothing else
    changes, whatever they return. Partitioning the data into mini-batches
    leaves the object alone as well, so within [train] the object changes
    in [process_batch] only. *)
Theorem forward_backward_predict_change_nothing
    s x t (X : DataFrame F) (fuel : nat) (B : Z) :
  (feed_forward x s).1 = s ∧
  (get_activations_and_zs x s).1 = s ∧
  (backward x t s).1 = s ∧
  (predict X s).1 = s ∧
  self (initialize_mini_batches fuel X B s).1 = self s.
Proof.
  split; [apply feed_forward_read_only|].
  split; [apply get_activations_and_zs_read_only|].
  split; [apply backward_read_only|].
  split; [apply predict_read_only|].
  apply initialize_mini_batches_loop_frame.
Qed.

(** C2. On such a network, [process_batch] computes the accumulated
    gradient of the batch ([AccumulatedGradient]): for every weight and
    every bias, zeros of its shape to which the gradient of the
    backpropagation recurrence for that layer is added for each example of
    the batch in turn, every gradient taken at the parameters the batch
    started with. It then replaces every weight and every bias [p] by
    [p - learning_rate * g / n] for its accumulated gradient [g] and the
    number [n] of examples. When a gradient cannot be computed or added,
    the exception leaves the world as it was. When the shapes of the
    layers fit each other, the supplied functions keep shapes, the batch
    has the class column and every example has the length of the first
    layer, the gradients can be computed and the update takes place. *)
Theorem process_batch_is_mean_gradient_step
    s (batch : DataFrame F) (c : string) (lr : F) :
  layered (self s) →
  (∀ examples,
     chained (self s) → shape_contract (self s) →
     batch_examples (self s) batch c = Ok examples →
     Forall (λ e : list F * ndarray F, input_fits (self s) e.1) examples →
     is_ok (AccumulatedGradient (self s) batch c)) ∧
  match AccumulatedGradient (self s) batch c with
  | Ok g =>
      ∃ W' B',
        process_batch batch c lr s =
          (World (set_biases B' (set_weights W' (self s)))
             (stdout s) (random_state s), Ok ()) ∧
        Forall3 (λ p a p',
                   np_sub p (np_div_int (np_scale lr a) (df_len batch)) = Ok p')
          (weights (self s)) g.1 W' ∧
        Forall3 (λ p a p',
                   np_sub p (np_div_int (np_scale lr a) (df_len batch)) = Ok p')
          (biases (self s)) g.2 B'
  | Raise e => process_batch batch c lr s = (s, Raise e)
  | OutOfFuel => process_batch batch c lr s = (s, OutOfFuel)
  end.
Proof.
  intros Hnet.
  rewrite <- (BatchGradient_accumulated (self s) batch c Hnet). split.
  { intros examples Hchain Hc Hex Hfit. by eapply BatchGradient_ok_shaped. }
  rewrite process_batch_run by done. unfold MiniBatchUpdate.
  pose proof (BatchGradient_absorbed (self s) batch c) as Habs.
  destruct (BatchGradient (self s) batch c) as [g| |]; try done.
  destruct (MeanGradientStep_ok lr (df_len batch) (self s) g)
    as (W' & B' & Hstep & _ & _ & HW & HB); [by apply Habs|].
  exists W', B'. cbn [mbind outcome_bind]. by rewrite Hstep.
Qed.

(** C10. For a frame without rows, [train] finds no batch in any epoch: it
    raises nothing, changes neither the object nor the random stream, and
    prints the completion line of each of the [E] epochs, for every batch
    size and every fuel. *)
Theorem train_on_empty_data
    s (fuel : nat) (df : DataFrame F) (E B : Z) (lr : F) (c : string) :
  frame_rows df = [] → 0 ≤ E →
  train fuel df E B lr c s =
    (World (self s) (stdout s ++ (epoch_line <$> range E)) (random_state s),
     Ok ()) ∧
  length (epoch_line <$> range E) = Z.to_nat E.
Proof.
  intros Hrows HE. split.
  - rewrite train_unfold. apply epochs_without_batches.
    unfold df_empty. rewrite Hrows. by apply bool_decide_eq_true_2; left.
  - unfold range. rewrite length_fmap, length_seqZ. done.
Qed.

End Claims.

Lemma forward_follows_recurrence_witness :
  feed_forward [1; 2] ex_world = (ex_world, evaluate (self ex_world) [1; 2]) ∧
  get_activations_and_zs [1; 2] ex_world =
    (ex_world, evaluateWithTrace (self ex_world) [1; 2]) ∧
  (∀ activs zs,
     evaluateWithTrace (self ex_world) [1; 2] = Ok (activs, zs) →
     trace_entries (self ex_world) [1; 2] activs zs ∧
     ∃ a, activs !! length (weights (self ex_world)) = Some a ∧
          evaluate (self ex_world) [1; 2] = Ok a) ∧
  (chained (self ex_world) → shape_contract (self ex_world) →
   input_fits (self ex_world) [1; 2] →
   is_ok (evaluate (self ex_world) [1; 2]) ∧
   is_ok (evaluateWithTrace (self ex_world) [1; 2])).
Proof.
  apply (forward_follows_recurrence ex_world [1; 2]).
  split; simpl; lia.
Defined.

Lemma backward_follows_backpropagation_witness :
  backward [1; 2] (ex_target_fit 5) ex_world =
    (ex_world, backpropagate (self ex_world) [1; 2] (ex_target_fit 5)) ∧
  (∀ wg bg,
     backpropagate (self ex_world) [1; 2] (ex_target_fit 5) = Ok (wg, bg) →
     gradient_entries (self ex_world) [1; 2] (ex_target_fit 5) wg bg) ∧
  (∀ c, ex_target_fit 5 = target_fit (self ex_world) c →
     chained (self ex_world) → shape_contract (self ex_world) →
     input_fits (self ex_world) [1; 2] →
     ∃ wg bg,
       backpropagate (self ex_world) [1; 2] (ex_target_fit 5) = Ok (wg, bg) ∧
       Forall2 (λ p g, shape g = shape p) (weights (self ex_world)) wg ∧
       Forall2 (λ p g, shape g = shape p) (biases (self ex_world)) bg).
Proof.
  apply (backward_follows_backpropagation ex_world [1; 2] (ex_target_fit 5)).
  split; simpl; lia.
Defined.

Lemma process_batch_is_mean_gradient_step_witness :
  (∀ examples,
     chained (self exf_world) → shape_contract (self exf_world) →
     batch_examples (self exf_world) exf_pair "target" = Ok examples →
     Forall (λ e : list float * ndarray float, input_fits (self exf_world) e.1)
       examples →
     is_ok (AccumulatedGradient (self exf_world) exf_pair "target")) ∧
  match AccumulatedGradient (self exf_world) exf_pair "target" with
  | Ok g =>
      ∃ W' B',
        process_batch exf_pair "target" 0.5%float exf_world =
          (World (set_biases B' (set_weights W' (self exf_world)))
             (stdout exf_world) (random_state exf_world), Ok ()) ∧
        Forall3 (λ p a p',
                   np_sub p (np_div_int (np_scale 0.5%float a) (df_len exf_pair))
                   = Ok p')
          (weights (self exf_world)) g.1 W' ∧
        Forall3 (λ p a p',
                   np_sub p (np_div_int (np_scale 0.5%float a) (df_len exf_pair))
                   = Ok p')
          (biases (self exf_world)) g.2 B'
  | Raise e =>
      process_batch exf_pair "target" 0.5%float exf_world = (exf_world, Raise e)
  | OutOfFuel =>
      process_batch exf_pair "target" 0.5%float exf_world = (exf_world, OutOfFuel)
  end.
Proof.
  apply (process_batch_is_mean_gradient_step exf_world exf_pair "target"
           0.5%float).
  split; simpl; lia.
Defined.

(** The run of the witness: the gradients [1.0] and [2.0] of the two
    examples add up to [3.0], and the weight [1.0] becomes
    [1.0 - 0.5 * 3.0 / 2 = 0.25]. *)
Example exf_pair_update :
  AccumulatedGradient (self exf_world) exf_pair "target" =
    Ok ([build 1 1 (λ _ _, 3%float)], [build 1 1 (λ _ _, 2%float)]) ∧
  (process_batch exf_pair "target" 0.5%float exf_world).2 = Ok () ∧
  weights (self (process_batch exf_pair "target" 0.5%float exf_world).1) =
    [build 1 1 (λ _ _, 0.25%float)] ∧
  biases (self (process_batch exf_pair "target" 0.5%float exf_world).1) =
    [build 1 1 (λ _ _, (-0.5)%float)].
Proof. by vm_compute. Qed.

Lemma train_on_empty_data_witness :
  train 0 ex_no_data 3 2 1 "target" ex_world =
    (World (self ex_world) (stdout ex_world ++ (epoch_line <$> range 3))
       (random_state ex_world), Ok ()) ∧
  length (epoch_line <$> range 3) = Z.to_nat 3.
Proof.
  apply (train_on_empty_data ex_world 0 ex_no_data 3 2 1 "target").
  - reflexivity.
  - lia.
Defined.

Section ClaimLinearity.
Context {F : Type} `{Scalar F}.


End ClaimLinearity.


(** At the learning rates [0.25] and [0.5] nothing rounds in this run,
    and the delta doubles. *)
Example update_doubles_without_rounding :
  let r := 0.25%float in
  Forall3 (λ p p1 p2,
             ∃ d1 d2, np_sub p1 p = Ok d1 ∧ np_sub p2 p = Ok d2 ∧
                      np_add d1 d1 = Ok d2)
    (weights (self exf_world))
    (weights (self (process_batch exf_pair "target" r exf_world).1))
    (weights (self (process_batch exf_pair "target" (s_add r r) exf_world).1)).
Proof.
  intros r. vm_compute. constructor; [|constructor].
  eexists _, _. split; [reflexivity|]. split; [reflexivity|]. reflexivity.
Qed.

(** Over the rationals nothing rounds, and the delta doubles at every
    learning rate. *)
Example rational_update_doubles :
  let r : Qc := Q2Qc (1 # 10) in
  (process_batch exq_batch "target" (s_add r r) exq_world).2 = Ok () ∧
  Forall3 (λ p p1 p2,
             ∃ d1 d2, np_sub p1 p = Ok d1 ∧ np_sub p2 p = Ok d2 ∧
                      np_add d1 d1 = Ok d2)
    (weights (self exq_world))
    (weights (self (process_batch exq_batch "target" r exq_world).1))
    (weights (self (process_batch exq_batch "target" (s_add r r) exq_world).1)) ∧
  Forall3 (λ p p1 p2,
             ∃ d1 d2, np_sub p1 p = Ok d1 ∧ np_sub p2 p = Ok d2 ∧
                      np_add d1 d1 = Ok d2)
    (biases (self exq_world))
    (biases (self (process_batch exq_batch "target" r exq_world).1))
    (biases (self (process_batch exq_batch "target" (s_add r r) exq_world).1)).
Proof.
  intros r.
  apply (@exact_update_doubles Qc Qc_scalar 1%Qc Qcopp Qcinv Qcft
           exq_world exq_batch "target" r).
  - split; simpl; lia.
  - vm_compute. reflexivity.
Qed.


(** ** The shapes of the parameters after an update *)

Section UpdatedShapes.
Context {F : Type} `{Scalar F}.
Implicit Types (net : MLP F) (s : world F) (sizes : list Z).

(** An updated parameter has the shape of its accumulated gradient. *)
Lemma absorbs_step_shape (lr : F) (n : Z) (p a p' : ndarray F) :
  absorbs (shape p) (shape a) →
  np_sub p (np_div_int (np_scale lr a) n) = Ok p' → shape p' = shape a.
Proof.
  intros [H1 H2] [Hr Hc]%broadcast_shape.
  change (nrows (np_div_int _ _)) with (nrows a) in Hr.
  change (ncols (np_div_int _ _)) with (ncols a) in Hc.
  rewrite (shape_nrows_ncols p'), (shape_nrows_ncols a).
  unfold broadcast_dim, nrows, ncols in *.
  repeat case_decide; simplify_eq; f_equal; lia.
Qed.

Lemma descend_step_shapes (lr : F) (n : Z) (P G P' : list (ndarray F)) :
  Forall2 (λ p a, absorbs (shape p) (shape a)) P G →
  Forall3 (λ p a p', np_sub p (np_div_int (np_scale lr a) n) = Ok p') P G P' →
  Forall2 (λ a p', shape p' = shape a) G P'.
Proof.
  intros Habs Hstep. revert Habs.
  induction Hstep as [|p a p' P G P' Hp Hstep IH]; intros Habs;
    inversion Habs; subst; constructor.
  - by eapply absorbs_step_shape.
  - by apply IH.
Qed.

(** Two networks of the shapes of [sizes] have parameters of the same
    shapes. *)
Lemma has_shapes_same sizes net net' :
  has_shapes sizes net → has_shapes sizes net' →
  Forall2 (λ p p', shape p' = shape p) (weights net) (weights net') ∧
  Forall2 (λ p p', shape p' = shape p) (biases net) (biases net').
Proof.
  intros (Hlw & Hlb & Hw & Hb) (Hlw' & Hlb' & Hw' & Hb'). split.
  - apply Forall2_same_length_lookup_2; [lia|].
    intros i w w' Hi Hi'.
    destruct (Hw _ _ Hi) as (nin & nout & Hin & Hout & ->).
    destruct (Hw' _ _ Hi') as (nin' & nout' & Hin' & Hout' & ->).
    congruence.
  - apply Forall2_same_length_lookup_2; [lia|].
    intros i b b' Hi Hi'.
    destruct (Hb _ _ Hi) as (nout & Hout & ->).
    destruct (Hb' _ _ Hi') as (nout' & Hout' & ->).
    congruence.
Qed.

Lemma same_shapes_via (P G P' : list (ndarray F)) :
  Forall2 (λ a p', shape p' = shape a) G P' →
  Forall2 (λ p p', shape p' = shape p) P P' ↔
  Forall2 (λ p a, shape a = shape p) P G.
Proof.
  intros HG. revert P.
  induction HG as [|a p' G P' Hs HG IH]; intros [|p P]; split; intros HP;
    inversion HP; subst; constructor; try congruence; by apply IH.
Qed.

(** What a mini-batch update does to the counts and shapes. *)
Lemma process_batch_shapes sizes s (batch : DataFrame F) (c : string) (lr : F) :
  (2 ≤ length sizes)%nat → has_shapes sizes (self s) →
  length (weights (self (process_batch batch c lr s).1)) = (length sizes - 1)%nat ∧
  length (biases (self (process_batch batch c lr s).1)) = (length sizes - 1)%nat ∧
  match AccumulatedGradient (self s) batch c with
  | Ok g =>
      Forall2 (λ a p', shape p' = shape a) g.1
        (weights (self (process_batch batch c lr s).1)) ∧
      Forall2 (λ a p', shape p' = shape a) g.2
        (biases (self (process_batch batch c lr s).1)) ∧
      (has_shapes sizes (self (process_batch batch c lr s).1) ↔
         Forall2 (λ p a, shape a = shape p) (weights (self s)) g.1 ∧
         Forall2 (λ p a, shape a = shape p) (biases (self s)) g.2)
  | _ => self (process_batch batch c lr s).1 = self s
  end.
Proof.
  intros Hlen Hs.
  pose proof (has_shapes_chained sizes (self s) Hlen Hs) as [Hnet _].
  pose proof Hs as (Hlw & Hlb & _).
  rewrite <- (BatchGradient_accumulated (self s) batch c Hnet).
  rewrite process_batch_run by done. unfold MiniBatchUpdate.
  pose proof (BatchGradient_absorbed (self s) batch c) as Habs.
  destruct (BatchGradient (self s) batch c) as [g| |]; try done.
  destruct (Habs g Hnet eq_refl) as [HabsW HabsB].
  destruct (MeanGradientStep_ok lr (df_len batch) (self s) g)
    as (W' & B' & Hstep & _ & _ & HW & HB); [done|].
  cbn [mbind outcome_bind]. rewrite Hstep. simpl.
  pose proof (descend_step_shapes _ _ _ _ _ HabsW HW) as HsW.
  pose proof (descend_step_shapes _ _ _ _ _ HabsB HB) as HsB.
  pose proof (Forall2_length _ _ _ HsW) as HlW.
  pose proof (Forall2_length _ _ _ HsB) as HlB.
  pose proof (Forall2_length _ _ _ HabsW) as HlgW.
  pose proof (Forall2_length _ _ _ HabsB) as HlgB.
  split; [lia|]. split; [lia|]. split; [done|]. split; [done|].
  rewrite <- (same_shapes_via (weights (self s)) g.1 W' HsW).
  rewrite <- (same_shapes_via (biases (self s)) g.2 B' HsB).
  split.
  - intros Hs'. apply (has_shapes_same sizes _ _ Hs Hs').
  - intros [HWs HBs]. eapply has_shapes_shaped_like; [exact Hs|].
    repeat split; done.
Qed.

End UpdatedShapes.

(** ** Construction and training do not validate their arguments *)

Section ClaimsValidation.
Context {F : Type} `{Scalar F}.
Implicit Types (s : world F) (df : DataFrame F) (sizes : list Z).

Lemma init_ok_inv sizes act ld ad out od tf
    (w_init : Z → Z → outcome (ndarray F)) (b_init : Z → outcome (ndarray F))
    (net : MLP F) :
  __init__ sizes act ld ad out od tf w_init b_init = Ok net →
  ∀ i nin nout, sizes !! i = Some nin → sizes !! S i = Some nout →
                is_ok (w_init nout nin) ∧ is_ok (b_init nout).
Proof.
  unfold __init__, __init_weights, __init_biases.
  destruct (mapM _ (zip _ _)) as [ws| |] eqn:Hws; try done. simpl.
  destruct (mapM b_init _) as [bs| |] eqn:Hbs; try done. simpl.
  intros _ i nin nout Hin Hout. split.
  - destruct (mapM_outcome_lookup _ _ _ i (nout, nin) Hws) as (w & _ & Hw).
    { rewrite layer_pairs_lookup, Hout, Hin. done. }
    simpl in Hw. by rewrite Hw.
  - destruct (mapM_outcome_lookup _ _ _ i nout Hbs) as (b & _ & Hb).
    { by rewrite lookup_drop. }
    by rewrite Hb.
Qed.

(** C5, as the code has it. [__init__] checks nothing about the layer
    sizes. With fewer than two sizes it returns a network without layers
    and calls no initialiser. For every sequence it succeeds exactly when
    every call [weight_init(sizes[i+1], sizes[i])] and
    [bias_init(sizes[i+1])] succeeds, whatever the sign of the sizes, and
    the network then holds the results of these calls, one weight matrix
    and one bias vector per consecutive pair of sizes. *)
Theorem construction_checks_no_size sizes act ld ad out od tf
    (w_init : Z → Z → outcome (ndarray F)) (b_init : Z → outcome (ndarray F)) :
  ((length sizes < 2)%nat →
     ∃ net, __init__ sizes act ld ad out od tf w_init b_init = Ok net ∧
            weights net = [] ∧ biases net = []) ∧
  (is_ok (__init__ sizes act ld ad out od tf w_init b_init) ↔
     ∀ i nin nout, sizes !! i = Some nin → sizes !! S i = Some nout →
                   is_ok (w_init nout nin) ∧ is_ok (b_init nout)) ∧
  (∀ net, __init__ sizes act ld ad out od tf w_init b_init = Ok net →
     length (weights net) = (length sizes - 1)%nat ∧
     length (biases net) = (length sizes - 1)%nat ∧
     ∀ i nin nout, sizes !! i = Some nin → sizes !! S i = Some nout →
       ∃ w b, weights net !! i = Some w ∧ w_init nout nin = Ok w ∧
              biases net !! i = Some b ∧ b_init nout = Ok b).
Proof.
  split; [apply init_no_layers|]. split; [split|].
  - destruct (__init__ _ _ _ _ _ _ _ _ _) as [net| |] eqn:Hnet; try done.
    intros _. by eapply init_ok_inv.
  - intros Hok.
    destruct (init_run sizes act ld ad out od tf w_init b_init Hok)
      as (net & -> & _). done.
  - intros net Hnet.
    destruct (init_run sizes act ld ad out od tf w_init b_init)
      as (net' & Hnet' & Hlw & Hlb & Hlayers & _).
    { by eapply init_ok_inv. }
    assert (net' = net) as -> by congruence. done.
Qed.

Lemma train_no_epochs fuel df (E B : Z) (lr : F) c s :
  E ≤ 0 → train fuel df E B lr c s = (s, Ok ()).
Proof.
  intros HE. rewrite train_unfold. unfold range.
  by rewrite seqZ_nil by lia.
Qed.

Lemma train_negative_batch_size fuel df (E B : Z) (lr : F) c s :
  df_empty df = false → 0 < E → B < 0 →
  train (S fuel) df E B lr c s = (s, Raise ValueError).
Proof.
  intros He HE HB. rewrite train_unfold. unfold range.
  rewrite seqZ_cons by lia. rewrite for_each_cons, bind_run.
  unfold epoch_body at 1.
  by rewrite bind_run, initialize_mini_batches_negative.
Qed.

(** With a batch size of 0 the partition of a non-empty frame does not
    come to an end: every amount of fuel runs out. *)
Lemma train_zero_batch_size fuel df (E : Z) (lr : F) c s :
  df_empty df = false → 0 < E →
  train fuel df E 0 lr c s = (s, OutOfFuel).
Proof.
  intros He HE. rewrite train_unfold. unfold range.
  rewrite seqZ_cons by lia. rewrite for_each_cons, bind_run.
  unfold epoch_body at 1. unfold initialize_mini_batches.
  by rewrite bind_run, initialize_mini_batches_loop_zero.
Qed.

(** C6, as the code has it. [train] checks nothing about the batch size.
    On a non-empty frame with at least one epoch, a negative batch size
    makes the first sampling raise [ValueError], which reaches the caller
    of [train] with the world unchanged: no parameter updated, nothing
    printed. On an empty frame, or with no epoch to run, [train] returns
    normally whatever the batch size is. *)
Theorem train_checks_no_batch_size
    fuel df (E B : Z) (lr : F) (c : string) s :
  (df_empty df = false → 0 < E → B < 0 →
     train (S fuel) df E B lr c s = (s, Raise ValueError)) ∧
  (df_empty df = true →
     train fuel df E B lr c s =
       (World (self s) (stdout s ++ (epoch_line <$> range E))
          (random_state s), Ok ())) ∧
  (E ≤ 0 → train fuel df E B lr c s = (s, Ok ())).
Proof.
  split; [apply train_negative_batch_size|].
  split; [|apply train_no_epochs].
  intros He. rewrite train_unfold. by apply epochs_without_batches.
Qed.

(** C7, as the code has it. For layer sizes of length [L+1 ≥ 2], all
    positive, and initialisers that return the shapes they are asked for,
    [__init__] returns a network with [L] weight matrices and [L] bias
    vectors, [Weight[i]] of shape [LayerSizes[i+1] × LayerSizes[i]] and
    [Bias[i]] a column of [LayerSizes[i+1]] entries. On a network of these
    shapes the forward pass, the backward pass and prediction keep the
    counts and shapes whatever they are called with and whatever they
    return, for they change nothing. The update of a mini-batch keeps the
    counts. When it raises, it changes nothing. When it goes through,
    every weight and every bias gets the shape of its accumulated
    gradient, so that the shapes are kept exactly when every accumulated
    gradient has the shape of its parameter. This is the case, for the
    update of a mini-batch and for a whole run of [train], as long as the
    supplied functions keep shapes. *)
Theorem shapes_hold_for_life sizes act ld ad out od tf
    (w_init : Z → Z → outcome (ndarray F)) (b_init : Z → outcome (ndarray F)) :
  (2 ≤ length sizes)%nat →
  Forall (λ n, 0 < n) sizes →
  (∀ nout nin, 0 < nout → 0 < nin →
     ∃ w, w_init nout nin = Ok w ∧ shape w = (Z.to_nat nout, Z.to_nat nin)) →
  (∀ nout, 0 < nout →
     ∃ b, b_init nout = Ok b ∧ shape b = (Z.to_nat nout, 1%nat)) →
  (∃ net, __init__ sizes act ld ad out od tf w_init b_init = Ok net ∧
          has_shapes sizes net) ∧
  ∀ s, has_shapes sizes (self s) →
    ∀ (x : list F) (t : ndarray F) (batch : DataFrame F) (c : string)
      (lr : F) (fuel : nat) (E B : Z),
      has_shapes sizes (self (feed_forward x s).1) ∧
      has_shapes sizes (self (get_activations_and_zs x s).1) ∧
      has_shapes sizes (self (backward x t s).1) ∧
      has_shapes sizes (self (predict batch s).1) ∧
      length (weights (self (process_batch batch c lr s).1)) =
        (length sizes - 1)%nat ∧
      length (biases (self (process_batch batch c lr s).1)) =
        (length sizes - 1)%nat ∧
      match AccumulatedGradient (self s) batch c with
      | Ok g =>
          Forall2 (λ a p', shape p' = shape a) g.1
            (weights (self (process_batch batch c lr s).1)) ∧
          Forall2 (λ a p', shape p' = shape a) g.2
            (biases (self (process_batch batch c lr s).1)) ∧
          (has_shapes sizes (self (process_batch batch c lr s).1) ↔
             Forall2 (λ p a, shape a = shape p) (weights (self s)) g.1 ∧
             Forall2 (λ p a, shape a = shape p) (biases (self s)) g.2)
      | _ => self (process_batch batch c lr s).1 = self s
      end ∧
      (shape_contract (self s) →
         has_shapes sizes (self (process_batch batch c lr s).1) ∧
         has_shapes sizes (self (train fuel batch E B lr c s).1)).
Proof.
  intros Hlen Hpos Hw Hb. split.
  - destruct (init_has_shapes sizes act ld ad out od tf w_init b_init
                Hpos Hw Hb) as (net & Hnet & Hshapes & _).
    by exists net.
  - intros s Hs x t batch c lr fuel E B.
    pose proof (has_shapes_chained sizes (self s) Hlen Hs) as Hchain.
    rewrite feed_forward_read_only, get_activations_and_zs_read_only,
      backward_read_only, predict_read_only.
    do 4 (split; [done|]).
    destruct (process_batch_shapes sizes s batch c lr Hlen Hs)
      as (Hlw & Hlb & Hupdate).
    do 3 (split; [done|]).
    intros Hc. split.
    + eapply has_shapes_shaped_like; [exact Hs|].
      by apply process_batch_shaped.
    + eapply has_shapes_shaped_like; [exact Hs|].
      by apply train_shaped.
Qed.

End ClaimsValidation.

Lemma construction_checks_no_size_witness :
  ∃ net,
    __init__ [3] ex_identity ex_loss_derv ex_identity ex_identity
      ex_identity ex_target_fit ex_weight_init ex_bias_init = Ok net ∧
    weights net = [] ∧ biases net = [].
Proof.
  apply (construction_checks_no_size [3] ex_identity ex_loss_derv ex_identity
           ex_identity ex_identity ex_target_fit ex_weight_init ex_bias_init).
  simpl. lia.
Defined.

(** Construction from no sizes, from one size and from sizes with a zero
    all return a network. *)
Lemma construction_accepts_invalid_sizes :
  is_ok (__init__ [] ex_identity ex_loss_derv ex_identity ex_identity
           ex_identity ex_target_fit ex_weight_init ex_bias_init) ∧
  is_ok (__init__ [3] ex_identity ex_loss_derv ex_identity ex_identity
           ex_identity ex_target_fit ex_weight_init ex_bias_init) ∧
  is_ok (__init__ [2; 0; 1] ex_identity ex_loss_derv ex_identity ex_identity
           ex_identity ex_target_fit ex_weight_init ex_bias_init).
Proof. by vm_compute. Qed.

Lemma train_checks_no_batch_size_witness :
  train 1 ex_data 2 (-4) 1 "target" ex_world = (ex_world, Raise ValueError).
Proof.
  apply (train_checks_no_batch_size 0 ex_data 2 (-4) 1 "target" ex_world).
  - reflexivity.
  - lia.
  - lia.
Defined.

(** [train] with a non-positive batch size returns normally on an empty
    frame, and with batch size 0 on a non-empty frame it is still
    partitioning after 100 rounds. *)
Lemma train_accepts_nonpositive_batch_size :
  (train 5 ex_no_data 1 (-1) 1 "target" ex_world).2 = Ok () ∧
  (train 5 ex_no_data 1 0 1 "target" ex_world).2 = Ok () ∧
  (train 100 ex_data 1 0 1 "target" ex_world).2 = OutOfFuel.
Proof. by vm_compute. Qed.

Lemma shapes_hold_for_life_witness :
  (∃ net, __init__ [2; 3; 1] exf_identity exf_loss_derv exf_ones exf_identity
            exf_ones (λ c, build 1 1 (λ _ _, c)) exf_weight_init exf_bias_init
          = Ok net ∧
          has_shapes [2; 3; 1] net) ∧
  ∀ s, has_shapes [2; 3; 1] (self s) →
    ∀ (x : list float) (t : ndarray float) (batch : DataFrame float)
      (c : string) (lr : float) (fuel : nat) (E B : Z),
      has_shapes [2; 3; 1] (self (feed_forward x s).1) ∧
      has_shapes [2; 3; 1] (self (get_activations_and_zs x s).1) ∧
      has_shapes [2; 3; 1] (self (backward x t s).1) ∧
      has_shapes [2; 3; 1] (self (predict batch s).1) ∧
      length (weights (self (process_batch batch c lr s).1)) =
        (length [2; 3; 1] - 1)%nat ∧
      length (biases (self (process_batch batch c lr s).1)) =
        (length [2; 3; 1] - 1)%nat ∧
      match AccumulatedGradient (self s) batch c with
      | Ok g =>
          Forall2 (λ a p', shape p' = shape a) g.1
            (weights (self (process_batch batch c lr s).1)) ∧
          Forall2 (λ a p', shape p' = shape a) g.2
            (biases (self (process_batch batch c lr s).1)) ∧
          (has_shapes [2; 3; 1] (self (process_batch batch c lr s).1) ↔
             Forall2 (λ p a, shape a = shape p) (weights (self s)) g.1 ∧
             Forall2 (λ p a, shape a = shape p) (biases (self s)) g.2)
      | _ => self (process_batch batch c lr s).1 = self s
      end ∧
      (shape_contract (self s) →
         has_shapes [2; 3; 1] (self (process_batch batch c lr s).1) ∧
         has_shapes [2; 3; 1] (self (train fuel batch E B lr c s).1)).
Proof.
  apply (shapes_hold_for_life [2; 3; 1] exf_identity exf_loss_derv exf_ones
           exf_identity exf_ones (λ c, build 1 1 (λ _ _, c))
           exf_weight_init exf_bias_init).
  - simpl. lia.
  - repeat constructor.
  - apply exf_weight_init_shape.
  - apply exf_bias_init_shape.
Defined.

Lemma has_shapes_first {F : Type} `{Scalar F} (sizes : list Z) (net : MLP F)
    (w : ndarray F) (nin nout : Z) :
  has_shapes sizes net → weights net !! 0%nat = Some w →
  sizes !! 0%nat = Some nin → sizes !! 1%nat = Some nout →
  shape w = (Z.to_nat nout, Z.to_nat nin).
Proof.
  intros (_ & _ & Hw & _) Hw0 Hin Hout.
  destruct (Hw _ _ Hw0) as (nin' & nout' & Hin' & Hout' & Hs). congruence.
Qed.

(** Nothing in the class checks a shape, and numpy broadcasts. The layer
    sizes [2; 1] with initialisers that return the shapes they are asked
    for give a weight of shape [(1, 2)] and a bias of shape [(1, 1)]. With
    a target encoder that returns three entries, the loss derivative
    [a - t] has shape [(3, 1)], the gradients have shapes [(3, 2)] and
    [(3, 1)], and one call of [process_batch] returns normally and leaves
    a weight of shape [(3, 2)] and a bias of shape [(3, 1)]. With an
    initialiser that ignores the sizes, the constructed network has a
    weight of shape [(1, 1)] from the start. *)
Lemma update_changes_the_shapes :
  let sizes := [2; 1] in
  (∃ net,
     __init__ sizes exf_identity exf_difference exf_ones exf_identity
       exf_ones exf_one_hot exf_weight_init exf_bias_init = Ok net ∧
     has_shapes sizes net ∧
     (∃ g, AccumulatedGradient net exf_row "target" = Ok g ∧
           shape <$> g.1 = [(3%nat, 2%nat)] ∧
           shape <$> g.2 = [(3%nat, 1%nat)]) ∧
     let s' := (process_batch exf_row "target" 0.5%float (World net [] [])).1 in
     (process_batch exf_row "target" 0.5%float (World net [] [])).2 = Ok () ∧
     shape <$> weights (self s') = [(3%nat, 2%nat)] ∧
     shape <$> biases (self s') = [(3%nat, 1%nat)] ∧
     ¬ has_shapes sizes (self s')) ∧
  (∃ net,
     __init__ sizes exf_identity exf_difference exf_ones exf_identity
       exf_ones exf_one_hot exf_scalar_init exf_bias_init = Ok net ∧
     shape <$> weights net = [(1%nat, 1%nat)] ∧
     ¬ has_shapes sizes net).
Proof.
  intros sizes. split.
  - destruct (init_has_shapes sizes exf_identity exf_difference exf_ones
                exf_identity exf_ones exf_one_hot exf_weight_init exf_bias_init)
      as (net & Hnet & Hshapes & _).
    { repeat constructor. }
    { apply exf_weight_init_shape. }
    { apply exf_bias_init_shape. }
    exists net. split; [done|]. split; [done|].
    vm_compute in Hnet. injection Hnet as <-.
    split; [eexists; by vm_compute|].
    split; [by vm_compute|]. split; [by vm_compute|]. split; [by vm_compute|].
    intros Hs.
    eapply (has_shapes_first sizes _ _ 2 1) in Hs; [|by vm_compute|done|done].
    vm_compute in Hs. discriminate.
  - eexists. split; [by vm_compute|]. split; [by vm_compute|].
    intros Hs.
    eapply (has_shapes_first sizes _ _ 2 1) in Hs; [|by vm_compute|done|done].
    vm_compute in Hs. discriminate.
Qed.

(** ** The partition of a frame with a repeated index label *)

(** C4. The partition loses rows that share an index label. For a frame
    of [N = 2] rows with the same index label and at least one column, and
    the batch size [B = 1], [initialize_mini_batches] returns one batch of
    one row, for every random stream, where [ceil(N / B) = 2] batches that
    hold both rows are called for: the sampled row is removed from the
    remaining data by its label, [t_data.drop(mini_batch.index)], which
    removes the other row with it; the loop ends there and the other row
    is in no batch. *)
Theorem partition_misses_rows
    {F : Type} `{Scalar F} (fuel : nat) (c : string) (cols : list string)
    (label : Z) (row1 row2 : list F) (s : world F) :
  let df := {| columns := c :: cols;
               frame_rows := [(label, row1); (label, row2)] |} in
  ∃ s' row,
    initialize_mini_batches (S fuel) df 1 s =
      (s', Ok [ {| columns := c :: cols; frame_rows := [row] |} ]) ∧
    (row = (label, row1) ∨ row = (label, row2)).
Proof.
  intros df. unfold initialize_mini_batches.
  cbn [initialize_mini_batches_loop].
  assert (df_empty df = false) as ->.
  { apply bool_decide_eq_false_2. simpl. lia. }
  rewrite bind_run. unfold df_sample.
  rewrite decide_False by (unfold df_len; simpl; lia).
  rewrite decide_False by (unfold df_len; simpl; lia).
  change (Z.to_nat (1 `min` df_len df)) with 1%nat.
  change (length (frame_rows df)) with 2%nat.
  change (seq 0 2) with [0%nat; 1%nat].
  rewrite choose_positions_S. cbn [length].
  set (i := (hd 0%nat (random_state s) `mod` 2)%nat).
  assert (i = 0%nat ∨ i = 1%nat) as Hi.
  { pose proof (Nat.mod_upper_bound (hd 0%nat (random_state s)) 2). lia. }
  assert (∀ row, row = (label, row1) ∨ row = (label, row2) →
            df_drop df (index {| columns := c :: cols; frame_rows := [row] |})
            = Ok {| columns := c :: cols; frame_rows := [] |}) as Hdrop.
  { intros row Hrow. unfold df_drop, index. simpl.
    assert (row.1 = label) as -> by (by destruct Hrow as [-> | ->]).
    rewrite decide_True.
    2:{ repeat constructor. }
    f_equal. f_equal. unfold filter. simpl.
    assert (¬ (label ∉ [label])) as Hin by (intros Hn; apply Hn; by left).
    rewrite decide_False by done. unfold filter. simpl.
    by rewrite decide_False. }
  destruct Hi as [-> | ->]; simpl.
  - eexists _, (label, row1). split; [|by left].
    unfold take_rows. simpl. rewrite bind_try.
    rewrite (Hdrop (label, row1)) by (by left). simpl.
    destruct fuel; reflexivity.
  - eexists _, (label, row2). split; [|by right].
    unfold take_rows. simpl. rewrite bind_try.
    rewrite (Hdrop (label, row2)) by (by right). simpl.
    destruct fuel; reflexivity.
Qed.

(** The run on [ex_duplicated], whose two rows carry the label 0. *)
Example partition_of_ex_duplicated :
  (initialize_mini_batches 10 ex_duplicated 1 ex_world).2 =
    Ok [ {| columns := ["x"; "y"; "target"];
            frame_rows := [(0, [0; 1; 1])] |} ] ∧
  length (frame_rows ex_duplicated) = 2%nat.
Proof. by vm_compute. Qed.

(** * Further properties of the methods *)

(** ** Frames with distinct index labels *)

(** X21. A frame of [N > 0] rows with at least one column and pairwise
    distinct index labels is partitioned, for every batch size [B > 0] and
    every random stream, into exactly [ceil(N / B)] batches; every batch
    but the last has [B] rows, the last has the
    [N - B * (ceil(N / B) - 1)] rows that remain, between 1 and [B]; the
    sizes add up to [N]; and the rows of the batches are the rows of the
    frame, each one exactly once. [N] rounds of the loop are enough. *)
Theorem partition_covers_distinct_labels
    {F : Type} `{Scalar F} (fuel : nat) (df : DataFrame F) (B : Z) (s : world F) :
  let N := length (frame_rows df) in
  (0 < N)%nat → 0 < B → columns df ≠ [] → NoDup (index df) →
  (N ≤ fuel)%nat →
  ∃ s' batches,
    initialize_mini_batches fuel df B s = (s', Ok batches) ∧
    length batches = ((N + Z.to_nat B - 1) / Z.to_nat B)%nat ∧
    (∀ i b, batches !! i = Some b → (S i < length batches)%nat →
            length (frame_rows b) = Z.to_nat B) ∧
    (∀ b, last batches = Some b →
          length (frame_rows b) = (N - Z.to_nat B * (length batches - 1))%nat ∧
          (0 < length (frame_rows b) ≤ Z.to_nat B)%nat) ∧
    sum_list ((λ b, length (frame_rows b)) <$> batches) = N ∧
    concat (frame_rows <$> batches) ≡ₚ frame_rows df.
Proof.
  intros N HN HB Hcols Hnd Hfuel.
  destruct (partition_covers fuel df B s Hcols Hnd HB Hfuel)
    as (s' & batches & Hrun & _ & Hcat & Hsizes).
  destruct (batch_sizes_facts (Z.to_nat B) N) as (Hlen & Hsum & Hfull & Hlast & Hrem);
    [lia|done|].
  fold N in Hsizes. rewrite <- Hsizes in Hlen, Hsum, Hfull, Hlast, Hrem.
  rewrite length_fmap in Hlen, Hfull, Hlast, Hrem.
  exists s', batches. split; [done|]. split; [done|]. split; [|split; [|done]].
  - intros i b Hb Hi. specialize (Hfull i Hi).
    rewrite list_lookup_fmap, Hb in Hfull. by injection Hfull.
  - intros b Hb. rewrite fmap_last, Hb in Hlast. injection Hlast as Hlast.
    by rewrite Hlast.
Qed.

Lemma partition_covers_distinct_labels_witness :
  ∃ s' batches,
    initialize_mini_batches 5 ex_data 2 ex_world = (s', Ok batches) ∧
    length batches = ((5 + Z.to_nat 2 - 1) / Z.to_nat 2)%nat ∧
    (∀ i b, batches !! i = Some b → (S i < length batches)%nat →
            length (frame_rows b) = Z.to_nat 2) ∧
    (∀ b, last batches = Some b →
          length (frame_rows b) = (5 - Z.to_nat 2 * (length batches - 1))%nat ∧
          (0 < length (frame_rows b) ≤ Z.to_nat 2)%nat) ∧
    sum_list ((λ b, length (frame_rows b)) <$> batches) = 5%nat ∧
    concat (frame_rows <$> batches) ≡ₚ frame_rows ex_data.
Proof.
  apply (partition_covers_distinct_labels 5 ex_data 2 ex_world).
  - simpl. lia.
  - lia.
  - done.
  - apply (bool_decide_unpack (NoDup (index ex_data))). by vm_compute.
  - simpl. lia.
Defined.

(** A frame with two rows and no column, as [pd.DataFrame(index=[0, 1])]
    gives. *)
Definition ex_no_columns : DataFrame Z := {|
  columns := [];
  frame_rows := [(0, []); (1, [])];
|}.

(** A frame without columns counts as empty, [df.empty], whatever its
    number of rows: the loop is not entered and no batch comes back. *)
Example partition_of_a_frame_without_columns :
  (initialize_mini_batches 10 ex_no_columns 1 ex_world).2 = Ok [] ∧
  length (frame_rows ex_no_columns) = 2%nat.
Proof. by vm_compute. Qed.

(** ** Prediction, and inputs the network cannot take *)

Section Prediction.
Context {F : Type} `{Scalar F}.
Implicit Types (s : world F) (X : DataFrame F).

(** The loop of [predict]: one call of [feed_forward] per row, in the
    order of the rows; the first exception ends the loop. *)
Lemma predict_loop s (l : list (list F)) (predictions : list (ndarray F)) :
  for_each l
    (λ row predictions,
       prediction ← feed_forward row; mret (predictions ++ [prediction]))
    predictions s =
  (s, ps ← mapM (λ row, (feed_forward row s).2) l; Ok (predictions ++ ps)).
Proof.
  revert predictions. induction l as [|row l IH]; intros predictions.
  - simpl. by rewrite app_nil_r.
  - rewrite for_each_cons, !bind_run.
    rewrite (read_only_run _ s (feed_forward_read_only row)).
    cbn [mapM]. destruct (feed_forward row s).2 as [p| |]; try done.
    cbn [mret M_ret]. rewrite IH. cbn [mbind outcome_bind mret outcome_ret].
    destruct (mapM _ l) as [ps| |]; try done. simpl.
    by rewrite <- app_assoc.
Qed.

Lemma predict_run s X :
  predict X s = (s, mapM (λ row, (feed_forward row s).2) (to_numpy X)).
Proof.
  unfold predict. rewrite predict_loop. f_equal.
  by destruct (mapM _ (to_numpy X)).
Qed.


Lemma predict_outputs s X ps :
  (predict X s).2 = Ok ps →
  length ps = length (frame_rows X) ∧
  ∀ i r, frame_rows X !! i = Some r →
    ∃ p, ps !! i = Some p ∧ feed_forward r.2 s = (s, Ok p).
Proof.
  rewrite predict_run. simpl. intros Hps. split.
  - apply mapM_outcome_length in Hps.
    unfold to_numpy in Hps. by rewrite length_fmap in Hps.
  - intros i r Hr.
    destruct (mapM_outcome_lookup _ _ _ i r.2 Hps) as (p & Hp & Hrun).
    { unfold to_numpy. by rewrite list_lookup_fmap, Hr. }
    exists p. split; [done|].
    rewrite (read_only_run _ s (feed_forward_read_only r.2)). by rewrite Hrun.
Qed.

Lemma mapM_outcome_first_failure {A B} (f : A → outcome B) (l : list A) i x
    (e : exn) :
  l !! i = Some x → f x = Raise e →
  (∀ j y, (j < i)%nat → l !! j = Some y → is_ok (f y)) →
  mapM f l = Raise e.
Proof.
  revert i. induction l as [|y l IH]; intros i Hx Hfx Hbefore; [done|].
  destruct i as [|i]; simpl in Hx.
  - injection Hx as ->. simpl. by rewrite Hfx.
  - simpl. pose proof (Hbefore 0%nat y ltac:(lia) eq_refl) as Hy.
    destruct (f y) as [b| |]; try done. simpl.
    rewrite (IH i Hx Hfx); [done|].
    intros j z Hj Hz. apply (Hbefore (S j) z); [lia|done].
Qed.

(** X1. [predict] calls [feed_forward] on every row of the frame, in the
    order of the rows, and hands back the world it was given. When it
    succeeds it returns one output per row, the [i]-th being what
    [feed_forward] returns on row [i]. When a row fails, the exception of
    the first failing row is raised and no prediction is returned. *)
Theorem predict_one_output_per_row s X :
  predict X s = (s, mapM (λ row, (feed_forward row s).2) (to_numpy X)) ∧
  (∀ ps, (predict X s).2 = Ok ps →
     length ps = length (frame_rows X) ∧
     ∀ i r, frame_rows X !! i = Some r →
       ∃ p, ps !! i = Some p ∧ feed_forward r.2 s = (s, Ok p)) ∧
  (∀ i r e, frame_rows X !! i = Some r →
     (feed_forward r.2 s).2 = Raise e →
     (∀ j r', (j < i)%nat → frame_rows X !! j = Some r' →
              is_ok (feed_forward r'.2 s).2) →
     predict X s = (s, Raise e)).
Proof.
  split; [apply predict_run|]. split; [apply predict_outputs|].
  intros i r e Hr He Hbefore. rewrite predict_run. f_equal.
  apply (mapM_outcome_first_failure _ _ i r.2); [|done|].
  - unfold to_numpy. by rewrite list_lookup_fmap, Hr.
  - intros j y Hj Hy. unfold to_numpy in Hy.
    rewrite list_lookup_fmap in Hy.
    destruct (frame_rows X !! j) as [r'|] eqn:Hr'; [|done].
    injection Hy as <-. by apply (Hbefore j r').
Qed.

End Prediction.

Section ForwardEdges.
Context {F : Type} `{Scalar F}.
Implicit Types (net : MLP F) (s : world F) (x : list F) (t : ndarray F).

Lemma Activation_raise_le net x (e : exn) k n :
  Activation net x k = Raise e → (k ≤ n)%nat → Activation net x n = Raise e.
Proof.
  intros Hk Hle. induction Hle as [|n Hle IH]; [done|]. simpl. by rewrite IH.
Qed.

Lemma first_layer_rejects net x w :
  length (biases net) = length (weights net) →
  weights net !! 0%nat = Some w → ncols w ≠ length x →
  Activation net x 1 = Raise ValueError.
Proof.
  intros Hb Hw Hx. simpl. unfold PreActivation_of, layer. rewrite Hw. simpl.
  destruct (lookup_lt_is_Some_2 (biases net) 0) as [b ->].
  { rewrite Hb. by eapply lookup_lt_Some. }
  simpl. unfold np_dot. by rewrite decide_False.
Qed.

Lemma evaluate_wrong_length net x w :
  layered net → weights net !! 0%nat = Some w → ncols w ≠ length x →
  evaluate net x = Raise ValueError.
Proof.
  intros [Hb HL] Hw Hx. unfold evaluate.
  apply (Activation_raise_le net x ValueError 1); [|lia].
  by eapply first_layer_rejects.
Qed.

(** X3. An input whose length is not the number of columns of the first
    weight matrix makes the first [np.dot] fail: [feed_forward],
    [get_activations_and_zs] and [backward] raise [ValueError] and change
    nothing, whatever the later layers and the supplied functions are. *)
Theorem wrong_input_length_raises_ValueError s x t w :
  layered (self s) → weights (self s) !! 0%nat = Some w → ncols w ≠ length x →
  feed_forward x s = (s, Raise ValueError) ∧
  get_activations_and_zs x s = (s, Raise ValueError) ∧
  backward x t s = (s, Raise ValueError).
Proof.
  intros Hnet Hw Hx. pose proof Hnet as [Hb HL].
  pose proof (evaluate_wrong_length _ _ _ Hnet Hw Hx) as Hev.
  unfold evaluate in Hev.
  assert (¬ is_ok (Activation (self s) x (length (weights (self s))))) as Hnok.
  { intros Hc. by rewrite Hev in Hc. }
  split; [|split].
  - rewrite feed_forward_spec by done. unfold evaluate. by rewrite Hev.
  - rewrite get_activations_and_zs_spec by done.
    by rewrite evaluateWithTrace_fail.
  - rewrite backward_spec by done.
    rewrite (backpropagate_fail (self s) x t (length (weights (self s)) - 1));
      [done|done|lia|].
    intros Hc%WeightGradient_ok_ErrorSignal.
    rewrite ErrorSignal_top, Hev in Hc. done.
Qed.

Lemma evaluate_shape net x a :
  chained net → shape_contract net → evaluate net x = Ok a →
  ∃ w, last (weights net) = Some w ∧ shape a = (nrows w, 1%nat).
Proof.
  intros Hnet Hc Ha. pose proof Hnet as ((Hb & HL) & _).
  unfold evaluate in Ha.
  destruct (length (weights net)) as [|k] eqn:Hlen; [lia|].
  destruct (Activation_shape net x (S k) a Hnet Hc Ha) as (Hcol & w & Hw & Hrow).
  exists w. split.
  - rewrite last_lookup, Hlen. done.
  - rewrite (shape_nrows_ncols a). by rewrite Hcol, Hrow.
Qed.

Lemma feed_forward_ok_shaped s x :
  chained (self s) → shape_contract (self s) → input_fits (self s) x →
  ∃ a w, feed_forward x s = (s, Ok a) ∧
         last (weights (self s)) = Some w ∧ shape a = (nrows w, 1%nat).
Proof.
  intros Hnet Hc Hx.
  pose proof (evaluate_ok_shaped (self s) x Hnet Hc Hx) as Hok.
  destruct (evaluate (self s) x) as [a| |] eqn:Ha; try done.
  destruct (evaluate_shape _ _ _ Hnet Hc Ha) as (w & Hw & Hs).
  exists a, w. rewrite feed_forward_spec by apply Hnet. by rewrite Ha.
Qed.

End ForwardEdges.

(** ** A network without layers *)

Section NoLayers.
Context {F : Type} `{Scalar F}.
Implicit Types (net : MLP F) (s : world F) (x : list F) (t : ndarray F).

Lemma feed_forward_no_layers s x :
  weights (self s) = [] → feed_forward x s = (s, Raise IndexError).
Proof.
  intros Hw. unfold feed_forward. rewrite !bind_attr, Hw. simpl.
  rewrite bind_ret, bind_attr, Hw. by rewrite bind_try, getitem_empty.
Qed.

Lemma get_activations_and_zs_no_layers s x :
  weights (self s) = [] → get_activations_and_zs x s = (s, Raise IndexError).
Proof.
  intros Hw. unfold get_activations_and_zs. rewrite !bind_attr, Hw. simpl.
  rewrite bind_ret, bind_attr, Hw. by rewrite bind_try, getitem_empty.
Qed.

Lemma backward_no_layers s x t :
  weights (self s) = [] → backward x t s = (s, Raise IndexError).
Proof.
  intros Hw. unfold backward. rewrite !bind_attr, bind_run.
  by rewrite get_activations_and_zs_no_layers.
Qed.


(** X5. [__init__] accepts fewer than two layer sizes and returns a network
    without layers. On such a network [self.weights[-1]] is out of range:
    [feed_forward], [get_activations_and_zs] and [backward] raise
    [IndexError] on every input, and so does [predict] on every frame that
    has a row; on a frame without rows [predict] returns the empty list. *)
Theorem network_without_layers_cannot_run sizes act ld ad out od tf
    (w_init : Z → Z → outcome (ndarray F)) (b_init : Z → outcome (ndarray F)) :
  (length sizes < 2)%nat →
  ∃ net,
    __init__ sizes act ld ad out od tf w_init b_init = Ok net ∧
    ∀ s x t (X : DataFrame F), self s = net →
      feed_forward x s = (s, Raise IndexError) ∧
      get_activations_and_zs x s = (s, Raise IndexError) ∧
      backward x t s = (s, Raise IndexError) ∧
      predict X s =
        (s, if decide (frame_rows X = []) then Ok [] else Raise IndexError).
Proof.
  intros Hlen.
  destruct (init_no_layers sizes act ld ad out od tf w_init b_init Hlen)
    as (net & Hnet & Hw & _).
  exists net. split; [done|]. intros s x t X Hs. rewrite <- Hs in Hw.
  split; [by apply feed_forward_no_layers|].
  split; [by apply get_activations_and_zs_no_layers|].
  split; [by apply backward_no_layers|].
  rewrite predict_run. f_equal. unfold to_numpy.
  destruct (frame_rows X) as [|r rows]; [done|].
  rewrite decide_False by done. simpl.
  by rewrite feed_forward_no_layers.
Qed.

End NoLayers.

Section PredictRows.
Context {F : Type} `{Scalar F}.
Implicit Types (net : MLP F) (s : world F) (x : list F) (X : DataFrame F).

Lemma mapM_outcome_Forall {A B} (P : B → Prop) (f : A → outcome B) (l : list A) :
  (∀ a, a ∈ l → ∃ y, f a = Ok y ∧ P y) →
  ∃ ys, mapM f l = Ok ys ∧ length ys = length l ∧ Forall P ys.
Proof.
  induction l as [|a l IH]; intros Hl.
  - exists []. by repeat split.
  - destruct (Hl a) as (y & Hy & HP); [left|].
    destruct IH as (ys & Hys & Hlen & HPs).
    { intros z Hz. apply Hl. by right. }
    exists (y :: ys). simpl. rewrite Hy. simpl. rewrite Hys. simpl.
    split; [done|]. split; [by rewrite Hlen|by constructor].
Qed.

(** X4. On a network whose layers fit each other, with supplied functions
    that keep shapes: when every row of the frame has as many cells as the
    first weight matrix has columns, [predict] returns one column per row,
    each with as many entries as the last weight matrix has rows; when some
    row has another length, [predict] raises [ValueError]. [predict] drops
    no column: every cell of a row is part of the input. *)
Theorem predict_checks_every_row s X w0 :
  chained (self s) → shape_contract (self s) →
  weights (self s) !! 0%nat = Some w0 →
  (Forall (λ r : Z * list F, length r.2 = ncols w0) (frame_rows X) →
     ∃ ps w, predict X s = (s, Ok ps) ∧
             length ps = length (frame_rows X) ∧
             last (weights (self s)) = Some w ∧
             Forall (λ p, shape p = (nrows w, 1%nat)) ps) ∧
  (Exists (λ r : Z * list F, length r.2 ≠ ncols w0) (frame_rows X) →
     predict X s = (s, Raise ValueError)).
Proof.
  intros Hnet Hc Hw0. pose proof Hnet as (Hlay & _). pose proof Hlay as [Hb HL].
  split.
  - intros Hrows.
    destruct (last (weights (self s))) as [w|] eqn:Hlast.
    2:{ apply last_None in Hlast. rewrite Hlast in HL. simpl in HL. lia. }
    destruct (mapM_outcome_Forall (λ p, shape p = (nrows w, 1%nat))
                (λ row, (feed_forward row s).2) (to_numpy X))
      as (ps & Hps & Hlen & Hall).
    { intros row Hrow. unfold to_numpy in Hrow.
      apply list_elem_of_fmap in Hrow as (r & -> & Hr).
      rewrite Forall_forall in Hrows.
      destruct (feed_forward_ok_shaped s r.2 Hnet Hc) as (a & w' & Hrun & Hw' & Ha).
      { intros w1 Hw1. rewrite Hw0 in Hw1. injection Hw1 as <-.
        symmetry. by apply Hrows. }
      exists a. rewrite Hrun. split; [done|]. congruence. }
    exists ps, w. rewrite predict_run, Hps.
    unfold to_numpy in Hlen. rewrite length_fmap in Hlen. done.
  - intros (r & Hr & Hbad)%Exists_exists. rewrite predict_run. f_equal.
    apply mapM_outcome_raise.
    + intros row _. rewrite feed_forward_spec by done. simpl.
      by apply Activation_cases.
    + exists r.2. split.
      * unfold to_numpy. by apply list_elem_of_fmap_2.
      * rewrite feed_forward_spec by done. simpl.
        apply (evaluate_wrong_length _ _ w0); [done|done|]. congruence.
Qed.

End PredictRows.

(** ** The shapes a forward pass returns *)

Section ForwardColumns.
Context {F : Type} `{Scalar F}.
Implicit Types (net : MLP F) (s : world F) (x : list F).

Lemma trace_columns net x activs zs :
  chained net → shape_contract net →
  evaluateWithTrace net x = Ok (activs, zs) →
  ∀ i w, weights net !! i = Some w →
    ∃ z a, zs !! i = Some z ∧ activs !! S i = Some a ∧
           shape z = (nrows w, 1%nat) ∧ shape a = (nrows w, 1%nat).
Proof.
  intros Hnet Hc (Hla & Hlz & Ha & Hz)%evaluateWithTrace_lookup i w Hw.
  pose proof (lookup_lt_Some _ _ _ Hw) as Hi.
  destruct (lookup_lt_is_Some_2 zs i) as [z Hzi]; [lia|].
  destruct (lookup_lt_is_Some_2 activs (S i)) as [a Hai]; [lia|].
  exists z, a. split; [done|]. split; [done|]. split.
  - destruct (PreActivation_shape net x i z Hnet Hc (Hz _ _ Hzi))
      as (w' & _ & Hw' & _ & _ & Hs). congruence.
  - destruct (Activation_shape net x (S i) a Hnet Hc (Ha _ _ Hai))
      as (Hcol & w' & Hw' & Hrow).
    rewrite (shape_nrows_ncols a), Hcol, Hrow. congruence.
Qed.

(** X2. On a network whose layers fit each other, with supplied functions
    that keep shapes and an input of the length the first layer takes, the
    forward pass succeeds. [get_activations_and_zs] returns [L + 1]
    activations and [L] pre-activations; [PreActivations[i]] and
    [Activations[i+1]] are columns with as many entries as [Weight[i]] has
    rows; and [feed_forward] returns the last recorded activation. *)
Theorem forward_pass_returns_columns s x :
  chained (self s) → shape_contract (self s) → input_fits (self s) x →
  ∃ a activs zs,
    feed_forward x s = (s, Ok a) ∧
    get_activations_and_zs x s = (s, Ok (activs, zs)) ∧
    length activs = S (length (weights (self s))) ∧
    length zs = length (weights (self s)) ∧
    last activs = Some a ∧
    ∀ i w, weights (self s) !! i = Some w →
      ∃ z a', zs !! i = Some z ∧ activs !! S i = Some a' ∧
              shape z = (nrows w, 1%nat) ∧ shape a' = (nrows w, 1%nat).
Proof.
  intros Hnet Hc Hx. pose proof Hnet as (Hlay & _).
  pose proof (evaluate_ok_shaped (self s) x Hnet Hc Hx) as Hok.
  destruct (evaluate (self s) x) as [a| |] eqn:Ha; try done.
  assert (is_ok (evaluateWithTrace (self s) x)) as Hokt.
  { rewrite evaluateWithTrace_ok; [done|]. unfold evaluate in Ha. by rewrite Ha. }
  destruct (evaluateWithTrace (self s) x) as [[activs zs]| |] eqn:Ht; try done.
  exists a, activs, zs.
  rewrite feed_forward_spec, get_activations_and_zs_spec by done.
  rewrite Ha, Ht. do 2 (split; [done|]).
  pose proof (evaluateWithTrace_lookup _ _ _ _ Ht) as (Hla & Hlz & Hact & _).
  do 2 (split; [done|]). split.
  - rewrite last_lookup, Hla. simpl.
    destruct (lookup_lt_is_Some_2 activs (length (weights (self s))))
      as [a' Ha']; [lia|].
    rewrite Ha'. f_equal. apply Hact in Ha'. unfold evaluate in Ha. congruence.
  - by apply (trace_columns (self s) x).
Qed.

End ForwardColumns.

Section Constructed.
Context {F : Type} `{Scalar F}.
Implicit Types (net : MLP F) (s : world F) (x : list F).

(** X6. Construction and evaluation together. For at least two layer
    sizes, all positive, initialisers that return the shapes they are asked
    for and supplied functions that keep shapes, [__init__] returns a
    network on which [feed_forward] maps every input of [layers_sizes[0]]
    entries to a column of [layers_sizes[-1]] entries and raises
    [ValueError] on an input of any other length. *)
Theorem constructed_network_maps_first_size_to_last sizes act ld ad out od tf
    (w_init : Z → Z → outcome (ndarray F)) (b_init : Z → outcome (ndarray F))
    (nin nout : Z) :
  (2 ≤ length sizes)%nat →
  Forall (λ n, 0 < n) sizes →
  head sizes = Some nin → last sizes = Some nout →
  (∀ nout nin, 0 < nout → 0 < nin →
     ∃ w, w_init nout nin = Ok w ∧ shape w = (Z.to_nat nout, Z.to_nat nin)) →
  (∀ nout, 0 < nout →
     ∃ b, b_init nout = Ok b ∧ shape b = (Z.to_nat nout, 1%nat)) →
  shape_preserving act → shape_preserving ad →
  shape_preserving out → shape_preserving od →
  (∀ a c, shape (ld a (tf c)) = shape a) →
  ∃ net,
    __init__ sizes act ld ad out od tf w_init b_init = Ok net ∧
    ∀ s x, self s = net →
      (length x = Z.to_nat nin →
         ∃ a, feed_forward x s = (s, Ok a) ∧ shape a = (Z.to_nat nout, 1%nat)) ∧
      (length x ≠ Z.to_nat nin → feed_forward x s = (s, Raise ValueError)).
Proof.
  intros Hlen Hpos Hhead Hlast Hw Hb Hact Had Hout Hod Hld.
  destruct (init_has_shapes sizes act ld ad out od tf w_init b_init Hpos Hw Hb)
    as (net & Hnet & Hshapes & <- & <- & <- & <- & <- & <-).
  exists net. split; [done|]. intros s x Hs. subst net.
  pose proof (has_shapes_chained sizes (self s) Hlen Hshapes) as Hchain.
  assert (shape_contract (self s)) as Hc by done.
  destruct Hshapes as (Hlw & Hlb & Hws & Hbs).
  pose proof Hchain as ((_ & HL) & _).
  destruct (lookup_lt_is_Some_2 (weights (self s)) 0) as [w0 Hw0]; [lia|].
  destruct (Hws _ _ Hw0) as (nin' & nout' & Hin' & _ & Hsw0).
  rewrite <- head_lookup, Hhead in Hin'. injection Hin' as <-.
  split.
  - intros Hx.
    destruct (feed_forward_ok_shaped s x Hchain Hc) as (a & w & Hrun & Hwl & Ha).
    { intros w1 Hw1. unfold ncols. rewrite Hw0 in Hw1. injection Hw1 as <-.
      by rewrite Hsw0. }
    exists a. split; [done|]. rewrite Ha.
    rewrite last_lookup in Hwl.
    destruct (Hws _ _ Hwl) as (nin2 & nout2 & _ & Hout2 & Hswl).
    rewrite last_lookup in Hlast.
    replace (S (pred (length (weights (self s))))) with (pred (length sizes))
      in Hout2 by lia.
    unfold nrows. rewrite Hswl. simpl. congruence.
  - intros Hx. rewrite feed_forward_spec by apply Hchain. f_equal.
    apply (evaluate_wrong_length _ _ w0); [apply Hchain|done|].
    unfold ncols. rewrite Hsw0. simpl. congruence.
Qed.

End Constructed.

Section ConstructionErrors.
Context {F : Type} `{Scalar F}.

(** X20. [__init__] raises the exception of the first initialiser call
    that fails. The weight matrices are built before the bias vectors, and
    each list from the first layer to the last: the exception of
    [weight_init] for layer [i] is raised when the calls for the layers
    below succeed, and the exception of [bias_init] for layer [i] is raised
    when every call of [weight_init] and the calls of [bias_init] for the
    layers below succeed. *)
Theorem construction_raises_the_first_initialiser_error
    sizes act ld ad out od tf
    (w_init : Z → Z → outcome (ndarray F)) (b_init : Z → outcome (ndarray F))
    (i : nat) (nin nout : Z) (e : exn) :
  sizes !! i = Some nin → sizes !! S i = Some nout →
  (w_init nout nin = Raise e →
   (∀ j n m, (j < i)%nat → sizes !! j = Some n → sizes !! S j = Some m →
             is_ok (w_init m n)) →
   __init__ sizes act ld ad out od tf w_init b_init = Raise e) ∧
  (b_init nout = Raise e →
   (∀ j n m, sizes !! j = Some n → sizes !! S j = Some m →
             is_ok (w_init m n)) →
   (∀ j m, (j < i)%nat → sizes !! S j = Some m → is_ok (b_init m)) →
   __init__ sizes act ld ad out od tf w_init b_init = Raise e).
Proof.
  intros Hin Hout. unfold __init__, __init_weights, __init_biases. split.
  - intros He Hbefore.
    rewrite (mapM_outcome_first_failure (λ p : Z * Z, w_init p.1 p.2) _ i
               (nout, nin) e); [done| |done|].
    + by rewrite layer_pairs_lookup, Hout, Hin.
    + intros j [m n] Hj Hp. rewrite layer_pairs_lookup in Hp.
      destruct (sizes !! S j) as [m'|] eqn:Hm; [|done].
      destruct (sizes !! j) as [n'|] eqn:Hn; [|done].
      simpl in Hp. injection Hp as <- <-. simpl. by apply (Hbefore j).
  - intros He Hweights Hbefore.
    rewrite (mapM_outcome_ok no_array (λ p : Z * Z, w_init p.1 p.2)).
    2:{ intros [m n] (j & Hp)%list_elem_of_lookup.
        rewrite layer_pairs_lookup in Hp.
        destruct (sizes !! S j) as [m'|] eqn:Hm; [|done].
        destruct (sizes !! j) as [n'|] eqn:Hn; [|done].
        simpl in Hp. injection Hp as <- <-. simpl. by apply (Hweights j). }
    simpl.
    rewrite (mapM_outcome_first_failure b_init _ i nout e); [done| |done|].
    + by rewrite lookup_drop.
    + intros j m Hj Hm. rewrite lookup_drop in Hm. by apply (Hbefore j).
Qed.

End ConstructionErrors.

(** ** Partitioning any frame *)

Section PartitionAnyFrame.
Context {F : Type} `{Scalar F}.
Implicit Types (s : world F) (df : DataFrame F).

(** Dropping the sampled rows by label removes at least the sampled rows,
    whatever the labels are. *)
Lemma df_drop_sampled_any df (mb_rows rest : list (Z * list F)) :
  frame_rows df ≡ₚ mb_rows ++ rest →
  ∃ df', df_drop df mb_rows.*1 = Ok df' ∧
         columns df' = columns df ∧
         frame_rows df' ⊆ frame_rows df ∧
         (length (frame_rows df') ≤ length rest)%nat.
Proof.
  intros Hperm. unfold df_drop.
  rewrite decide_True.
  2:{ apply Forall_forall. intros l Hl. unfold index. rewrite Hperm, fmap_app.
      apply elem_of_app. by left. }
  eexists. split; [done|]. split; [done|]. simpl. split.
  - intros r Hr. by apply list_elem_of_filter in Hr as [_ Hr].
  - rewrite Hperm, filter_app, length_app.
    rewrite (filter_none _ mb_rows).
    2:{ intros r Hr Hnot. apply Hnot. by apply list_elem_of_fmap_2. }
    simpl. apply length_filter.
Qed.

Lemma partition_loop_any (fuel : nat) df (B : Z) (acc : list (DataFrame F)) s :
  0 < B → (length (frame_rows df) ≤ fuel)%nat →
  ∃ s' new,
    initialize_mini_batches_loop fuel df B acc s = (s', Ok (acc ++ new)) ∧
    self s' = self s ∧ stdout s' = stdout s ∧
    Forall (λ b, columns b = columns df ∧
                 (0 < length (frame_rows b) ≤ Z.to_nat B)%nat ∧
                 frame_rows b ⊆ frame_rows df) new ∧
    (sum_list ((λ b, length (frame_rows b)) <$> new) ≤ length (frame_rows df))%nat ∧
    (df_empty df = false → new ≠ []).
Proof.
  intros HB. revert df acc s.
  induction fuel as [|fuel IH]; intros df acc s Hfuel.
  - exists s, []. rewrite initialize_mini_batches_loop_empty.
    2:{ unfold df_empty. apply bool_decide_eq_true_2. left. lia. }
    rewrite app_nil_r. repeat split; try done; [simpl; lia|].
    unfold df_empty. intros He. apply bool_decide_eq_false_1 in He.
    exfalso. apply He. left. lia.
  - destruct (df_empty df) eqn:He.
    { exists s, []. rewrite initialize_mini_batches_loop_empty by done.
      rewrite app_nil_r. repeat split; try done. simpl; lia. }
    assert (0 < length (frame_rows df))%nat as Hpos.
    { unfold df_empty in He. apply bool_decide_eq_false_1 in He.
      destruct (frame_rows df); [|simpl; lia]. exfalso. apply He. by left. }
    cbn [initialize_mini_batches_loop]. rewrite He.
    destruct (df_sample_spec df (B `min` df_len df) s)
      as (s1 & mb & rest & Hsample & Hself & Hout & Hmbcols & Hmblen & Hperm).
    { unfold df_len. lia. }
    rewrite bind_run, Hsample.
    destruct (df_drop_sampled_any df (frame_rows mb) rest Hperm)
      as (df' & Hdrop & Hcols' & Hsub & Hlen').
    change (index mb) with (frame_rows mb).*1.
    rewrite Hdrop, bind_try.
    assert (length (frame_rows df) =
            (length (frame_rows mb) + length rest)%nat) as Hsplit.
    { by rewrite Hperm, length_app. }
    unfold df_len in Hmblen.
    destruct (IH df' (acc ++ [mb]) s1)
      as (s' & new & Hloop & Hs' & Ho' & Hall & Hsum & _); [lia|].
    exists s', (mb :: new). rewrite Hloop.
    split; [by rewrite <- app_assoc|].
    split; [congruence|]. split; [congruence|]. split; [|split; [|done]].
    + constructor.
      * split; [done|]. split; [lia|].
        intros r Hr. rewrite Hperm. apply elem_of_app. by left.
      * eapply Forall_impl; [exact Hall|]. simpl.
        intros b (Hbc & Hbl & Hbs). split; [congruence|]. split; [done|].
        intros r Hr. by apply Hsub, Hbs.
    + rewrite fmap_cons. simpl. lia.
Qed.

End PartitionAnyFrame.

(** ** What [train] prints *)

Section Output.
Context {F : Type} `{Scalar F}.
Implicit Types (s : world F) (df : DataFrame F).

(** A computation that prints nothing. *)
Definition silent {A} (m : M A) : Prop := ∀ s : world F, stdout (m s).1 = stdout s.

Lemma silent_read_only {A} (m : M A) : read_only m → silent m.
Proof. intros Hm s. by rewrite Hm. Qed.

Lemma silent_bind {A B} (m : M A) (f : A → M B) :
  silent m → (∀ a, silent (f a)) → silent (m ≫= f).
Proof.
  intros Hm Hf s. rewrite bind_run. specialize (Hm s).
  destruct (m s) as [s' [a| |]]; simpl in *; try done.
  by rewrite Hf.
Qed.

Lemma silent_for_each {A S} (l : list A) (body : A → S → M S) (st : S) :
  (∀ x st', silent (body x st')) → silent (for_each l body st).
Proof.
  intros Hbody. revert st. induction l as [|x l IH]; intros st; simpl.
  - by intros s.
  - apply silent_bind; auto.
Qed.

Lemma process_batch_silent (batch : DataFrame F) c (lr : F) :
  silent (process_batch batch c lr).
Proof.
  unfold process_batch.
  repeat first
    [ apply silent_bind; [|intros]
    | apply silent_read_only;
      first [ apply read_only_attr | apply read_only_try
            | apply backward_read_only | apply read_only_ret ]
    | apply silent_for_each; intros
    | match goal with
      | |- context [match ?p with (_, _) => _ end] => is_var p; destruct p
      end
    | by intros s ].
Qed.


Lemma initialize_mini_batches_silent fuel df (B : Z) :
  silent (initialize_mini_batches fuel df B).
Proof. intros s. apply initialize_mini_batches_loop_frame. Qed.

(** An epoch prints its line when it completes, and nothing otherwise. *)
Lemma epoch_output fuel df (B : Z) (lr : F) c (epoch : Z) s :
  stdout (epoch_body fuel df B lr c epoch () s).1 =
  stdout s ++
    (if is_ok (epoch_body fuel df B lr c epoch () s).2
     then [epoch_line epoch] else []).
Proof.
  unfold epoch_body. rewrite bind_run.
  pose proof (initialize_mini_batches_silent fuel df B s) as Hs.
  destruct (initialize_mini_batches fuel df B s) as [s1 [batches| |]];
    simpl in Hs; simpl; try by rewrite app_nil_r.
  rewrite bind_run.
  pose proof (silent_for_each batches
                (λ batch (_ : unit), process_batch batch c lr) ()
                (λ batch _, process_batch_silent batch c lr) s1) as Hb.
  destruct (for_each batches _ () s1) as [s2 [[]| |]]; simpl in Hb; simpl;
    rewrite ?app_nil_r; try congruence.
  by rewrite Hb, Hs.
Qed.

Lemma epochs_output fuel df (B : Z) (lr : F) c (l : list Z) s :
  ∃ k : nat,
    (k ≤ length l)%nat ∧
    stdout (for_each l (epoch_body fuel df B lr c) () s).1 =
      stdout s ++ (epoch_line <$> take k l) ∧
    ((for_each l (epoch_body fuel df B lr c) () s).2 = Ok () ↔ k = length l).
Proof.
  revert s. induction l as [|e l IH]; intros s.
  - exists 0%nat. simpl. by rewrite app_nil_r.
  - rewrite for_each_cons, bind_run.
    pose proof (epoch_output fuel df B lr c e s) as He.
    destruct (epoch_body fuel df B lr c e () s) as [s1 [[]| |]]; simpl in He.
    + destruct (IH s1) as (k & Hk & Hout & Hok).
      exists (S k). split; [simpl; lia|]. split.
      * rewrite Hout, He, <- app_assoc. done.
      * rewrite Hok. simpl. lia.
    + exists 0%nat. split; [simpl; lia|]. split; [by simpl|]. simpl.
      split; [done|lia].
    + exists 0%nat. split; [simpl; lia|]. split; [by simpl|]. simpl.
      split; [done|lia].
Qed.

(** X11. Whatever the data and the arguments, [train] prints the lines
    "Epoch 1 completed.", ..., "Epoch k completed." after what was printed
    before, and nothing else, where [k] is the number of epochs that ran to
    their end: [k] is [epochs] (or 0 for a negative count) exactly when
    [train] returns normally. Partitioning and batch updates print
    nothing. *)
Theorem train_prints_completed_epochs
    fuel df (E B : Z) (lr : F) (c : string) s :
  ∃ k : Z,
    0 ≤ k ≤ Z.max 0 E ∧
    stdout (train fuel df E B lr c s).1 = stdout s ++ (epoch_line <$> range k) ∧
    ((train fuel df E B lr c s).2 = Ok () ↔ k = Z.max 0 E).
Proof.
  rewrite train_unfold.
  destruct (epochs_output fuel df B lr c (range E) s) as (k & Hk & Hout & Hok).
  unfold range in *. rewrite length_seqZ in Hk, Hok.
  exists (Z.of_nat k). split; [lia|]. split.
  - rewrite Hout. f_equal. f_equal.
    apply list_eq. intros i. rewrite lookup_take.
    destruct (decide (i < k)%nat) as [Hi|Hi].
    + rewrite !lookup_seqZ_lt by lia. done.
    + rewrite (lookup_seqZ_ge _ (Z.of_nat k)) by lia. done.
  - rewrite Hok. lia.
Qed.

End Output.

(** ** Training on data that fits the network *)

Section TrainingRuns.
Context {F : Type} `{Scalar F}.
Implicit Types (net : MLP F) (s : world F) (df batch : DataFrame F).

(** Every row has one cell per column. *)
Definition rectangular df : Prop :=
  Forall (λ r : Z * list F, length r.2 = length (columns df)) (frame_rows df).

(** The first layer takes as many inputs as the frame has columns besides
    the class column. *)
Definition takes_features net (cols : list string) (c : string) : Prop :=
  ∀ w, weights net !! 0%nat = Some w →
       ncols w = length (filter (λ x, x ≠ c) cols).

Lemma drop_column_length (cols : list string) (row : list F) (c : string) :
  length row = length cols →
  length (filter (λ p : string * F, p.1 ≠ c) (zip cols row)).*2 =
  length (filter (λ x, x ≠ c) cols).
Proof.
  revert row. induction cols as [|x cols IH]; intros row Hlen; [done|].
  destruct row as [|v row]; [done|]. simpl in Hlen.
  simpl. rewrite !filter_cons. simpl.
  destruct (decide (x ≠ c)); simpl; rewrite IH by lia; done.
Qed.

Lemma column_pos_elem_of batch (c : string) :
  c ∈ columns batch → is_Some (column_pos c batch).
Proof.
  intros Hc. unfold column_pos.
  destruct (list_find_elem_of (λ x, x = c) (columns batch) c Hc eq_refl)
    as [[i x] Hf].
  rewrite Hf. by eexists.
Qed.

Lemma batch_examples_ok net batch (c : string) :
  c ∈ columns batch → rectangular batch →
  ∃ examples,
    batch_examples net batch c = Ok examples ∧
    Forall (λ e : list F * ndarray F,
              length e.1 = length (filter (λ x, x ≠ c) (columns batch)))
      examples.
Proof.
  intros Hc Hrect. unfold batch_examples, df_getitem, df_drop_columns.
  destruct (column_pos_elem_of batch c Hc) as [p ->]. simpl.
  eexists. split; [done|].
  apply Forall_forall. intros [x t] Hin. apply elem_of_zip_l in Hin. simpl.
  unfold to_numpy in Hin. simpl in Hin.
  apply list_elem_of_fmap in Hin as ([l row'] & -> & Hin). simpl.
  apply list_elem_of_fmap in Hin as (r & [= -> ->] & Hr).
  apply drop_column_length.
  unfold rectangular in Hrect. rewrite Forall_forall in Hrect. by apply Hrect.
Qed.

Lemma shaped_like_takes_features net net' cols c :
  shaped_like net net' → takes_features net cols c → takes_features net' cols c.
Proof.
  intros (Hw & _) Hf w' Hw'.
  destruct (Forall2_lookup_r _ _ _ _ _ Hw Hw') as (w & Hwl & Hs).
  unfold ncols. rewrite Hs. by apply Hf.
Qed.

Lemma process_batch_ok s batch (c : string) (lr : F) :
  chained (self s) → shape_contract (self s) →
  c ∈ columns batch → rectangular batch →
  takes_features (self s) (columns batch) c →
  ∃ net',
    process_batch batch c lr s =
      (World net' (stdout s) (random_state s), Ok ()) ∧
    shaped_like (self s) net'.
Proof.
  intros Hnet Hc Hcol Hrect Hfeat. pose proof Hnet as (Hlay & _).
  rewrite process_batch_run by done.
  destruct (batch_examples_ok (self s) batch c Hcol Hrect)
    as (examples & Hex & Hlen).
  assert (is_ok (BatchGradient (self s) batch c)) as Hg.
  { apply (BatchGradient_ok_shaped _ _ _ examples); try done.
    eapply Forall_impl; [exact Hlen|]. simpl.
    intros e He w Hw. rewrite He. by apply Hfeat. }
  destruct (MiniBatchUpdate (self s) batch c lr) as [net'| |] eqn:Hup.
  - exists net'. split; [done|]. by eapply MiniBatchUpdate_shaped.
  - exfalso. unfold MiniBatchUpdate in Hup.
    destruct (BatchGradient (self s) batch c) as [g| |] eqn:HBG; try done.
    simpl in Hup.
    destruct (MeanGradientStep_ok lr (df_len batch) (self s) g)
      as (W' & B' & Hstep & _); [by eapply BatchGradient_absorbed|].
    congruence.
  - exfalso. unfold MiniBatchUpdate in Hup.
    destruct (BatchGradient (self s) batch c) as [g| |] eqn:HBG; try done.
    simpl in Hup.
    destruct (MeanGradientStep_ok lr (df_len batch) (self s) g)
      as (W' & B' & Hstep & _); [by eapply BatchGradient_absorbed|].
    congruence.
Qed.

Lemma batches_ok s (batches : list (DataFrame F)) (c : string) (lr : F)
    (cols : list string) :
  chained (self s) → shape_contract (self s) →
  c ∈ cols → takes_features (self s) cols c →
  Forall (λ b, columns b = cols ∧ rectangular b) batches →
  ∃ net',
    for_each batches (λ batch _, process_batch batch c lr) () s =
      (World net' (stdout s) (random_state s), Ok ()) ∧
    shaped_like (self s) net'.
Proof.
  intros Hnet Hc Hcol Hfeat Hall. revert s Hnet Hc Hfeat.
  induction Hall as [|b batches [Hbc Hbr] Hall IH]; intros s Hnet Hc Hfeat.
  - exists (self s). simpl. rewrite world_eta. split; [done|].
    apply shaped_like_refl.
  - rewrite for_each_cons, bind_run.
    destruct (process_batch_ok s b c lr Hnet Hc) as (net1 & -> & Hs1);
      [by rewrite Hbc|done|by rewrite Hbc|].
    destruct (IH (World net1 (stdout s) (random_state s)))
      as (net' & Hrun & Hs'); simpl.
    + by eapply shaped_like_chained.
    + by eapply shaped_like_contract.
    + by eapply shaped_like_takes_features.
    + exists net'. simpl in Hrun. rewrite Hrun. split; [done|].
      by eapply shaped_like_trans.
Qed.

Lemma epoch_ok fuel df (B : Z) (lr : F) (c : string) (epoch : Z) s :
  chained (self s) → shape_contract (self s) →
  c ∈ columns df → rectangular df → takes_features (self s) (columns df) c →
  0 < B → (length (frame_rows df) ≤ fuel)%nat →
  ∃ s',
    epoch_body fuel df B lr c epoch () s = (s', Ok ()) ∧
    shaped_like (self s) (self s') ∧
    stdout s' = stdout s ++ [epoch_line epoch].
Proof.
  intros Hnet Hc Hcol Hrect Hfeat HB Hfuel. unfold epoch_body.
  destruct (partition_loop_any fuel df B [] s HB Hfuel)
    as (s1 & batches & Hloop & Hself & Hout & Hall & _).
  rewrite bind_run. unfold initialize_mini_batches. rewrite Hloop. simpl.
  assert (Forall (λ b, columns b = columns df ∧ rectangular b) batches)
    as Hrects.
  { eapply Forall_impl; [exact Hall|]. simpl.
    intros b (Hbc & _ & Hsub). split; [done|].
    unfold rectangular in *. rewrite Forall_forall in Hrect.
    apply Forall_forall. intros r Hr. rewrite Hbc. by apply Hrect, Hsub. }
  rewrite <- Hself in Hnet, Hc, Hfeat.
  destruct (batches_ok s1 batches c lr (columns df) Hnet Hc Hcol Hfeat Hrects)
    as (net' & Hrun & Hs').
  rewrite bind_run, Hrun. eexists. split; [done|]. simpl.
  split; [by rewrite <- Hself|]. by rewrite Hout.
Qed.

Lemma epochs_ok fuel df (B : Z) (lr : F) (c : string) (l : list Z) s :
  chained (self s) → shape_contract (self s) →
  c ∈ columns df → rectangular df → takes_features (self s) (columns df) c →
  0 < B → (length (frame_rows df) ≤ fuel)%nat →
  ∃ s',
    for_each l (epoch_body fuel df B lr c) () s = (s', Ok ()) ∧
    shaped_like (self s) (self s') ∧
    stdout s' = stdout s ++ (epoch_line <$> l).
Proof.
  intros Hnet Hc Hcol Hrect Hfeat HB Hfuel. revert s Hnet Hc Hfeat.
  induction l as [|e l IH]; intros s Hnet Hc Hfeat.
  - exists s. simpl. rewrite app_nil_r. split; [done|].
    split; [apply shaped_like_refl|done].
  - rewrite for_each_cons, bind_run.
    destruct (epoch_ok fuel df B lr c e s) as (s1 & -> & Hs1 & Ho1); try done.
    destruct (IH s1) as (s' & Hrun & Hs' & Ho').
    + by eapply shaped_like_chained.
    + by eapply shaped_like_contract.
    + by eapply shaped_like_takes_features.
    + exists s'. rewrite Hrun. split; [done|].
      split; [by eapply shaped_like_trans|].
      rewrite Ho', Ho1, <- app_assoc. done.
Qed.

(** X12. Training goes through on data that fits the network. For layers
    that fit each other, supplied functions that keep shapes, a frame that
    has the class column, one cell per column in every row, and as many
    other columns as the first layer takes inputs, a positive batch size,
    and as many rounds of the partition loop as the frame has rows: [train]
    raises nothing for any number of epochs, any learning rate, any random
    stream and any index labels; the parameters keep their shapes and the
    completion line of every epoch is printed. *)
Theorem train_succeeds_on_fitting_data
    fuel df (E B : Z) (lr : F) (c : string) s :
  chained (self s) → shape_contract (self s) →
  c ∈ columns df → rectangular df → takes_features (self s) (columns df) c →
  0 < B → (length (frame_rows df) ≤ fuel)%nat →
  ∃ s',
    train fuel df E B lr c s = (s', Ok ()) ∧
    shaped_like (self s) (self s') ∧
    stdout s' = stdout s ++ (epoch_line <$> range E).
Proof. rewrite train_unfold. apply epochs_ok. Qed.

End TrainingRuns.

(** ** Training on data or arguments that do not fit *)

Section TrainingEdges.
Context {F : Type} `{Scalar F}.
Implicit Types (net : MLP F) (s : world F) (df batch : DataFrame F).

Lemma column_pos_not_elem_of batch (c : string) :
  c ∉ columns batch → column_pos c batch = None.
Proof.
  intros Hc. unfold column_pos.
  destruct (list_find (λ x, x = c) (columns batch)) as [[i x]|] eqn:Hf; [|done].
  apply list_find_Some in Hf as (Hx & -> & _).
  exfalso. apply Hc. by eapply list_elem_of_lookup_2.
Qed.

Lemma process_batch_missing_column s batch (c : string) (lr : F) :
  c ∉ columns batch → process_batch batch c lr s = (s, Raise KeyError).
Proof.
  intros Hc. unfold process_batch. rewrite !bind_attr, bind_try.
  unfold df_getitem. by rewrite column_pos_not_elem_of.
Qed.

(** X10. When the frame has no column of the given class-column name,
    [process_batch] raises [KeyError] before it touches anything. [train]
    on a non-empty frame, with at least one epoch and a positive batch
    size, raises that [KeyError] in the first batch of the first epoch: no
    parameter is updated and nothing is printed. *)
Theorem missing_class_column_raises_KeyError
    fuel df (E B : Z) (lr : F) (c : string) s :
  c ∉ columns df →
  process_batch df c lr s = (s, Raise KeyError) ∧
  (df_empty df = false → 0 < E → 0 < B →
   (length (frame_rows df) ≤ fuel)%nat →
   ∃ s', train fuel df E B lr c s = (s', Raise KeyError) ∧
         self s' = self s ∧ stdout s' = stdout s).
Proof.
  intros Hc. split; [by apply process_batch_missing_column|].
  intros He HE HB Hfuel. rewrite train_unfold. unfold range.
  rewrite seqZ_cons by lia. rewrite for_each_cons, bind_run.
  unfold epoch_body at 1. unfold initialize_mini_batches.
  destruct (partition_loop_any fuel df B [] s HB Hfuel)
    as (s1 & batches & Hloop & Hself & Hout & Hall & _ & Hne).
  rewrite bind_run, Hloop. simpl.
  destruct batches as [|b batches]; [by destruct (Hne He)|].
  apply Forall_cons in Hall as [(Hbc & _) _].
  rewrite bind_run, for_each_cons, bind_run.
  rewrite process_batch_missing_column by (by rewrite Hbc).
  by exists s1.
Qed.

(** X9. With a batch size of 0 and a non-empty frame the loop of
    [initialize_mini_batches] samples no row and drops no row, so the frame
    never empties: the partition is still running after any number of
    rounds, and so is [train] with at least one epoch. Nothing has changed
    by then. *)
Theorem zero_batch_size_never_finishes
    fuel df (E : Z) (lr : F) (c : string) s :
  df_empty df = false →
  initialize_mini_batches fuel df 0 s = (s, OutOfFuel) ∧
  (0 < E → train fuel df E 0 lr c s = (s, OutOfFuel)).
Proof.
  intros He. split.
  - by apply initialize_mini_batches_loop_zero.
  - intros HE. by apply train_zero_batch_size.
Qed.

Lemma positive_sizes_length (l : list nat) :
  Forall (λ n, 0 < n)%nat l → (length l ≤ sum_list l)%nat.
Proof. induction 1; simpl; lia. Qed.

(** X7. For every frame, duplicated index labels included, and every
    positive batch size, the loop of [initialize_mini_batches] ends within
    as many rounds as the frame has rows and raises nothing. Every batch
    has the columns of the frame and between 1 and [mini_batch_size] rows,
    all rows of the frame; the batches hold at most as many rows as the
    frame; no batch is returned exactly when the frame counts as empty. The
    object and the output are untouched. *)
Theorem partition_ends_on_every_frame fuel df (B : Z) s :
  0 < B → (length (frame_rows df) ≤ fuel)%nat →
  ∃ s' batches,
    initialize_mini_batches fuel df B s = (s', Ok batches) ∧
    self s' = self s ∧ stdout s' = stdout s ∧
    Forall (λ b, columns b = columns df ∧
                 (0 < length (frame_rows b) ≤ Z.to_nat B)%nat ∧
                 frame_rows b ⊆ frame_rows df) batches ∧
    (sum_list ((λ b, length (frame_rows b)) <$> batches)
       ≤ length (frame_rows df))%nat ∧
    (length batches ≤ length (frame_rows df))%nat ∧
    (batches = [] ↔ df_empty df = true).
Proof.
  intros HB Hfuel.
  destruct (partition_loop_any fuel df B [] s HB Hfuel)
    as (s' & batches & Hloop & Hself & Hout & Hall & Hsum & Hne).
  exists s', batches. unfold initialize_mini_batches.
  do 5 (split; [done|]). split.
  - etrans; [|exact Hsum].
    rewrite <- (length_fmap (λ b, length (frame_rows b)) batches).
    apply positive_sizes_length, Forall_fmap.
    eapply Forall_impl; [exact Hall|]. simpl. intros b (_ & Hb & _). lia.
  - split.
    + intros ->. destruct (df_empty df); [done|]. by destruct Hne.
    + intros He. rewrite initialize_mini_batches_loop_empty in Hloop by done.
      by injection Hloop as _ <-.
Qed.

End TrainingEdges.

Section FirstBatch.
Context {F : Type} `{Scalar F}.
Implicit Types (net : MLP F) (s : world F) (df batch : DataFrame F).

Lemma getitem_head {A} (x : A) (l : list A) : getitem (x :: l) 0 = Ok x.
Proof. by apply (getitem_nat (x :: l) 0 x). Qed.

(** The first example of a batch decides: when its backward pass raises,
    [process_batch] raises the same exception and changes nothing. *)
Lemma process_batch_first_example s batch (c : string) (lr : F) (e : exn)
    (P : list F → Prop) :
  c ∈ columns batch → frame_rows batch ≠ [] →
  (∀ r, r ∈ frame_rows batch →
        P (filter (λ q : string * F, q.1 ≠ c) (zip (columns batch) r.2)).*2) →
  (∀ x t, P x → backward x t s = (s, Raise e)) →
  process_batch batch c lr s = (s, Raise e).
Proof.
  intros Hc Hrows HP Hback. unfold process_batch.
  rewrite !bind_attr, bind_try. unfold df_getitem, df_drop_columns.
  destruct (column_pos_elem_of batch c Hc) as [p ->].
  rewrite bind_attr, bind_try. cbn [fmap outcome_fmap mbind outcome_bind].
  destruct (frame_rows batch) as [|r rows] eqn:Hr; [done|].
  unfold to_numpy. cbn [frame_rows]. rewrite !fmap_cons. cbn [length].
  unfold range. rewrite seqZ_succ.
  rewrite bind_run, for_each_cons, bind_run.
  rewrite bind_try, getitem_head. cbv beta iota.
  rewrite bind_try, getitem_head. cbv beta iota.
  rewrite bind_run, Hback; [done|]. apply HP. left.
Qed.

Lemma train_first_batch fuel df (E B : Z) (lr : F) (c : string) s (e : exn)
    (P : list F → Prop) :
  c ∈ columns df → df_empty df = false → 0 < E → 0 < B →
  (length (frame_rows df) ≤ fuel)%nat →
  (∀ r, r ∈ frame_rows df →
        P (filter (λ q : string * F, q.1 ≠ c) (zip (columns df) r.2)).*2) →
  (∀ s' x t, self s' = self s → P x → backward x t s' = (s', Raise e)) →
  ∃ s', train fuel df E B lr c s = (s', Raise e) ∧
        self s' = self s ∧ stdout s' = stdout s.
Proof.
  intros Hc He HE HB Hfuel HP Hback. rewrite train_unfold. unfold range.
  rewrite seqZ_cons by lia. rewrite for_each_cons, bind_run.
  unfold epoch_body at 1. unfold initialize_mini_batches.
  destruct (partition_loop_any fuel df B [] s HB Hfuel)
    as (s1 & batches & Hloop & Hself & Hout & Hall & _ & Hne).
  rewrite bind_run, Hloop. simpl.
  destruct batches as [|b batches]; [by destruct (Hne He)|].
  apply Forall_cons in Hall as [(Hbc & Hbl & Hsub) _].
  rewrite bind_run, for_each_cons, bind_run.
  rewrite (process_batch_first_example s1 b c lr e P).
  - by exists s1.
  - by rewrite Hbc.
  - destruct (frame_rows b); [simpl in Hbl; lia|done].
  - intros r Hr. rewrite Hbc. by apply HP, Hsub.
  - intros x t. by apply Hback.
Qed.

Lemma backward_wrong_length s x t w :
  layered (self s) → weights (self s) !! 0%nat = Some w → ncols w ≠ length x →
  backward x t s = (s, Raise ValueError).
Proof.
  intros Hnet Hw Hx. pose proof Hnet as [Hb HL].
  pose proof (evaluate_wrong_length _ _ _ Hnet Hw Hx) as Hev.
  unfold evaluate in Hev.
  rewrite backward_spec by done.
  rewrite (backpropagate_fail (self s) x t (length (weights (self s)) - 1));
    [done|done|lia|].
  intros Hc%WeightGradient_ok_ErrorSignal.
  rewrite ErrorSignal_top, Hev in Hc. done.
Qed.

(** X17. A frame of the wrong width is rejected in the first batch. When
    the number of columns besides the class column is not the number of
    columns of the first weight matrix, [train] on a non-empty frame, with
    at least one epoch and a positive batch size, raises [ValueError] at
    the first example of the first batch of the first epoch: no parameter
    is updated and nothing is printed. *)
Theorem train_rejects_frames_of_the_wrong_width
    fuel df (E B : Z) (lr : F) (c : string) s w :
  layered (self s) → weights (self s) !! 0%nat = Some w →
  c ∈ columns df → rectangular df →
  ncols w ≠ length (filter (λ x, x ≠ c) (columns df)) →
  df_empty df = false → 0 < E → 0 < B →
  (length (frame_rows df) ≤ fuel)%nat →
  ∃ s', train fuel df E B lr c s = (s', Raise ValueError) ∧
        self s' = self s ∧ stdout s' = stdout s.
Proof.
  intros Hnet Hw Hc Hrect Hwidth He HE HB Hfuel.
  apply (train_first_batch fuel df E B lr c s ValueError
           (λ x, length x = length (filter (λ x, x ≠ c) (columns df))));
    try done.
  - intros r Hr. apply drop_column_length.
    unfold rectangular in Hrect. rewrite Forall_forall in Hrect.
    by apply Hrect.
  - intros s' x t Hs' Hx. apply (backward_wrong_length s' x t w).
    + by rewrite Hs'.
    + by rewrite Hs'.
    + by rewrite Hx.
Qed.

(** X18. A network without layers cannot be trained. On the network that
    [__init__] returns for fewer than two layer sizes, [process_batch] on
    a frame that has the class column and does not count as empty raises
    [IndexError] at its first example and changes nothing, and so does
    [train] with at least one epoch and a positive batch size. *)
Theorem network_without_layers_cannot_be_trained
    sizes act ld ad out od tf
    (w_init : Z → Z → outcome (ndarray F)) (b_init : Z → outcome (ndarray F)) :
  (length sizes < 2)%nat →
  ∃ net,
    __init__ sizes act ld ad out od tf w_init b_init = Ok net ∧
    ∀ s fuel df (E B : Z) (lr : F) (c : string),
      self s = net → c ∈ columns df → df_empty df = false →
      process_batch df c lr s = (s, Raise IndexError) ∧
      (0 < E → 0 < B → (length (frame_rows df) ≤ fuel)%nat →
       ∃ s', train fuel df E B lr c s = (s', Raise IndexError) ∧
             self s' = self s ∧ stdout s' = stdout s).
Proof.
  intros Hlen.
  destruct (init_no_layers sizes act ld ad out od tf w_init b_init Hlen)
    as (net & Hnet & Hw & _).
  exists net. split; [done|].
  intros s fuel df E B lr c Hs Hc He. rewrite <- Hs in Hw. split.
  - apply (process_batch_first_example s df c lr IndexError (λ _, True));
      try done.
    + unfold df_empty in He. apply bool_decide_eq_false_1 in He.
      intros Hrows. apply He. left. by rewrite Hrows.
    + intros x t _. by apply backward_no_layers.
  - intros HE HB Hfuel.
    apply (train_first_batch fuel df E B lr c s IndexError (λ _, True));
      try done.
    intros s' x t Hs' _. apply backward_no_layers. by rewrite Hs'.
Qed.

End FirstBatch.

(** ** A batch without rows *)

Section EmptyBatch.
Context {F : Type} `{Scalar F}.
Implicit Types (net : MLP F) (s : world F) (batch : DataFrame F).

Lemma batch_examples_no_rows net batch (c : string) :
  c ∈ columns batch → frame_rows batch = [] →
  batch_examples net batch c = Ok [].
Proof.
  intros Hc Hrows. unfold batch_examples, df_getitem, df_drop_columns.
  destruct (column_pos_elem_of batch c Hc) as [p ->]. simpl.
  unfold to_numpy. simpl. by rewrite Hrows.
Qed.

(** With no example, the accumulators stay at zero and the step divides
    them by zero. *)
Lemma process_batch_no_rows s batch (c : string) (lr : F) :
  layered (self s) → c ∈ columns batch → frame_rows batch = [] →
  ∃ W' B',
    process_batch batch c lr s =
      (World (set_biases B' (set_weights W' (self s)))
         (stdout s) (random_state s), Ok ()) ∧
    Forall2 (λ p p',
               np_sub p (np_div_int (np_scale lr (np_zeros (shape p))) 0) = Ok p')
      (weights (self s)) W' ∧
    Forall2 (λ p p',
               np_sub p (np_div_int (np_scale lr (np_zeros (shape p))) 0) = Ok p')
      (biases (self s)) B'.
Proof.
  intros Hnet Hc Hrows. rewrite process_batch_run by done.
  unfold MiniBatchUpdate, BatchGradient.
  rewrite batch_examples_no_rows by done. simpl.
  destruct (MeanGradientStep_ok lr (df_len batch) (self s)
              (ZeroGradients (self s)))
    as (W' & B' & -> & _ & _ & HW & HB); [apply ZeroGradients_absorbed|].
  exists W', B'. split; [done|].
  assert (df_len batch = 0) as Hn by (unfold df_len; by rewrite Hrows).
  rewrite Hn in HW, HB. simpl in HW, HB.
  split; apply Forall2_same_length_lookup_2.
  - by apply Forall3_length_lr in HW.
  - intros i p p' Hp Hp'.
    refine (Forall3_lookup_lmr _ _ _ _ i p (np_zeros (shape p)) p' HW Hp _ Hp').
    by rewrite list_lookup_fmap, Hp.
  - by apply Forall3_length_lr in HB.
  - intros i p p' Hp Hp'.
    refine (Forall3_lookup_lmr _ _ _ _ i p (np_zeros (shape p)) p' HB Hp _ Hp').
    by rewrite list_lookup_fmap, Hp.
Qed.

End EmptyBatch.

Section EmptyBatchFloat.
Implicit Types (s : world float) (batch : DataFrame float).

Lemma zero_step_is_nan (w lr : float) :
  is_nan (w - (lr * 0) / float_of_int 0)%float = true.
Proof.
  change (float_of_int 0) with 0%float.
  unfold is_nan.
  rewrite FloatAxioms.eqb_spec, FloatAxioms.sub_spec, FloatAxioms.div_spec,
    FloatAxioms.mul_spec.
  change (FloatOps.Prim2SF 0) with (SpecFloat.S754_zero false).
  destruct (FloatOps.Prim2SF lr) as [[]|[]| |[] m e];
    destruct (FloatOps.Prim2SF w) as [[]|[]| |[] m' e']; reflexivity.
Qed.

Definition all_nan (a : ndarray float) : Prop :=
  ∀ i j, (i < nrows a)%nat → (j < ncols a)%nat → is_nan (item a i j) = true.

Lemma zero_step_all_nan (p p' : ndarray float) (lr : float) :
  np_sub p (np_div_int (np_scale lr (np_zeros (shape p))) 0) = Ok p' →
  shape p' = shape p ∧ all_nan p'.
Proof.
  intros Hp'.
  destruct (broadcast_same_shape s_sub p
              (np_div_int (np_scale lr (np_zeros (shape p))) 0))
    as (q & Hq & Hs).
  { by rewrite shape_np_div_int, shape_np_scale, shape_np_zeros. }
  unfold np_sub in Hp'. assert (q = p') as -> by congruence.
  split; [done|]. intros i j Hi Hj.
  rewrite (broadcast_item _ _ _ _ i j Hq Hi Hj).
  assert (nrows p' = nrows p ∧ ncols p' = ncols p) as [Hr Hc].
  { unfold nrows, ncols. by rewrite Hs. }
  assert (nrows (np_div_int (np_scale lr (np_zeros (shape p))) 0) = nrows p ∧
          ncols (np_div_int (np_scale lr (np_zeros (shape p))) 0) = ncols p)
    as [Hr' Hc'].
  { unfold nrows, ncols.
    by rewrite shape_np_div_int, shape_np_scale, shape_np_zeros. }
  rewrite Hr', Hc'.
  rewrite !broadcast_idx_lt by lia.
  unfold np_div_int. rewrite item_build.
  2,3: unfold nrows, ncols; rewrite shape_np_scale, shape_np_zeros;
       fold (nrows p) (ncols p); lia.
  unfold np_scale. rewrite item_build.
  2,3: unfold nrows, ncols; rewrite shape_np_zeros;
       fold (nrows p) (ncols p); lia.
  unfold np_zeros. rewrite item_build by (fold (nrows p) (ncols p); lia).
  apply zero_step_is_nan.
Qed.

(** X13. [process_batch] on a batch without rows. The accumulated
    gradients are the zeros they started as, and the step divides them by
    [len(inputs) = 0]. With [float64] entries [0.0 / 0] is NaN (numpy warns
    and goes on), so the call returns normally and every entry of every
    weight and every bias is NaN afterwards, whatever the learning rate
    is. *)
Theorem empty_batch_turns_parameters_into_NaN
    s batch (c : string) (lr : float) :
  layered (self s) → c ∈ columns batch → frame_rows batch = [] →
  ∃ W' B',
    process_batch batch c lr s =
      (World (set_biases B' (set_weights W' (self s)))
         (stdout s) (random_state s), Ok ()) ∧
    Forall2 (λ p p', shape p' = shape p ∧ all_nan p') (weights (self s)) W' ∧
    Forall2 (λ p p', shape p' = shape p ∧ all_nan p') (biases (self s)) B'.
Proof.
  intros Hnet Hc Hrows.
  destruct (process_batch_no_rows s batch c lr Hnet Hc Hrows)
    as (W' & B' & Hrun & HW & HB).
  exists W', B'. split; [done|].
  split; (eapply Forall2_impl; [eassumption|]); simpl;
    intros p p'; apply zero_step_all_nan.
Qed.

End EmptyBatchFloat.

(** ** NaN entries of the parameters *)

Section NaN.
Implicit Types (s : world float) (batch df : DataFrame float)
  (p : ndarray float).

Lemma sub_nan (x y : float) : is_nan x = true → is_nan (x - y)%float = true.
Proof.
  unfold is_nan. rewrite !FloatAxioms.eqb_spec, FloatAxioms.sub_spec.
  destruct (FloatOps.Prim2SF x) as [[]|[]| |[] m e].
  1-4: by intros [=].
  - intros _. by destruct (FloatOps.Prim2SF y) as [[]|[]| |[] m' e'].
  - unfold SpecFloat.SFeqb at 1, SpecFloat.SFcompare at 1.
    rewrite Z.compare_refl, Pos.compare_refl. by intros [=].
  - unfold SpecFloat.SFeqb at 1, SpecFloat.SFcompare at 1.
    rewrite Z.compare_refl, Pos.compare_refl. by intros [=].
Qed.


(** Every NaN entry of [p] is a NaN entry of [p'], an array of the same
    shape. *)
Definition keeps_nan p p' : Prop :=
  shape p' = shape p ∧
  ∀ i j, (i < nrows p)%nat → (j < ncols p)%nat →
         is_nan (item p i j) = true → is_nan (item p' i j) = true.

Definition keeps_nans (net net' : MLP float) : Prop :=
  Forall2 keeps_nan (weights net) (weights net') ∧
  Forall2 keeps_nan (biases net) (biases net').

Lemma keeps_nan_refl p : keeps_nan p p.
Proof. by split. Qed.

Lemma keeps_nan_trans p1 p2 p3 :
  keeps_nan p1 p2 → keeps_nan p2 p3 → keeps_nan p1 p3.
Proof.
  intros [Hs12 H12] [Hs23 H23]. split; [congruence|].
  intros i j Hi Hj Hnan. apply H23.
  - unfold nrows. rewrite Hs12. exact Hi.
  - unfold ncols. rewrite Hs12. exact Hj.
  - by apply H12.
Qed.

Lemma keeps_nans_refl net : keeps_nans net net.
Proof.
  split; apply Forall_Forall2_diag, Forall_forall; intros p _;
    apply keeps_nan_refl.
Qed.

Lemma keeps_nans_trans net1 net2 net3 :
  keeps_nans net1 net2 → keeps_nans net2 net3 → keeps_nans net1 net3.
Proof.
  intros [Hw12 Hb12] [Hw23 Hb23]. split.
  - eapply Forall2_trans; [|exact Hw12|exact Hw23].
    intros p1 p2 p3. apply keeps_nan_trans.
  - eapply Forall2_trans; [|exact Hb12|exact Hb23].
    intros p1 p2 p3. apply keeps_nan_trans.
Qed.

Lemma np_sub_keeps_nan p q p' :
  shape q = shape p → np_sub p q = Ok p' → keeps_nan p p'.
Proof.
  intros Hq Hp'.
  destruct (broadcast_same_shape s_sub p q) as (r & Hr & Hs); [done|].
  unfold np_sub in Hp'. assert (r = p') as -> by congruence.
  split; [done|]. intros i j Hi Hj Hnan.
  rewrite (broadcast_item _ _ _ _ i j Hr).
  2,3: unfold nrows, ncols in *; rewrite Hs; lia.
  rewrite !(broadcast_idx_lt (nrows p)), !(broadcast_idx_lt (ncols p)) by lia.
  by apply sub_nan.
Qed.

Lemma descend_keeps_nan (lr : float) (n : Z) (P acc P' : list (ndarray float)) :
  Forall2 (λ p a, shape a = shape p) P acc →
  descend lr n P acc = Ok P' → Forall2 keeps_nan P P'.
Proof.
  intros Hacc. revert P'.
  induction Hacc as [|p a P acc Hpa Hacc IH]; intros P' Hd.
  - injection Hd as <-. constructor.
  - unfold descend in Hd. simpl in Hd.
    destruct (np_sub p _) as [p'| |] eqn:Hp; try done. simpl in Hd.
    destruct (mapM _ (zip P acc)) as [rest| |] eqn:Hrest; try done.
    injection Hd as <-. constructor; [|by eapply IH].
    apply (np_sub_keeps_nan p (np_div_int (np_scale lr a) n)); [|done].
    by rewrite shape_np_div_int, shape_np_scale.
Qed.

Lemma MiniBatchUpdate_keeps_nans net batch (c : string) (lr : float) net' :
  chained net → shape_contract net →
  MiniBatchUpdate net batch c lr = Ok net' → keeps_nans net net'.
Proof.
  intros Hnet Hc. unfold MiniBatchUpdate, BatchGradient.
  destruct (batch_examples net batch c) as [examples| |] eqn:Hex; try done.
  simpl.
  destruct (GradientSum net examples _) as [[gw gb]| |] eqn:Hsum; try done.
  simpl. unfold MeanGradientStep. simpl.
  destruct (descend lr _ (weights net) gw) as [W'| |] eqn:HW; try done.
  destruct (descend lr _ (biases net) gb) as [B'| |] eqn:HB; try done.
  simpl. intros [= <-].
  apply GradientSum_same_shapes in Hsum as [Hgw Hgb];
    [|done|done|by eapply batch_examples_targets|..].
  2,3: simpl; apply Forall2_fmap_r, Forall_Forall2_diag, Forall_forall;
       intros p _; unfold compose; by rewrite shape_np_zeros.
  split; simpl; by eapply descend_keeps_nan.
Qed.

Lemma process_batch_keeps_nans s batch (c : string) (lr : float) :
  chained (self s) → shape_contract (self s) →
  keeps_nans (self s) (self (process_batch batch c lr s).1).
Proof.
  intros Hnet Hc. rewrite process_batch_run by apply Hnet.
  destruct (MiniBatchUpdate (self s) batch c lr) as [net'| |] eqn:Hup;
    simpl; try apply keeps_nans_refl.
  by eapply MiniBatchUpdate_keeps_nans.
Qed.

Lemma batches_keep_nans s (batches : list (DataFrame float)) (c : string)
    (lr : float) :
  chained (self s) → shape_contract (self s) →
  keeps_nans (self s)
    (self (for_each batches (λ batch _, process_batch batch c lr) () s).1).
Proof.
  revert s. induction batches as [|batch batches IH]; intros s Hnet Hc.
  - apply keeps_nans_refl.
  - rewrite for_each_cons, bind_run.
    pose proof (process_batch_keeps_nans s batch c lr Hnet Hc) as Hn.
    pose proof (process_batch_shaped s batch c lr Hnet Hc) as Hs.
    destruct (process_batch batch c lr s) as [s1 [[]| |]]; simpl in *;
      try done.
    eapply keeps_nans_trans; [exact Hn|]. apply IH.
    + by eapply shaped_like_chained.
    + by eapply shaped_like_contract.
Qed.

Lemma epoch_keeps_nans fuel df (B : Z) (lr : float) (c : string) epoch s :
  chained (self s) → shape_contract (self s) →
  keeps_nans (self s) (self (epoch_body fuel df B lr c epoch () s).1).
Proof.
  intros Hnet Hc. unfold epoch_body. rewrite bind_run.
  unfold initialize_mini_batches.
  pose proof (initialize_mini_batches_loop_frame fuel df B [] s) as [Hs _].
  destruct (initialize_mini_batches_loop fuel df B [] s)
    as [s1 [batches| |]]; simpl in Hs; rewrite <- Hs;
    try apply keeps_nans_refl.
  rewrite bind_run.
  pose proof (batches_keep_nans s1 batches c lr) as Hb.
  rewrite Hs in Hb. specialize (Hb Hnet Hc). rewrite Hs.
  by destruct (for_each batches _ () s1) as [s2 [[]| |]].
Qed.

Lemma train_keeps_nans fuel df (epochs B : Z) (lr : float) (c : string) s :
  chained (self s) → shape_contract (self s) →
  keeps_nans (self s) (self (train fuel df epochs B lr c s).1).
Proof.
  rewrite train_unfold. generalize (range epochs). intros l. revert s.
  induction l as [|e l IH]; intros s Hnet Hc.
  - apply keeps_nans_refl.
  - rewrite for_each_cons, bind_run.
    pose proof (epoch_keeps_nans fuel df B lr c e s Hnet Hc) as Hn.
    pose proof (epoch_shaped fuel df B lr c e s Hnet Hc) as Hs.
    destruct (epoch_body fuel df B lr c e () s) as [s1 [[]| |]];
      simpl in *; try done.
    eapply keeps_nans_trans; [exact Hn|]. apply IH.
    + by eapply shaped_like_chained.
    + by eapply shaped_like_contract.
Qed.

(** X19. NaN parameters stay NaN. With [float64] entries, on a network
    whose layers fit each other and with supplied functions that keep
    shapes, every entry of a weight or a bias that is NaN before a call of
    [process_batch] or of [train] is NaN after it, whatever the data, the
    learning rate and the outcome of the call are: once an update has
    produced a NaN, no later update removes it. *)
Theorem NaN_parameters_stay_NaN
    fuel df batch (E B : Z) (lr : float) (c : string) s :
  chained (self s) → shape_contract (self s) →
  keeps_nans (self s) (self (process_batch batch c lr s).1) ∧
  keeps_nans (self s) (self (train fuel df E B lr c s).1).
Proof.
  intros Hnet Hc. split.
  - by apply process_batch_keeps_nans.
  - by apply train_keeps_nans.
Qed.

End NaN.

(** ** A batch size that covers the frame *)

Section FullBatch.
Context {F : Type} `{Scalar F}.
Implicit Types (net : MLP F) (s : world F) (df batch : DataFrame F).

(** A batch size that covers the frame gives one batch with all the rows,
    in the order the random stream decides. *)
Lemma partition_full_batch fuel df (B : Z) s :
  df_empty df = false → df_len df ≤ B → (1 ≤ fuel)%nat →
  ∃ s' mb,
    initialize_mini_batches fuel df B s = (s', Ok [mb]) ∧
    self s' = self s ∧ stdout s' = stdout s ∧
    columns mb = columns df ∧ frame_rows mb ≡ₚ frame_rows df.
Proof.
  intros He HB Hfuel. destruct fuel as [|fuel]; [lia|].
  unfold initialize_mini_batches. cbn [initialize_mini_batches_loop].
  rewrite He.
  destruct (df_sample_spec df (B `min` df_len df) s)
    as (s1 & mb & rest & Hsample & Hself & Hout & Hmbcols & Hmblen & Hperm).
  { unfold df_len in *. lia. }
  rewrite bind_run, Hsample.
  destruct (df_drop_sampled_any df (frame_rows mb) rest Hperm)
    as (df' & Hdrop & Hcols' & Hsub & Hlen').
  change (index mb) with (frame_rows mb).*1.
  rewrite Hdrop, bind_try.
  assert (length (frame_rows df) =
          (length (frame_rows mb) + length rest)%nat) as Hsplit.
  { by rewrite Hperm, length_app. }
  unfold df_len in *.
  assert (rest = []) as ->. { apply length_zero_iff_nil. lia. }
  rewrite initialize_mini_batches_loop_empty.
  2:{ unfold df_empty. apply bool_decide_eq_true_2. left. simpl in Hlen'. lia. }
  exists s1, mb. rewrite app_nil_r in Hperm. by rewrite Hperm.
Qed.

End FullBatch.

Section FullBatchTheorem.
Context {F : Type} `{Scalar F}.
Implicit Types (net : MLP F) (s : world F) (df batch : DataFrame F).

(** X8. With a batch size of at least the number of rows, a frame that
    does not count as empty is partitioned in one round into one batch: a
    frame with the same columns and the same rows, in the order the random
    stream decides. This holds for duplicated index labels too. *)
Theorem batch_size_covering_the_frame_gives_one_batch fuel df (B : Z) s :
  df_empty df = false → df_len df ≤ B → (1 ≤ fuel)%nat →
  ∃ s' mb,
    initialize_mini_batches fuel df B s = (s', Ok [mb]) ∧
    self s' = self s ∧ stdout s' = stdout s ∧
    columns mb = columns df ∧ frame_rows mb ≡ₚ frame_rows df.
Proof. apply partition_full_batch. Qed.

End FullBatchTheorem.

(** ** Resuming a training run *)

Section Resume.
Context {F : Type} `{Scalar F}.
Implicit Types (net : MLP F) (s : world F) (df batch : DataFrame F).

(** Two worlds that differ in the printed lines at most. *)
Definition same_state s s' : Prop :=
  self s = self s' ∧ random_state s = random_state s'.

(** Two runs that end alike, up to the printed lines. *)
Definition same_run {A} (r r' : world F * outcome A) : Prop :=
  same_state r.1 r'.1 ∧ r.2 = r'.2.

Lemma df_sample_same df (n : Z) s s' :
  same_state s s' → same_run (df_sample df n s) (df_sample df n s').
Proof.
  intros [Hself Hrng]. unfold df_sample. rewrite Hrng.
  repeat case_decide; try done.
  by destruct (choose_positions _ _ _).
Qed.

Lemma initialize_mini_batches_loop_same fuel df (B : Z) acc s s' :
  same_state s s' →
  same_run (initialize_mini_batches_loop fuel df B acc s)
           (initialize_mini_batches_loop fuel df B acc s').
Proof.
  revert df acc s s'. induction fuel as [|fuel IH]; intros df acc s s' Hs;
    simpl; destruct (df_empty df); try done.
  rewrite !bind_run.
  destruct (df_sample_same df (B `min` df_len df) s s' Hs) as [Hs1 Ho].
  destruct (df_sample df _ s) as [s1 o1], (df_sample df _ s') as [s1' o1'].
  simpl in *. subst o1'. destruct o1 as [mb| |]; try done.
  rewrite !bind_try. destruct (df_drop df (index mb)) as [df'| |]; try done.
  by apply IH.
Qed.

Lemma process_batch_same batch (c : string) (lr : F) s s' :
  layered (self s) → same_state s s' →
  same_run (process_batch batch c lr s) (process_batch batch c lr s').
Proof.
  intros Hnet [Hself Hrng]. rewrite !process_batch_run by congruence.
  rewrite <- Hself. by destruct (MiniBatchUpdate (self s) batch c lr).
Qed.

Lemma batches_same (batches : list (DataFrame F)) (c : string) (lr : F) s s' :
  chained (self s) → shape_contract (self s) → same_state s s' →
  same_run (for_each batches (λ batch _, process_batch batch c lr) () s)
           (for_each batches (λ batch _, process_batch batch c lr) () s').
Proof.
  revert s s'. induction batches as [|b batches IH]; intros s s' Hnet Hc Hs;
    [done|].
  rewrite !for_each_cons, !bind_run.
  destruct (process_batch_same b c lr s s' (proj1 Hnet) Hs) as [Hs1 Ho].
  pose proof (process_batch_shaped s b c lr Hnet Hc) as Hshaped.
  destruct (process_batch b c lr s) as [s1 o1],
           (process_batch b c lr s') as [s1' o1'].
  simpl in *. subst o1'. destruct o1 as [[]| |]; try done.
  apply IH; [by eapply shaped_like_chained|by eapply shaped_like_contract|done].
Qed.

Lemma epoch_same fuel df (B : Z) (lr : F) (c : string) (e e' : Z) s s' :
  chained (self s) → shape_contract (self s) → same_state s s' →
  same_run (epoch_body fuel df B lr c e () s)
           (epoch_body fuel df B lr c e' () s').
Proof.
  intros Hnet Hc Hs. unfold epoch_body. rewrite !bind_run.
  unfold initialize_mini_batches.
  destruct (initialize_mini_batches_loop_same fuel df B [] s s' Hs) as [Hs1 Ho].
  pose proof (initialize_mini_batches_loop_frame fuel df B [] s) as [Hself _].
  destruct (initialize_mini_batches_loop fuel df B [] s) as [s1 o1],
           (initialize_mini_batches_loop fuel df B [] s') as [s1' o1'].
  simpl in *. subst o1'. destruct o1 as [batches| |]; try done.
  rewrite !bind_run. rewrite <- Hself in Hnet, Hc.
  destruct (batches_same batches c lr s1 s1' Hnet Hc Hs1) as [Hs2 Ho2].
  destruct (for_each batches _ () s1) as [s2 o2],
           (for_each batches _ () s1') as [s2' o2'].
  simpl in *. subst o2'. by destruct o2 as [[]| |].
Qed.

Lemma epochs_same fuel df (B : Z) (lr : F) (c : string) (l l' : list Z) s s' :
  length l = length l' →
  chained (self s) → shape_contract (self s) → same_state s s' →
  same_run (for_each l (epoch_body fuel df B lr c) () s)
           (for_each l' (epoch_body fuel df B lr c) () s').
Proof.
  revert l' s s'. induction l as [|e l IH]; intros [|e' l'] s s' Hlen Hnet Hc Hs;
    try done.
  rewrite !for_each_cons, !bind_run.
  destruct (epoch_same fuel df B lr c e e' s s' Hnet Hc Hs) as [Hs1 Ho].
  pose proof (epoch_shaped fuel df B lr c e s Hnet Hc) as Hshaped.
  destruct (epoch_body fuel df B lr c e () s) as [s1 o1],
           (epoch_body fuel df B lr c e' () s') as [s1' o1'].
  simpl in *. subst o1'. destruct o1 as [[]| |]; try done.
  apply IH; [by injection Hlen|by eapply shaped_like_chained
            |by eapply shaped_like_contract|done].
Qed.

(** X16. Training can be resumed. When [train] for [E1] epochs returns
    normally, a second call for [E2] epochs on the world it left ends with
    the same outcome, the same parameters and the same random stream as one
    call for [E1 + E2] epochs. Only the epoch numbers in the printed lines
    differ. *)
Theorem training_can_be_resumed
    fuel df (E1 E2 B : Z) (lr : F) (c : string) s s1 :
  chained (self s) → shape_contract (self s) →
  0 ≤ E1 → 0 ≤ E2 →
  train fuel df E1 B lr c s = (s1, Ok ()) →
  (train fuel df (E1 + E2) B lr c s).2 = (train fuel df E2 B lr c s1).2 ∧
  self (train fuel df (E1 + E2) B lr c s).1 =
    self (train fuel df E2 B lr c s1).1 ∧
  random_state (train fuel df (E1 + E2) B lr c s).1 =
    random_state (train fuel df E2 B lr c s1).1.
Proof.
  intros Hnet Hc HE1 HE2 Hrun. rewrite !train_unfold in *. unfold range in *.
  replace (seqZ 0 (E1 + E2)) with (seqZ 0 E1 ++ seqZ E1 E2).
  2:{ rewrite (seqZ_app 0 E1 E2) by lia. done. }
  rewrite for_each_app, bind_run, Hrun.
  pose proof (train_shaped fuel df E1 B lr c s Hnet Hc) as Hshaped.
  rewrite train_unfold in Hshaped. unfold range in Hshaped.
  rewrite Hrun in Hshaped. simpl in Hshaped.
  destruct (epochs_same fuel df B lr c (seqZ E1 E2) (seqZ 0 E2) s1 s1)
    as [[Hself Hrng] Ho]; try done.
  - by rewrite !length_seqZ.
  - by eapply shaped_like_chained.
  - by eapply shaped_like_contract.
Qed.

End Resume.

(** ** The properties on the example networks *)

Lemma ex_net_chained : chained ex_net.
Proof.
  apply (has_shapes_chained [2; 3; 1]); [simpl; lia|].
  split; [done|]. split; [done|]. split.
  - intros [|[|i]] w Hw; simpl in Hw; [| |done]; injection Hw as <-.
    + by exists 2, 3.
    + by exists 3, 1.
  - intros [|[|i]] b Hb; simpl in Hb; [| |done]; injection Hb as <-.
    + by exists 3.
    + by exists 1.
Qed.

Lemma ex_data_rectangular : rectangular ex_data.
Proof. repeat constructor. Qed.

Lemma ex_net_takes_features : takes_features ex_net (columns ex_data) "target".
Proof. intros w Hw. simpl in Hw. by injection Hw as <-. Qed.

Lemma ex_net_input_fits : input_fits ex_net [1; 2].
Proof. intros w Hw. simpl in Hw. by injection Hw as <-. Qed.

(** A [float64] frame with the two columns of [exf_batch] and no rows. *)
Definition exf_no_rows : DataFrame float := {|
  columns := ["x"; "target"];
  frame_rows := [];
|}.

Lemma forward_pass_returns_columns_witness :
  ∃ a activs zs,
    feed_forward [1; 2] ex_world = (ex_world, Ok a) ∧
    get_activations_and_zs [1; 2] ex_world = (ex_world, Ok (activs, zs)) ∧
    length activs = S (length (weights (self ex_world))) ∧
    length zs = length (weights (self ex_world)) ∧
    last activs = Some a ∧
    ∀ i w, weights (self ex_world) !! i = Some w →
      ∃ z a', zs !! i = Some z ∧ activs !! S i = Some a' ∧
              shape z = (nrows w, 1%nat) ∧ shape a' = (nrows w, 1%nat).
Proof.
  apply (forward_pass_returns_columns ex_world [1; 2]).
  - apply ex_net_chained.
  - apply ex_shape_contract.
  - apply ex_net_input_fits.
Defined.

Lemma wrong_input_length_raises_ValueError_witness :
  feed_forward [1; 2; 3] ex_world = (ex_world, Raise ValueError) ∧
  get_activations_and_zs [1; 2; 3] ex_world = (ex_world, Raise ValueError) ∧
  backward [1; 2; 3] (ex_target_fit 5) ex_world = (ex_world, Raise ValueError).
Proof.
  apply (wrong_input_length_raises_ValueError ex_world [1; 2; 3]
           (ex_target_fit 5) (NdArray (3%nat, 2%nat) [[1; 3]; [2; 4]; [3; 5]])).
  - apply ex_net_layered.
  - reflexivity.
  - unfold ncols. simpl. lia.
Defined.

Lemma predict_checks_every_row_witness :
  (Forall (λ r : Z * list Z,
             length r.2 = ncols (NdArray (3%nat, 2%nat) [[1; 3]; [2; 4]; [3; 5]]))
     (frame_rows ex_data) →
     ∃ ps w, predict ex_data ex_world = (ex_world, Ok ps) ∧
             length ps = length (frame_rows ex_data) ∧
             last (weights (self ex_world)) = Some w ∧
             Forall (λ p, shape p = (nrows w, 1%nat)) ps) ∧
  (Exists (λ r : Z * list Z,
             length r.2 ≠ ncols (NdArray (3%nat, 2%nat) [[1; 3]; [2; 4]; [3; 5]]))
     (frame_rows ex_data) →
     predict ex_data ex_world = (ex_world, Raise ValueError)).
Proof.
  apply (predict_checks_every_row ex_world ex_data
           (NdArray (3%nat, 2%nat) [[1; 3]; [2; 4]; [3; 5]])).
  - apply ex_net_chained.
  - apply ex_shape_contract.
  - reflexivity.
Defined.

Lemma network_without_layers_cannot_run_witness :
  ∃ net,
    __init__ [3] ex_identity ex_loss_derv ex_identity ex_identity
      ex_identity ex_target_fit ex_weight_init ex_bias_init = Ok net ∧
    ∀ s x t (X : DataFrame Z), self s = net →
      feed_forward x s = (s, Raise IndexError) ∧
      get_activations_and_zs x s = (s, Raise IndexError) ∧
      backward x t s = (s, Raise IndexError) ∧
      predict X s =
        (s, if decide (frame_rows X = []) then Ok [] else Raise IndexError).
Proof.
  apply (network_without_layers_cannot_run [3] ex_identity ex_loss_derv
           ex_identity ex_identity ex_identity ex_target_fit
           ex_weight_init ex_bias_init).
  simpl. lia.
Defined.

Lemma constructed_network_maps_first_size_to_last_witness :
  ∃ net,
    __init__ [2; 3; 1] ex_identity ex_loss_derv ex_identity ex_identity
      ex_identity ex_target_fit ex_weight_init ex_bias_init = Ok net ∧
    ∀ s x, self s = net →
      (length x = Z.to_nat 2 →
         ∃ a, feed_forward x s = (s, Ok a) ∧ shape a = (Z.to_nat 1, 1%nat)) ∧
      (length x ≠ Z.to_nat 2 → feed_forward x s = (s, Raise ValueError)).
Proof.
  apply (constructed_network_maps_first_size_to_last [2; 3; 1] ex_identity
           ex_loss_derv ex_identity ex_identity ex_identity ex_target_fit
           ex_weight_init ex_bias_init 2 1).
  - simpl. lia.
  - repeat constructor.
  - reflexivity.
  - reflexivity.
  - apply ex_weight_init_shape.
  - apply ex_bias_init_shape.
  - done.
  - done.
  - done.
  - done.
  - apply ex_shape_contract.
Defined.

Lemma partition_ends_on_every_frame_witness :
  ∃ s' batches,
    initialize_mini_batches 2 ex_duplicated 1 ex_world = (s', Ok batches) ∧
    self s' = self ex_world ∧ stdout s' = stdout ex_world ∧
    Forall (λ b, columns b = columns ex_duplicated ∧
                 (0 < length (frame_rows b) ≤ Z.to_nat 1)%nat ∧
                 frame_rows b ⊆ frame_rows ex_duplicated) batches ∧
    (sum_list ((λ b, length (frame_rows b)) <$> batches)
       ≤ length (frame_rows ex_duplicated))%nat ∧
    (length batches ≤ length (frame_rows ex_duplicated))%nat ∧
    (batches = [] ↔ df_empty ex_duplicated = true).
Proof.
  apply (partition_ends_on_every_frame 2 ex_duplicated 1 ex_world).
  - lia.
  - simpl. lia.
Defined.

Lemma zero_batch_size_never_finishes_witness :
  initialize_mini_batches 1000 ex_data 0 ex_world = (ex_world, OutOfFuel) ∧
  (0 < 3 → train 1000 ex_data 3 0 1 "target" ex_world = (ex_world, OutOfFuel)).
Proof.
  apply (zero_batch_size_never_finishes 1000 ex_data 3 1 "target" ex_world).
  reflexivity.
Defined.

Lemma missing_class_column_raises_KeyError_witness :
  process_batch ex_data "label" 1 ex_world = (ex_world, Raise KeyError) ∧
  (df_empty ex_data = false → 0 < 3 → 0 < 2 →
   (length (frame_rows ex_data) ≤ 5)%nat →
   ∃ s', train 5 ex_data 3 2 1 "label" ex_world = (s', Raise KeyError) ∧
         self s' = self ex_world ∧ stdout s' = stdout ex_world).
Proof.
  apply (missing_class_column_raises_KeyError 5 ex_data 3 2 1 "label" ex_world).
  apply (bool_decide_unpack ("label" ∉ columns ex_data)). by vm_compute.
Defined.

Lemma train_succeeds_on_fitting_data_witness :
  ∃ s',
    train 5 ex_data 2 2 1 "target" ex_world = (s', Ok ()) ∧
    shaped_like (self ex_world) (self s') ∧
    stdout s' = stdout ex_world ++ (epoch_line <$> range 2).
Proof.
  apply (train_succeeds_on_fitting_data 5 ex_data 2 2 1 "target" ex_world).
  - apply ex_net_chained.
  - apply ex_shape_contract.
  - apply (bool_decide_unpack ("target" ∈ columns ex_data)). by vm_compute.
  - apply ex_data_rectangular.
  - apply ex_net_takes_features.
  - lia.
  - simpl. lia.
Defined.

Lemma empty_batch_turns_parameters_into_NaN_witness :
  ∃ W' B',
    process_batch exf_no_rows "target" 0.5%float exf_world =
      (World (set_biases B' (set_weights W' (self exf_world)))
         (stdout exf_world) (random_state exf_world), Ok ()) ∧
    Forall2 (λ p p', shape p' = shape p ∧ all_nan p')
      (weights (self exf_world)) W' ∧
    Forall2 (λ p p', shape p' = shape p ∧ all_nan p')
      (biases (self exf_world)) B'.
Proof.
  apply (empty_batch_turns_parameters_into_NaN exf_world exf_no_rows
           "target" 0.5%float).
  - split; simpl; lia.
  - apply (bool_decide_unpack ("target" ∈ columns exf_no_rows)). by vm_compute.
  - reflexivity.
Defined.

Lemma batch_size_covering_the_frame_gives_one_batch_witness :
  ∃ s' mb,
    initialize_mini_batches 1 ex_duplicated 2 ex_world = (s', Ok [mb]) ∧
    self s' = self ex_world ∧ stdout s' = stdout ex_world ∧
    columns mb = columns ex_duplicated ∧
    frame_rows mb ≡ₚ frame_rows ex_duplicated.
Proof.
  apply (batch_size_covering_the_frame_gives_one_batch 1 ex_duplicated 2 ex_world).
  - reflexivity.
  - unfold df_len. simpl. lia.
  - lia.
Defined.

Lemma training_can_be_resumed_witness :
  let s1 := (train 5 ex_data 1 2 1 "target" ex_world).1 in
  (train 5 ex_data (1 + 1) 2 1 "target" ex_world).2 =
    (train 5 ex_data 1 2 1 "target" s1).2 ∧
  self (train 5 ex_data (1 + 1) 2 1 "target" ex_world).1 =
    self (train 5 ex_data 1 2 1 "target" s1).1 ∧
  random_state (train 5 ex_data (1 + 1) 2 1 "target" ex_world).1 =
    random_state (train 5 ex_data 1 2 1 "target" s1).1.
Proof.
  intros s1.
  apply (training_can_be_resumed 5 ex_data 1 1 2 1 "target" ex_world s1).
  - apply ex_net_chained.
  - apply ex_shape_contract.
  - lia.
  - lia.
  - by vm_compute.
Defined.

(** A frame with three features and a label. *)
Definition ex_wide : DataFrame Z := {|
  columns := ["x"; "y"; "z"; "target"];
  frame_rows := [(0, [1; 2; 3; 4]); (1, [0; 1; 0; 1])];
|}.

Lemma train_rejects_frames_of_the_wrong_width_witness :
  ∃ s', train 2 ex_wide 3 1 1 "target" ex_world = (s', Raise ValueError) ∧
        self s' = self ex_world ∧ stdout s' = stdout ex_world.
Proof.
  apply (train_rejects_frames_of_the_wrong_width 2 ex_wide 3 1 1 "target"
           ex_world (NdArray (3%nat, 2%nat) [[1; 3]; [2; 4]; [3; 5]])).
  - apply ex_net_layered.
  - reflexivity.
  - apply (bool_decide_unpack ("target" ∈ columns ex_wide)). by vm_compute.
  - repeat constructor.
  - unfold ncols. simpl. lia.
  - reflexivity.
  - lia.
  - lia.
  - simpl. lia.
Defined.

Lemma network_without_layers_cannot_be_trained_witness :
  ∃ net,
    __init__ [3] ex_identity ex_loss_derv ex_identity ex_identity
      ex_identity ex_target_fit ex_weight_init ex_bias_init = Ok net ∧
    ∀ s fuel df (E B : Z) (lr : Z) (c : string),
      self s = net → c ∈ columns df → df_empty df = false →
      process_batch df c lr s = (s, Raise IndexError) ∧
      (0 < E → 0 < B → (length (frame_rows df) ≤ fuel)%nat →
       ∃ s', train fuel df E B lr c s = (s', Raise IndexError) ∧
             self s' = self s ∧ stdout s' = stdout s).
Proof.
  apply (network_without_layers_cannot_be_trained [3] ex_identity ex_loss_derv
           ex_identity ex_identity ex_identity ex_target_fit
           ex_weight_init ex_bias_init).
  simpl. lia.
Defined.

Lemma exf_net_chained : chained exf_net.
Proof.
  split; [split; simpl; lia|]. split.
  - intros [|i] w b Hw Hb; simpl in Hw, Hb; [|done].
    injection Hw as <-. by injection Hb as <-.
  - intros [|i] w w' Hw Hw'; simpl in Hw, Hw'; done.
Qed.

Lemma exf_shape_contract : shape_contract exf_net.
Proof.
  repeat split; try done.
  - intros a. simpl. unfold exf_ones. by rewrite (shape_nrows_ncols a).
  - intros a. simpl. unfold exf_ones. by rewrite (shape_nrows_ncols a).
  - intros a c. simpl. unfold exf_loss_derv. by rewrite (shape_nrows_ncols a).
Qed.

Lemma NaN_parameters_stay_NaN_witness :
  keeps_nans (self exf_world)
    (self (process_batch exf_batch "target" 0.5%float exf_world).1) ∧
  keeps_nans (self exf_world)
    (self (train 1 exf_batch 3 1 0.5%float "target" exf_world).1).
Proof.
  apply (NaN_parameters_stay_NaN 1 exf_batch exf_batch 3 1 0.5%float "target"
           exf_world).
  - apply exf_net_chained.
  - apply exf_shape_contract.
Defined.

Lemma construction_raises_the_first_initialiser_error_witness :
  (ex_weight_init (-3) 2 = Raise ValueError →
   (∀ j n m, (j < 0)%nat → [2; -3; 1] !! j = Some n →
             [2; -3; 1] !! S j = Some m → is_ok (ex_weight_init m n)) →
   __init__ [2; -3; 1] ex_identity ex_loss_derv ex_identity ex_identity
     ex_identity ex_target_fit ex_weight_init ex_bias_init = Raise ValueError) ∧
  (ex_bias_init (-3) = Raise ValueError →
   (∀ j n m, [2; -3; 1] !! j = Some n → [2; -3; 1] !! S j = Some m →
             is_ok (ex_weight_init m n)) →
   (∀ j m, (j < 0)%nat → [2; -3; 1] !! S j = Some m → is_ok (ex_bias_init m)) →
   __init__ [2; -3; 1] ex_identity ex_loss_derv ex_identity ex_identity
     ex_identity ex_target_fit ex_weight_init ex_bias_init = Raise ValueError).
Proof.
  apply (construction_raises_the_first_initialiser_error [2; -3; 1]
           ex_identity ex_loss_derv ex_identity ex_identity ex_identity
           ex_target_fit ex_weight_init ex_bias_init 0 2 (-3) ValueError).
  - reflexivity.
  - reflexivity.
Defined.
